(** * ff.py: flip-flop ratio report for Yosys designs

    A shallow embedding of [src/ff.py] and the properties of its report
    extraction, metrics and rendering.

    A report text is the list of its characters.  A character is a code
    point below 256; the classes [\d], [\s] and [\w] of the pattern
    language are the ones Python's [re] uses for [str] patterns on that
    range. *)

From Stdlib Require Import String Ascii ZArith NArith Lia Bool Arith List.
From Stdlib Require Import DecimalString DecimalPos QArith Qpower.
Local Close Scope Q_scope.
Import ListNotations.

Set Implicit Arguments.

Local Open Scope list_scope.

(** ** Characters and character classes *)

Definition text := list ascii.

Definition code (c : ascii) : N := N_of_ascii c.

Definition between (lo hi : N) (c : ascii) : bool :=
  ((lo <=? code c) && (code c <=? hi))%N.

(** [\d]: the decimal digits. *)
Definition is_digit (c : ascii) : bool := between 48 57 c.

(** [\s]: tab, line feed, vertical tab, form feed, carriage return, the
    four separators 28..31, space, next-line and no-break space. *)
Definition is_space (c : ascii) : bool :=
  between 9 13 c || between 28 32 c || (code c =? 133)%N || (code c =? 160)%N.

(** [\w]: letters, digits and the underscore. *)
Definition is_word (c : ascii) : bool :=
  between 48 57 c || between 65 90 c || (code c =? 95)%N || between 97 122 c
  || (code c =? 170)%N || between 178 179 c || (code c =? 181)%N
  || between 185 186 c || between 188 190 c
  || between 192 214 c || between 216 246 c || between 248 255 c.

Definition newline : ascii := "010"%char.

Definition chars (s : string) : text := list_ascii_of_string s.

(** ** The pattern language of [re], as far as the source uses it

    The three patterns of [get_counts] are built from literal text, the
    classes above under a greedy [*] or [+], the anchors [^] and [$] in
    MULTILINE mode, the word boundary [\b], one capturing group and
    concatenation. *)

Inductive regex : Type :=
| Str (w : text)                 (* literal text *)
| Star (p : ascii -> bool)       (* class*, greedy *)
| Plus (p : ascii -> bool)       (* class+, greedy *)
| Bol                            (* ^ with re.MULTILINE *)
| Eol                            (* $ with re.MULTILINE *)
| WordB                          (* \b *)
| Grp (r : regex)                (* ( ... ), group 1 *)
| Cat (r1 r2 : regex).

Declare Scope regex_scope.
Delimit Scope regex_scope with re.
Bind Scope regex_scope with regex.
Infix "@@" := Cat (at level 60, right associativity) : regex_scope.

(** A match: the text it consumed, the content of group 1 when the group
    took part, and the text left after it. *)
Record rmatch : Type := MkMatch {
  consumed : text;
  group1 : option text;
  remaining : text
}.

(** The character before the current position, after [m] was consumed. *)
Definition last_before (prev : option ascii) (m : text) : option ascii :=
  fold_left (fun _ c => Some c) m prev.

(** [^] holds at the start of the text and after every line feed. *)
Definition at_bol (prev : option ascii) : bool :=
  match prev with
  | None => true
  | Some c => Ascii.eqb c newline
  end.

(** [$] holds at the end of the text and before every line feed. *)
Definition at_eol (s : text) : bool :=
  match s with
  | [] => true
  | c :: _ => Ascii.eqb c newline
  end.

Definition word_before (prev : option ascii) : bool :=
  match prev with
  | None => false
  | Some c => is_word c
  end.

Definition word_after (s : text) : bool :=
  match s with
  | [] => false
  | c :: _ => is_word c
  end.

(** [\b] holds where exactly one side is a word character. *)
Definition at_boundary (prev : option ascii) (s : text) : bool :=
  xorb (word_before prev) (word_after s).

(** [strip w s] is what follows the literal [w] at the head of [s]. *)
Fixpoint strip (w s : text) : option text :=
  match w with
  | [] => Some s
  | a :: w' =>
      match s with
      | [] => None
      | b :: s' => if Ascii.eqb a b then strip w' s' else None
      end
  end.

(** The ways a greedy [class*] can consume a prefix of [s], the longest
    first: the order in which a backtracking matcher tries them. *)
Fixpoint star (p : ascii -> bool) (s : text) : list (text * text) :=
  match s with
  | c :: s' =>
      if p c
      then map (fun ms => (c :: fst ms, snd ms)) (star p s') ++ [([], s)]
      else [([], s)]
  | [] => [([], [])]
  end.

Definition plus (p : ascii -> bool) (s : text) : list (text * text) :=
  match s with
  | c :: s' =>
      if p c then map (fun ms => (c :: fst ms, snd ms)) (star p s') else []
  | [] => []
  end.

Definition or_else (g2 g1 : option text) : option text :=
  match g2 with
  | Some _ => g2
  | None => g1
  end.

(** [run r prev s]: every way [r] matches at the head of [s], where [prev]
    is the character before it, in the matcher's order of preference.  The
    match the library reports at a position is the first of the list. *)
Fixpoint run (r : regex) (prev : option ascii) (s : text) : list rmatch :=
  match r with
  | Str w =>
      match strip w s with
      | Some s' => [MkMatch w None s']
      | None => []
      end
  | Star p => map (fun ms => MkMatch (fst ms) None (snd ms)) (star p s)
  | Plus p => map (fun ms => MkMatch (fst ms) None (snd ms)) (plus p s)
  | Bol => if at_bol prev then [MkMatch [] None s] else []
  | Eol => if at_eol s then [MkMatch [] None s] else []
  | WordB => if at_boundary prev s then [MkMatch [] None s] else []
  | Grp r1 =>
      map (fun m => MkMatch (consumed m) (Some (consumed m)) (remaining m))
          (run r1 prev s)
  | Cat r1 r2 =>
      flat_map
        (fun m1 =>
           map (fun m2 =>
                  MkMatch (consumed m1 ++ consumed m2)
                          (or_else (group1 m2) (group1 m1))
                          (remaining m2))
               (run r2 (last_before prev (consumed m1)) (remaining m1)))
        (run r1 prev s)
  end.

Definition match_at (r : regex) (prev : option ascii) (s : text)
  : option rmatch :=
  hd_error (run r prev s).

(** [re.search]: the match at the leftmost position that has one. *)
Fixpoint search_from (r : regex) (prev : option ascii) (s : text)
  : option rmatch :=
  match match_at r prev s with
  | Some m => Some m
  | None =>
      match s with
      | [] => None
      | c :: s' => search_from r (Some c) s'
      end
  end.

Definition search (r : regex) (s : text) : option rmatch :=
  search_from r None s.

(** [re.finditer]: the matches from left to right, each search resuming
    where the previous match ended.  [skip] counts the characters of the
    previous match still to be passed.  Every pattern of the source consumes
    at least one character, so a match is never empty here. *)
Fixpoint scan (r : regex) (prev : option ascii) (s : text) (skip : nat)
  : list rmatch :=
  match skip with
  | S k =>
      match s with
      | [] => []
      | c :: s' => scan r (Some c) s' k
      end
  | O =>
      match match_at r prev s with
      | Some m =>
          m :: match s with
               | [] => []
               | c :: s' => scan r (Some c) s' (length (consumed m) - 1)
               end
      | None =>
          match s with
          | [] => []
          | c :: s' => scan r (Some c) s' 0
          end
      end
  end.

Definition finditer (r : regex) (s : text) : list rmatch := scan r None s 0.

Local Open Scope regex_scope.

(** [r'(\d+) objects'] *)
Definition objects_re : regex :=
  Grp (Plus is_digit) @@ Str (chars " objects").

(** [r'^\s*(\d+)\s+cells\s*$'], compiled with [re.MULTILINE] *)
Definition cells_re : regex :=
  Bol @@ Star is_space @@ Grp (Plus is_digit) @@ Plus is_space @@
  Str (chars "cells") @@ Star is_space @@ Eol.

(** [r'\band\s*=\s*(\d+)'] *)
Definition and_re : regex :=
  WordB @@ Str (chars "and") @@ Star is_space @@ Str (chars "=") @@
  Star is_space @@ Grp (Plus is_digit).

Local Close Scope regex_scope.

(** ** The cell-type registry ([FF_TYPES], from discussion #4124) *)

Local Open Scope string_scope.

Definition FF_TYPES : list string := [
  (* Word-level *)
  "$sr"; "$ff"; "$dff"; "$dffe"; "$dffsr"; "$dffsre";
  "$adff"; "$adffe"; "$aldff"; "$aldffe";
  "$sdff"; "$sdffe"; "$sdffce";
  "$dlatch"; "$adlatch"; "$dlatchsr";
  (* Gate-level DFF variants *)
  "$_DFF_N_"; "$_DFF_P_";
  "$_DFF_NN0_"; "$_DFF_NN1_"; "$_DFF_NP0_"; "$_DFF_NP1_";
  "$_DFF_PN0_"; "$_DFF_PN1_"; "$_DFF_PP0_"; "$_DFF_PP1_";
  "$_DFFE_NN_"; "$_DFFE_NP_"; "$_DFFE_PN_"; "$_DFFE_PP_";
  "$_DFFE_NN0N_"; "$_DFFE_NN0P_"; "$_DFFE_NN1N_"; "$_DFFE_NN1P_";
  "$_DFFE_NP0N_"; "$_DFFE_NP0P_"; "$_DFFE_NP1N_"; "$_DFFE_NP1P_";
  "$_DFFE_PN0N_"; "$_DFFE_PN0P_"; "$_DFFE_PN1N_"; "$_DFFE_PN1P_";
  "$_DFFE_PP0N_"; "$_DFFE_PP0P_"; "$_DFFE_PP1N_"; "$_DFFE_PP1P_";
  "$_DFFSR_NNN_"; "$_DFFSR_NNP_"; "$_DFFSR_NPN_"; "$_DFFSR_NPP_";
  "$_DFFSR_PNN_"; "$_DFFSR_PNP_"; "$_DFFSR_PPN_"; "$_DFFSR_PPP_";
  "$_DFFSRE_NNNN_"; "$_DFFSRE_NNNP_"; "$_DFFSRE_NNPN_"; "$_DFFSRE_NNPP_";
  "$_DFFSRE_NPNN_"; "$_DFFSRE_NPNP_"; "$_DFFSRE_NPPN_"; "$_DFFSRE_NPPP_";
  "$_DFFSRE_PNNN_"; "$_DFFSRE_PNNP_"; "$_DFFSRE_PNPN_"; "$_DFFSRE_PNPP_";
  "$_DFFSRE_PPNN_"; "$_DFFSRE_PPNP_"; "$_DFFSRE_PPPN_"; "$_DFFSRE_PPPP_";
  "$_SDFF_NN0_"; "$_SDFF_NN1_"; "$_SDFF_NP0_"; "$_SDFF_NP1_";
  "$_SDFF_PN0_"; "$_SDFF_PN1_"; "$_SDFF_PP0_"; "$_SDFF_PP1_";
  "$_SDFFE_NN0N_"; "$_SDFFE_NN0P_"; "$_SDFFE_NN1N_"; "$_SDFFE_NN1P_";
  "$_SDFFE_NP0N_"; "$_SDFFE_NP0P_"; "$_SDFFE_NP1N_"; "$_SDFFE_NP1P_";
  "$_SDFFE_PN0N_"; "$_SDFFE_PN0P_"; "$_SDFFE_PN1N_"; "$_SDFFE_PN1P_";
  "$_SDFFE_PP0N_"; "$_SDFFE_PP0P_"; "$_SDFFE_PP1N_"; "$_SDFFE_PP1P_";
  "$_SDFFCE_NN0N_"; "$_SDFFCE_NN0P_"; "$_SDFFCE_NN1N_"; "$_SDFFCE_NN1P_";
  "$_SDFFCE_NP0N_"; "$_SDFFCE_NP0P_"; "$_SDFFCE_NP1N_"; "$_SDFFCE_NP1P_";
  "$_SDFFCE_PN0N_"; "$_SDFFCE_PN0P_"; "$_SDFFCE_PN1N_"; "$_SDFFCE_PN1P_";
  "$_SDFFCE_PP0N_"; "$_SDFFCE_PP0P_"; "$_SDFFCE_PP1N_"; "$_SDFFCE_PP1P_";
  (* Latches *)
  "$_DLATCH_N_"; "$_DLATCH_P_";
  "$_DLATCH_NN0_"; "$_DLATCH_NN1_"; "$_DLATCH_NP0_"; "$_DLATCH_NP1_";
  "$_DLATCH_PN0_"; "$_DLATCH_PN1_"; "$_DLATCH_PP0_"; "$_DLATCH_PP1_";
  "$_DLATCHSR_NNN_"; "$_DLATCHSR_NNP_"; "$_DLATCHSR_NPN_"; "$_DLATCHSR_NPP_";
  "$_DLATCHSR_PNN_"; "$_DLATCHSR_PNP_"; "$_DLATCHSR_PPN_"; "$_DLATCHSR_PPP_";
  (* Async load *)
  "$_ALDFF_NN_"; "$_ALDFF_NP_"; "$_ALDFF_PN_"; "$_ALDFF_PP_";
  "$_ALDFFE_NNN_"; "$_ALDFFE_NNP_"; "$_ALDFFE_NPN_"; "$_ALDFFE_NPP_";
  "$_ALDFFE_PNN_"; "$_ALDFFE_PNP_"; "$_ALDFFE_PPN_"; "$_ALDFFE_PPP_";
  (* SR latches *)
  "$_SR_NN_"; "$_SR_NP_"; "$_SR_PN_"; "$_SR_PP_"
].

(** ** The synthesis script *)

(** [sep.join(items)] *)
Fixpoint join (sep : string) (items : list string) : string :=
  match items with
  | [] => ""
  | x :: rest =>
      match rest with
      | [] => x
      | _ :: _ => x ++ sep ++ join sep rest
      end
  end.

(** [" ".join(f"t:{t}" for t in FF_TYPES)] *)
Definition selector (t : string) : string := "t:" ++ t.

Definition ff_select : string := join " " (map selector FF_TYPES).

Definition nl : string := String newline EmptyString.

Definition synth_cmd (flow : string) : string :=
  if String.eqb flow "flatten" then "synth -flatten -noabc" else "synth -noabc".

Definition script (artifact_path flow : string) : string :=
  nl ++ "read_rtlil " ++ artifact_path ++ nl
     ++ synth_cmd flow ++ nl
     ++ "select -count " ++ ff_select ++ nl
     ++ "select -count *" ++ nl
     ++ "stat" ++ nl
     ++ "abc -script +strash;print_stats" ++ nl.

Local Close Scope string_scope.

(** ** Failures

    A computation of the source either returns a value or raises.  An
    exception that [main] does not catch ends the process with a traceback
    and the exit status 1; what the run had printed before is not part of
    [Raise].

    [Beyond] stands for the one thing the embedding does not follow: the
    source going on with a float that is not among the numbers of [float]
    below, an infinity or a zero with a minus sign.  Nothing is stated of
    such a run. *)

Inductive exn : Type :=
| ValueError
| TypeError
| ZeroDivisionError
| OverflowError.

Inductive outcome (A : Type) : Type :=
| Ok (a : A)
| Raise (e : exn)
| Beyond.

Arguments Ok {A} a.
Arguments Raise {A} e.
Arguments Beyond {A}.

Definition bind {A B : Type} (x : outcome A) (f : A -> outcome B)
  : outcome B :=
  match x with
  | Ok a => f a
  | Raise e => Raise e
  | Beyond => Beyond
  end.

Notation "x <- e ;; k" := (bind e (fun x => k))
  (at level 61, e at next level, right associativity).

(** ** Report extraction *)

Definition digit_value (c : ascii) : Z := Z.of_N (code c) - 48.

Definition decimal (ds : text) : Z :=
  fold_left (fun acc c => acc * 10 + digit_value c)%Z ds 0%Z.

(** The interpreter's limit on the number of digits of an integer that is
    converted from or to decimal text, [sys.get_int_max_str_digits()], at
    its default. *)
Definition int_max_str_digits : Z := 4300.

(** [int(s)] on a non-empty string of decimal digits, the only arguments
    the patterns let through; on any other argument the model raises.  A
    string of more digits than the limit, leading zeros counted, raises
    [ValueError]. *)
Definition int (s : text) : outcome Z :=
  match s with
  | [] => Raise ValueError
  | _ :: _ =>
      if forallb is_digit s
      then if (Z.of_nat (length s) <=? int_max_str_digits)%Z
           then Ok (decimal s)
           else Raise ValueError
      else Raise ValueError
  end.

(** [int(m.group(1))]; a group that did not take part is [None] in Python,
    on which [int] raises. *)
Definition int_group (m : rmatch) : outcome Z :=
  match group1 m with
  | Some s => int s
  | None => Raise TypeError
  end.

(** [re.findall] lists the empty string for a group that did not take
    part. *)
Definition group_text (m : rmatch) : text :=
  match group1 m with
  | Some s => s
  | None => []
  end.

Definition findall (r : regex) (s : text) : list text :=
  map group_text (finditer r s).

(** The loop [for m in re.finditer(...): abc_area += int(m.group(1))]. *)
Fixpoint sum_operands (ms : list rmatch) (abc_area : Z) : outcome Z :=
  match ms with
  | [] => Ok abc_area
  | m :: ms' => v <- int_group m ;; sum_operands ms' (abc_area + v)%Z
  end.

Module Counts.
Record t : Type := Mk {
  ff_count : Z;
  total_cells : Z;
  abc_area : Z
}.
End Counts.

(** Lines 84 to 95 of [get_counts]: the counts read off the tool's
    output. *)
Definition extract_counts (output : text) : outcome Counts.t :=
  let found := findall objects_re output in
  ff_count <-
    (if 1 <=? length found then int (nth 0 found []) else Ok 0%Z) ;;
  total_from_select <-
    (if 2 <=? length found then int (nth 1 found []) else Ok 0%Z) ;;
  total_cells <-
    match search cells_re output with
    | Some m => int_group m
    | None => Ok total_from_select
    end ;;
  abc_area <- sum_operands (finditer and_re output) 0%Z ;;
  Ok (Counts.Mk ff_count total_cells abc_area).

Section Driver.

(** The external tool: [run_yosys yosys_bin script] is the text of its
    standard output followed by its standard error. *)
Variable run_yosys : string -> string -> text.

Definition get_counts (yosys_bin artifact_path flow : string)
  : outcome (Counts.t * text) :=
  let output := run_yosys yosys_bin (script artifact_path flow) in
  c <- extract_counts output ;;
  Ok (c, output).

End Driver.

(** ** Running the tool ([run_yosys]) *)

(** What [subprocess.run(..., capture_output=True, text=True)] returns. *)
Module CompletedProcess.
Record t : Type := Mk {
  returncode : Z;
  stdout : text;
  stderr : text
}.
End CompletedProcess.

Module Tool.
(** [run_yosys], lines 59 to 65: the standard output followed by the
    standard error, whatever the return code. *)
Definition run_yosys (subprocess_run : list string -> CompletedProcess.t)
           (yosys_bin script : string) : text :=
  let result := subprocess_run [yosys_bin; "-p"%string; script] in
  CompletedProcess.stdout result ++ CompletedProcess.stderr result.
End Tool.

(** ** Floating-point numbers

    A [float] is a binary number [Fnum * 2 ^ Fexp].  The floats of the
    program are those of IEEE 754 binary64: zero, and the numbers between
    [2 ^ - 1074] and [2 ^ 1024] in magnitude with 53 significant bits, fewer
    below [2 ^ - 1022].  True division and multiplication round the exact
    result to the nearest of them, ties to the even one.  A quotient that
    rounds to [2 ^ 1024] or more raises [OverflowError]; a product that does
    is an infinity, and a result that rounds to zero from below zero is the
    negative zero: these two are [Beyond]. *)

Local Open Scope Z_scope.

Record float : Type := MkFloat {
  Fnum : Z;
  Fexp : Z
}.

(** [0.0] *)
Definition float_zero : float := MkFloat 0 0.

(** [100.0], the float of the integer in [x * 100] *)
Definition float_100 : float := MkFloat 100 0.

(** The integer nearest to [n / d], ties to even, for [0 < d]. *)
Definition round_half_even (n d : Z) : Z :=
  let q := n / d in
  match (2 * (n mod d) ?= d) with
  | Lt => q
  | Gt => q + 1
  | Eq => if Z.even q then q else q + 1
  end.

(** [n / d / 2 ^ k] as a fraction of integers. *)
Definition scale_num (n k : Z) : Z := n * 2 ^ Z.max 0 (- k).
Definition scale_den (d k : Z) : Z := d * 2 ^ Z.max 0 k.

(** The [e] with [2 ^ e <= n / d < 2 ^ (e + 1)], for [0 < n] and [0 < d]. *)
Definition ilog2_ratio (n d : Z) : Z :=
  let l := Z.log2 n - Z.log2 d in
  if scale_den d l <=? scale_num n l then l else l - 1.

(** The binary number nearest to [n / d], for [0 < d], among those with 53
    significant bits that are multiples of [2 ^ - 1074]; the sign of a zero
    and the upper end of the range are looked at by the operations. *)
Definition round_float (n d : Z) : float :=
  if n =? 0 then float_zero
  else
    let q := Z.max (ilog2_ratio (Z.abs n) d - 52) (- 1074) in
    let m := round_half_even (scale_num n q) (scale_den d q) in
    if m =? 0 then float_zero else MkFloat m q.

(** The [e] with [2 ^ e <= |x| < 2 ^ (e + 1)], for [x] other than zero. *)
Definition exponent (x : float) : Z := Z.log2 (Z.abs (Fnum x)) + Fexp x.

(** [x] is [2 ^ 1024] or more in magnitude. *)
Definition overflows (x : float) : bool :=
  negb (Fnum x =? 0) && (1024 <=? exponent x).

(** [a / b] on integers *)
Definition truediv (a b : Z) : outcome float :=
  if b =? 0 then Raise ZeroDivisionError
  else
    let n := if 0 <? b then a else - a in
    let x := round_float n (Z.abs b) in
    if overflows x then Raise OverflowError
    else if (Fnum x =? 0) && ((n <? 0) || ((a =? 0) && (b <? 0)))
         then Beyond
         else Ok x.

(** The exact product of two floats, rounded. *)
Definition fprod (x y : float) : float :=
  let e := Fexp x + Fexp y in
  round_float (scale_num (Fnum x * Fnum y) (- e)) (scale_den 1 (- e)).

(** [x * y] on floats *)
Definition fmul (x y : float) : outcome float :=
  let n := Fnum x * Fnum y in
  let p := fprod x y in
  if overflows p then Beyond
  else if (Fnum p =? 0)
          && ((n <? 0) || ((n =? 0) && ((Fnum x <? 0) || (Fnum y <? 0))))
       then Beyond
       else Ok p.

(** ** Formatting *)

Local Close Scope Z_scope.
Local Open Scope string_scope.

(** The decimal numeral of [n]: what [str(n)] and [f"{n}"] give when they
    return, see [format_int]. *)
Definition str (n : Z) : string := NilZero.string_of_int (Z.to_int n).

(** The numeral of [n] has no more digits than the limit, the sign not
    counted. *)
Definition printable (n : Z) : bool :=
  (Z.of_nat (String.length (str (Z.abs n))) <=? int_max_str_digits)%Z.

(** [f"{n}"] on an integer: its numeral, and [ValueError] when that has more
    digits than the limit. *)
Definition format_int (n : Z) : outcome string :=
  if printable n then Ok (str n) else Raise ValueError.

Definition digit_char (d : Z) : ascii := ascii_of_N (Z.to_N (48 + d)%Z).

(** The last [k] decimal digits of [n], padded with zeros. *)
Fixpoint fixed_digits (k : nat) (n : Z) : string :=
  match k with
  | O => ""
  | S k' =>
      fixed_digits k' (n / 10)%Z ++ String (digit_char (n mod 10)%Z) ""
  end.

(** [format(x, '.<prec>f')]: the decimal expansion of [x] rounded to [prec]
    places, ties to even, with the sign of [x]. *)
Definition format_f (prec : nat) (x : float) : string :=
  let unit := (10 ^ Z.of_nat prec)%Z in
  let k := round_half_even (scale_num (Z.abs (Fnum x) * unit) (- Fexp x))
                           (scale_den 1 (- Fexp x)) in
  (if (Fnum x <? 0)%Z then "-" else "")
    ++ str (k / unit)%Z
    ++ (match prec with
        | O => ""
        | S _ => "." ++ fixed_digits prec (k mod unit)%Z
        end).

Local Close Scope string_scope.

(** ** Metrics *)

(** One entry of [results]; the fields are the keys of the dictionary. *)
Record result : Type := MkResult {
  design : string;
  ff : Z;
  logic : Z;
  total : Z;
  ratio : float;
  abc_area : Z;
  ff_area : Z;
  total_area : Z;
  ff_area_pct : float
}.

(** Line 159: [ff / total if total > 0 else 0.0] *)
Definition ratio_of (ff total : Z) : outcome float :=
  if (total >? 0)%Z then truediv ff total else Ok float_zero.

(** Line 162: [(ff_area / total_area * 100) if total_area > 0 else 0.0] *)
Definition pct_of (ff_area total_area : Z) : outcome float :=
  if (total_area >? 0)%Z
  then q <- truediv ff_area total_area ;; fmul q float_100
  else Ok float_zero.

(** Lines 158 to 173 of [main]: the record of one design. *)
Definition metrics (tag : string) (c : Counts.t) (ff_size : Z)
  : outcome result :=
  let ff := Counts.ff_count c in
  let total := Counts.total_cells c in
  let abc_area := Counts.abc_area c in
  let logic := (total - ff)%Z in
  ratio <- ratio_of ff total ;;
  let ff_area := (ff * ff_size)%Z in
  let total_area := (abc_area + ff_area)%Z in
  ff_area_pct <- pct_of ff_area total_area ;;
  Ok (MkResult tag ff logic total ratio abc_area ff_area total_area
               ff_area_pct).

(** ** Rendering

    The text of a row is a function of the record ([csv_row],
    [human_row]); printing it converts the integers of the record in the
    order of the format string and raises when one of them is beyond the
    limit ([csv_line], [human_line]). *)

Local Open Scope string_scope.

Definition csv_header : string :=
  "design,ff,logic,total,ff_ratio,abc_area,ff_area,total_area,ff_area_pct".

Definition csv_row (r : result) : string :=
  design r ++ "," ++ str (ff r) ++ "," ++ str (logic r) ++ ","
    ++ str (total r) ++ "," ++ format_f 4 (ratio r) ++ ","
    ++ str (abc_area r) ++ "," ++ str (ff_area r) ++ ","
    ++ str (total_area r) ++ "," ++ format_f 2 (ff_area_pct r).

(** The lines printed in CSV mode. *)
Definition render_csv (results : list result) : list string :=
  csv_header :: map csv_row results.

(** [f"{x * 100:.1f}"]: the product is a float, or an infinity, which is
    printed by name. *)
Definition percent_text (x : float) : string :=
  let pct := fprod x float_100 in
  if overflows pct
  then (if (Fnum pct <? 0)%Z then "-inf" else "inf")
  else format_f 1 pct.

Definition human_row (r : result) : string :=
  design r ++ ": " ++ str (ff r) ++ "/" ++ str (total r) ++ " FF ("
    ++ percent_text (ratio r) ++ "%), area: " ++ str (abc_area r)
    ++ " logic + " ++ str (ff_area r) ++ " FF = " ++ str (total_area r)
    ++ " (" ++ format_f 1 (ff_area_pct r) ++ "% FF)".

(** The lines printed otherwise. *)
Definition render_human (ff_size : Z) (results : list result) : list string :=
  ("(ff_size=" ++ str ff_size ++ ")") :: map human_row results.

(** Printing a row, lines 182 and 186. *)
Definition csv_line (r : result) : outcome string :=
  _ <- format_int (ff r) ;;
  _ <- format_int (logic r) ;;
  _ <- format_int (total r) ;;
  _ <- format_int (abc_area r) ;;
  _ <- format_int (ff_area r) ;;
  _ <- format_int (total_area r) ;;
  Ok (csv_row r).

Definition human_line (r : result) : outcome string :=
  _ <- format_int (ff r) ;;
  _ <- format_int (total r) ;;
  _ <- format_int (abc_area r) ;;
  _ <- format_int (ff_area r) ;;
  _ <- format_int (total_area r) ;;
  Ok (human_row r).

(** The loops of lines 181 and 185. *)
Fixpoint print_rows (line : result -> outcome string) (rs : list result)
  : outcome (list string) :=
  match rs with
  | [] => Ok []
  | r :: rs' =>
      l <- line r ;;
      ls <- print_rows line rs' ;;
      Ok (l :: ls)
  end.

(** Lines 179 to 186: what is printed in either format. *)
Definition print_csv (results : list result) : outcome (list string) :=
  rows <- print_rows csv_line results ;;
  Ok (csv_header :: rows).

Definition print_human (ff_size : Z) (results : list result)
  : outcome (list string) :=
  h <- format_int ff_size ;;
  rows <- print_rows human_line results ;;
  Ok (("(ff_size=" ++ h ++ ")") :: rows).

(** ** The run ([main]) *)

(** The parsed command line. *)
Record args : Type := MkArgs {
  yosys : string;
  arg_design : option string;
  param : list string;
  flow : string;
  ff_size : Z;
  csv : bool;
  verbose : bool
}.

(** What a run leaves behind: the lines on both streams and the exit status
    of the process. *)
Record run_result : Type := MkRun {
  stdout : list string;
  stderr : list string;
  exit_code : Z
}.

(** The state of the loop over the designs. *)
Record loop_state : Type := MkLoop {
  out : list string;
  err : list string;
  results : list result
}.

Section Main.

(** The collaborators of [main]: the synthesis tool, the file system and
    the catalogue module [analyze].  Each is taken to return: a tool that
    cannot be started or whose output cannot be decoded, where
    [subprocess.run] raises, and a failure of the file system or of
    [analyze] are not followed. *)
Variable run_yosys : string -> string -> text.
Variable path_join : string -> string -> string.
Variable path_exists : string -> bool.
Variable params : Type.
Variable params_from_str : list string -> params.
Variable params_given : params -> bool.
Variable fmt_params : params -> string.
Variable discover_designs : string -> list string.

Variable a : args.

(** The body of the loop, lines 146 to 173. *)
Definition step (st : loop_state) (d : string * string)
  : outcome loop_state :=
  let artifact_path := path_join "artifacts" (snd d ++ ".il") in
  if negb (path_exists artifact_path)
  then Ok (MkLoop (out st)
                  (err st ++ ["Artifact not found: " ++ artifact_path])
                  (results st))
  else
    co <- get_counts run_yosys (yosys a) artifact_path (flow a) ;;
    let shown :=
      if verbose a
      then ["=== " ++ fst d ++ " ==="; string_of_list_ascii (snd co); ""]
      else [] in
    r <- metrics (snd d) (fst co) (ff_size a) ;;
    Ok (MkLoop (out st ++ shown) (err st) (results st ++ [r])).

Fixpoint loop (ds : list (string * string)) (st : loop_state)
  : outcome loop_state :=
  match ds with
  | [] => Ok st
  | d :: ds' => st' <- step st d ;; loop ds' st'
  end.

(** Lines 134 to 142: the designs to run, or [None] where the run stops
    because discovery found nothing. *)
Definition designs_to_run : option (list (string * string)) :=
  let ps := params_from_str (param a) in
  match arg_design a with
  | Some (String c d) =>
      let name := String c d in
      let tag :=
        if params_given ps then name ++ "_" ++ fmt_params ps else name in
      Some [(name, tag)]
  | _ =>
      match discover_designs "artifacts" with
      | [] => None
      | d :: ds => Some (map (fun x => (x, x)) (d :: ds))
      end
  end.

(** The lines of lines 179 to 186, and printing them. *)
Definition render (rs : list result) : list string :=
  if csv a then render_csv rs else render_human (ff_size a) rs.

Definition emit (rs : list result) : outcome (list string) :=
  if csv a then print_csv rs else print_human (ff_size a) rs.

Definition main : outcome run_result :=
  match designs_to_run with
  | None => Ok (MkRun [] ["No designs found in artifacts/"] 1)
  | Some ds =>
      st <- loop ds (MkLoop [] [] []) ;;
      match results st with
      | [] => Ok (MkRun (out st) (err st ++ ["No results"]) 1)
      | _ :: _ =>
          lines <- emit (results st) ;;
          Ok (MkRun (out st ++ lines) (err st) 0)
      end
  end.

End Main.

Local Close Scope string_scope.

(** * Vocabulary of the properties *)

(** A property of every character, by cases over the 256 of them. *)
Ltac ascii_cases c :=
  destruct c as [[] [] [] [] [] [] [] []]; vm_compute; try reflexivity;
  try discriminate; try (intros; discriminate).

(** ** Longest prefixes *)

Fixpoint take_while (p : ascii -> bool) (s : text) : text :=
  match s with
  | c :: s' => if p c then c :: take_while p s' else []
  | [] => []
  end.

Fixpoint drop_while (p : ascii -> bool) (s : text) : text :=
  match s with
  | c :: s' => if p c then drop_while p s' else s
  | [] => []
  end.

(** ** Views of a match *)

(** A match of the second part of a concatenation, seen from the start of
    the first part, which consumed [w] and left group 1 as [g]. *)
Definition after (w : text) (g : option text) (m : rmatch) : rmatch :=
  MkMatch (w ++ consumed m) (or_else (group1 m) g) (remaining m).

(** [rejects p r]: [r] never matches at a character of class [p]. *)
Definition rejects (p : ascii -> bool) (r : regex) : Prop :=
  forall prev c s, p c = true -> run r prev (c :: s) = [].

(** What the callers read off a match: group 1 and where the match ends. *)
Definition view (m : rmatch) : option text * text := (group1 m, remaining m).

Definition keep (g : option text) (v : option text * text)
  : option text * text :=
  (or_else (fst v) g, snd v).

(** ** The three patterns, read deterministically *)

(** [(\d+) objects] at the head of [s]: the digits and what follows the
    match. *)
Definition objects_at (s : text) : option (text * text) :=
  match take_while is_digit s with
  | [] => None
  | _ :: _ =>
      match strip (chars " objects") (drop_while is_digit s) with
      | Some rest => Some (take_while is_digit s, rest)
      | None => None
      end
  end.

(** [\band\s*=\s*(\d+)] at the head of [s]. *)
Definition and_at (prev : option ascii) (s : text) : option (text * text) :=
  if at_boundary prev s then
    match strip (chars "and") s with
    | Some s1 =>
        match strip (chars "=") (drop_while is_space s1) with
        | Some s3 =>
            let s4 := drop_while is_space s3 in
            match take_while is_digit s4 with
            | [] => None
            | _ :: _ => Some (take_while is_digit s4, drop_while is_digit s4)
            end
        | None => None
        end
    | None => None
    end
  else None.

(** [\s*$] at the head of [s]: some run of white space from here reaches
    the end of a line. *)
Fixpoint line_ends (s : text) : bool :=
  at_eol s
  || match s with
     | c :: s' => is_space c && line_ends s'
     | [] => false
     end.

(** [^\s*(\d+)\s+cells\s*$] at the head of [s]: the digits. *)
Definition cells_at (prev : option ascii) (s : text) : option text :=
  if at_bol prev then
    let s1 := drop_while is_space s in
    match take_while is_digit s1 with
    | [] => None
    | _ :: _ =>
        let s2 := drop_while is_digit s1 in
        match take_while is_space s2 with
        | [] => None
        | _ :: _ =>
            match strip (chars "cells") (drop_while is_space s2) with
            | Some s4 =>
                if line_ends s4 then Some (take_while is_digit s1) else None
            | None => None
            end
        end
    end
  else None.

(** ** Leftmost occurrences

    [occ prev m ds post]: the text [m], preceded by the character [prev] and
    followed by [post], is a match of the pattern at hand, with [ds] in its
    group. *)

Section Occurrences.

Variable occ : option ascii -> text -> text -> text -> Prop.

(** The text [s] reads [a], then the match [m], then [post]. *)
Definition occurs_at (prev : option ascii) (s a m ds post : text) : Prop :=
  s = a ++ m ++ post /\ occ (last_before prev a) m ds post.

Definition no_occ (prev : option ascii) (s : text) : Prop :=
  forall a m ds post, ~ occurs_at prev s a m ds post.

(** No occurrence starts before this one. *)
Definition first_occ (prev : option ascii) (s a m ds post : text) : Prop :=
  occurs_at prev s a m ds post
  /\ forall a' m' ds' post',
       occurs_at prev s a' m' ds' post' -> length a <= length a'.

(** The groups of the matches found from left to right, each one the
    first occurrence in what the previous one left. *)
Inductive successive : option ascii -> text -> list text -> Prop :=
| successive_nil prev s :
    no_occ prev s -> successive prev s []
| successive_cons prev s a m ds post l :
    first_occ prev s a m ds post ->
    successive (last_before prev (a ++ m)) post l ->
    successive prev s (ds :: l).

End Occurrences.

(** ** Occurrences of the three patterns *)

(** A non-empty string of decimal digits. *)
Definition all_digits (ds : text) : Prop :=
  ds <> [] /\ forallb is_digit ds = true.

(** A string of white space, possibly empty. *)
Definition all_spaces (w : text) : Prop := forallb is_space w = true.

(** The digits of a match are all the digits there are: the next character
    is not one. *)
Definition no_digit_ahead (post : text) : Prop :=
  forall c post', post = c :: post' -> is_digit c = false.

(** [<integer> objects] *)
Definition objects_occ (prev : option ascii) (m ds post : text) : Prop :=
  m = ds ++ chars " objects" /\ all_digits ds.

(** [and], white space, [=], white space, [<integer>], the [and] not
    directly after a word character. *)
Definition and_occ (prev : option ascii) (m ds post : text) : Prop :=
  exists w1 w2,
    m = chars "and" ++ w1 ++ chars "=" ++ w2 ++ ds
    /\ word_before prev = false
    /\ all_spaces w1 /\ all_spaces w2 /\ all_digits ds
    /\ no_digit_ahead post.

(** White space, [<integer>], white space, [cells], white space, from the
    start of a line to the end of a line; the white space may contain line
    feeds. *)
Definition cells_occ (prev : option ascii) (m ds post : text) : Prop :=
  exists w1 w2 w3,
    m = w1 ++ ds ++ w2 ++ chars "cells" ++ w3
    /\ at_bol prev = true
    /\ all_spaces w1 /\ all_digits ds
    /\ all_spaces w2 /\ w2 <> [] /\ all_spaces w3
    /\ at_eol post = true.

(** ** Values of matches *)

(** The value of the [i]-th match of a list, zero when there is none. *)
Definition nth_value (l : list text) (i : nat) : Z :=
  match nth_error l i with
  | Some ds => decimal ds
  | None => 0%Z
  end.

Definition sum_values (l : list text) : Z :=
  fold_right (fun ds acc => (decimal ds + acc)%Z) 0%Z l.

(** The total: the group of the [cells] match when there is one, the second
    [objects] match otherwise. *)
Definition total_of (output : text) : Z :=
  match search cells_re output with
  | Some m => decimal (group_text m)
  | None => nth_value (findall objects_re output) 1
  end.

(** ** The extraction claims in the words of the specification *)

(** The lines of a text: what stands between its line feeds. *)
Fixpoint split_lines (s : text) : list text :=
  match s with
  | [] => [[]]
  | c :: s' =>
      if Ascii.eqb c newline then [] :: split_lines s'
      else
        match split_lines s' with
        | l :: ls => (c :: l) :: ls
        | [] => [[c]]
        end
  end.

(** The lines joined by line feeds. *)
Fixpoint unlines (ls : list string) : text :=
  match ls with
  | [] => []
  | l :: ls' =>
      match ls' with
      | [] => chars l
      | _ :: _ => chars l ++ newline :: unlines ls'
      end
  end.

(** A line matching "optional white space, integer, white space, cells,
    optional white space", with [ds] the integer. *)
Definition line_matches (l ds : text) : Prop := cells_occ None l ds [].

(** C1 as stated: the integer of the first line matching the cells pattern
    when there is such a line, the second [objects] match otherwise. *)
Definition stated_total_policy (output : text) : Prop :=
  exists c,
    extract_counts output = Ok c
    /\ (forall ls1 l ls2 ds,
          split_lines output = ls1 ++ l :: ls2 ->
          line_matches l ds ->
          (forall l' ds', In l' ls1 -> ~ line_matches l' ds') ->
          Counts.total_cells c = decimal ds)
    /\ ((forall l ds, In l (split_lines output) -> ~ line_matches l ds) ->
        forall found,
          successive objects_occ None output found ->
          Counts.total_cells c = nth_value found 1).

(** C10 as stated: with more than one matching line, the integer of the
    first. *)
Definition stated_first_cells_line (output : text) : Prop :=
  forall ls1 l ls2 ds,
    split_lines output = ls1 ++ l :: ls2 ->
    line_matches l ds ->
    (forall l' ds', In l' ls1 -> ~ line_matches l' ds') ->
    (exists l2 ds2, In l2 ls2 /\ line_matches l2 ds2) ->
    exists c,
      extract_counts output = Ok c /\ Counts.total_cells c = decimal ds.

(** The text [and = <integer>] wherever it stands. *)
Definition literal_and_occ (prev : option ascii) (m ds post : text) : Prop :=
  m = chars "and = " ++ ds /\ all_digits ds /\ no_digit_ahead post.

(** C2 as stated: the sum over every occurrence of [and = <integer>]
    anywhere in the text. *)
Definition stated_abc_area (output : text) : Prop :=
  exists c,
    extract_counts output = Ok c
    /\ forall l,
         successive literal_and_occ None output l ->
         Counts.abc_area c = sum_values l.

(** C8 as stated: for every text the count is returned, and it is the
    integer of the first [<integer> objects] match, or zero. *)
Definition stated_first_objects (output : text) : Prop :=
  exists c,
    extract_counts output = Ok c
    /\ (forall a m ds post,
          first_occ objects_occ None output a m ds post ->
          Counts.ff_count c = decimal ds)
    /\ (no_occ objects_occ None output -> Counts.ff_count c = 0%Z).

(** ** The integers that are converted *)

(** The digit strings that [get_counts] hands to [int]: the first two
    [objects] matches, the [cells] match, every [and] match. *)
Definition converted (output : text) : list text :=
  firstn 2 (findall objects_re output)
    ++ match search cells_re output with
       | Some m => [group_text m]
       | None => []
       end
    ++ findall and_re output.

Definition within_limit (ds : text) : bool :=
  (Z.of_nat (length ds) <=? int_max_str_digits)%Z.

(** None of the integers converted is beyond the limit. *)
Definition readable (output : text) : bool :=
  forallb within_limit (converted output).

(** No stretch of digits of the text is longer than the limit. *)
Definition digits_bounded (s : text) : Prop :=
  forall x ds y,
    s = x ++ ds ++ y -> forallb is_digit ds = true ->
    (Z.of_nat (length ds) <= int_max_str_digits)%Z.

(** ** Values of the metrics *)

(** C3 as stated: for every triple and weight the record is produced, with
    these integer fields. *)
Definition stated_integer_fields (tag : string) (c : Counts.t) (ff_size : Z)
  : Prop :=
  exists r,
    metrics tag c ff_size = Ok r
    /\ logic r = (Counts.total_cells c - Counts.ff_count c)%Z
    /\ ((Counts.ff_count c > Counts.total_cells c)%Z -> (logic r < 0)%Z)
    /\ ff_area r = (Counts.ff_count c * ff_size)%Z
    /\ total_area r = (Counts.abc_area c + ff_area r)%Z.

(** The integers of a record can all be printed. *)
Definition printable_record (r : result) : bool :=
  printable (ff r) && printable (logic r) && printable (total r)
  && printable (abc_area r) && printable (ff_area r)
  && printable (total_area r).

(** The rational number a float stands for. *)
Definition float_value (x : float) : Q :=
  (inject_Z (Fnum x) * Qpower 2 (Fexp x))%Q.

(** [0 <= x <= b], on the representation. *)
Definition in_range (x : float) (b : Z) : Prop :=
  (Fexp x <= 0 /\ 0 <= Fnum x <= b * 2 ^ (- Fexp x))%Z.

(** ** Splitting strings *)

Local Open Scope string_scope.

(** [s.split(sep)] for a separator of one character. *)
Fixpoint split_on (sep : ascii) (s : string) : list string :=
  match s with
  | "" => [""]
  | String c s' =>
      if Ascii.eqb c sep then "" :: split_on sep s'
      else
        match split_on sep s' with
        | x :: xs => String c x :: xs
        | [] => [String c ""]
        end
  end.

(** [sep] does not occur in [s]. *)
Fixpoint free_of (sep : ascii) (s : string) : bool :=
  match s with
  | "" => true
  | String c s' => negb (Ascii.eqb c sep) && free_of sep s'
  end.

Local Close Scope string_scope.

(** ** Counts and records as values *)

(** The counts of a report and the record of a design, as values. *)
Definition counts_of (output : text) : Counts.t :=
  Counts.Mk (nth_value (findall objects_re output) 0)
            (total_of output)
            (sum_values (findall and_re output)).

(** The exit status of the process: that of [sys.exit], or 1 after an
    exception that nothing catches. *)
Definition exit_status (o : outcome run_result) : option Z :=
  match o with
  | Ok run => Some (exit_code run)
  | Raise _ => Some 1%Z
  | Beyond => None
  end.

(** ** The run, design by design *)

Section RunSpec.

Variable run_yosys : string -> string -> text.
Variable path_join : string -> string -> string.
Variable path_exists : string -> bool.
Variable params : Type.
Variable params_from_str : list string -> params.
Variable params_given : params -> bool.
Variable fmt_params : params -> string.
Variable discover_designs : string -> list string.
Variable a : args.

(** The artifact of a design, whether it is there, and what the run makes
    of it. *)
Definition artifact_of (d : string * string) : string :=
  path_join "artifacts" (snd d ++ ".il").

Definition present (d : string * string) : bool :=
  path_exists (artifact_of d).

Definition absent (d : string * string) : bool := negb (present d).

Definition missing_message (d : string * string) : string :=
  ("Artifact not found: " ++ artifact_of d)%string.

Definition output_of (d : string * string) : text :=
  run_yosys (yosys a) (script (artifact_of d) (flow a)).

(** Lines 151 to 173 for a design whose artifact exists: its record. *)
Definition processed (d : string * string) : outcome result :=
  co <- get_counts run_yosys (yosys a) (artifact_of d) (flow a) ;;
  metrics (snd d) (fst co) (ff_size a).

Definition shown_of (d : string * string) : list string :=
  if verbose a
  then [("=== " ++ fst d ++ " ===")%string;
        string_of_list_ascii (output_of d); ""%string]
  else [].

(** The designs the loop runs over; none when discovery found nothing. *)
Definition designs : list (string * string) :=
  match designs_to_run params_from_str params_given fmt_params
                       discover_designs a with
  | Some ds => ds
  | None => []
  end.

(** The designs whose artifact exists, and their records [rs]. *)
Definition recorded (rs : list result) : Prop :=
  Forall2 (fun d r => processed d = Ok r) (filter present designs) rs.

(** The records of the designs of [ds] whose artifact exists, in order, or
    the first failure among them. *)
Fixpoint records_of (ds : list (string * string)) : outcome (list result) :=
  match ds with
  | [] => Ok []
  | d :: ds' =>
      if present d
      then r <- processed d ;; rs <- records_of ds' ;; Ok (r :: rs)
      else records_of ds'
  end.

(** C5 as stated, for the exit code: 0 when at least one record was
    produced, that is once the loop has come through some of the designs,
    [ds1], and holds a record. *)
Definition stated_exit_codes : Prop :=
  forall ds1 ds2 st,
    designs = (ds1 ++ ds2)%list ->
    loop run_yosys path_join path_exists a ds1 (MkLoop [] [] []) = Ok st ->
    results st <> [] ->
    exit_status (main run_yosys path_join path_exists params_from_str
                      params_given fmt_params discover_designs a)
    = Some 0%Z.

End RunSpec.

Local Open Scope string_scope.

(** The report of the end-to-end scenario. *)
Definition scenario : text :=
  unlines ["42 objects"; "137 objects"; "   130 cells";
           "and = 50"; "and = 50"].

Local Close Scope string_scope.

(** ** Further vocabulary *)

(** No decimal digit occurs in [s]. *)
Definition digit_free (s : text) : Prop :=
  forallb (fun c => negb (is_digit c)) s = true.

(** The text ends with a digit. *)
Definition ends_with_digit (s : text) : bool :=
  match last_before None s with
  | Some c => is_digit c
  | None => false
  end.

(** The command line with another [--param], and with another [--verbose]. *)
Definition with_param (a : args) (p : list string) : args :=
  MkArgs (yosys a) (arg_design a) p (flow a) (ff_size a) (csv a) (verbose a).

Definition with_verbose (a : args) (v : bool) : args :=
  MkArgs (yosys a) (arg_design a) (param a) (flow a) (ff_size a) (csv a) v.

(** The three lines [--verbose] prints for a design. *)
Definition dump_of (run_yosys : string -> string -> text)
           (path_join : string -> string -> string) (a : args)
           (d : string * string) : list string :=
  [("=== " ++ fst d ++ " ===")%string;
   string_of_list_ascii (output_of run_yosys path_join a d); ""%string].

Local Open Scope string_scope.

(** [s.count(sep)] for a separator of one character. *)
Fixpoint count_char (sep : ascii) (s : string) : nat :=
  match s with
  | "" => 0
  | String c s' => (if Ascii.eqb c sep then 1 else 0) + count_char sep s'
  end.

Local Close Scope string_scope.

(** * Properties *)

(** ** Character classes *)

Lemma digit_not_space (c : ascii) : is_digit c = true -> is_space c = false.
Proof. ascii_cases c. Qed.

Lemma space_not_digit (c : ascii) : is_space c = true -> is_digit c = false.
Proof. ascii_cases c. Qed.

Lemma digit_is_word (c : ascii) : is_digit c = true -> is_word c = true.
Proof. ascii_cases c. Qed.

Lemma digit_not_blank (c : ascii) :
  is_digit c = true -> Ascii.eqb " " c = false.
Proof. ascii_cases c. Qed.

Lemma space_not_c (c : ascii) : is_space c = true -> Ascii.eqb "c" c = false.
Proof. ascii_cases c. Qed.

Lemma space_not_equals (c : ascii) :
  is_space c = true -> Ascii.eqb "=" c = false.
Proof. ascii_cases c. Qed.

Lemma newline_is_space : is_space newline = true.
Proof. reflexivity. Qed.

(** ** Longest prefixes *)

Lemma take_drop_while (p : ascii -> bool) (s : text) :
  take_while p s ++ drop_while p s = s.
Proof.
  induction s as [|c s IH]; simpl; [reflexivity|].
  destruct (p c); simpl; [now rewrite IH | reflexivity].
Qed.

Lemma take_while_all (p : ascii -> bool) (s : text) :
  forallb p (take_while p s) = true.
Proof.
  induction s as [|c s IH]; simpl; [reflexivity|].
  destruct (p c) eqn:E; simpl; [now rewrite E | reflexivity].
Qed.

Lemma drop_while_head (p : ascii -> bool) (s : text) (c : ascii) (r : text) :
  drop_while p s = c :: r -> p c = false.
Proof.
  induction s as [|x s IH]; simpl; [discriminate|].
  destruct (p x) eqn:E; [exact IH|].
  intros H; injection H as -> _; exact E.
Qed.

(** A run of [p] followed by something that does not start with [p] is the
    longest run. *)
Lemma take_while_app (p : ascii -> bool) (w r : text) :
  forallb p w = true ->
  (forall c r', r = c :: r' -> p c = false) ->
  take_while p (w ++ r) = w /\ drop_while p (w ++ r) = r.
Proof.
  intros Hw Hr. induction w as [|x w IH]; simpl in *.
  - destruct r as [|c r']; [now split|].
    simpl. rewrite (Hr c r' eq_refl). now split.
  - apply andb_prop in Hw as [Hx Hw]. rewrite Hx.
    destruct (IH Hw) as [-> ->]. now split.
Qed.

Lemma strip_app (w r : text) : strip w (w ++ r) = Some r.
Proof.
  induction w as [|a w IH]; simpl; [reflexivity|].
  now rewrite Ascii.eqb_refl.
Qed.

Lemma strip_some (w s r : text) : strip w s = Some r -> s = w ++ r.
Proof.
  revert s. induction w as [|a w IH]; intros s; simpl.
  - now intros [= ->].
  - destruct s as [|b s]; [discriminate|].
    destruct (Ascii.eqb a b) eqn:E; [|discriminate].
    apply Ascii.eqb_eq in E as ->. intros H. now rewrite (IH _ H).
Qed.

(** ** The matcher *)

(** Every match splits the text it was tried on. *)
Lemma star_sound (p : ascii -> bool) (s : text) (ms : text * text) :
  In ms (star p s) -> s = fst ms ++ snd ms.
Proof.
  revert ms. induction s as [|c s IH]; intros ms; simpl.
  - intros [<-|[]]. reflexivity.
  - destruct (p c).
    + rewrite in_app_iff, in_map_iff.
      intros [[x [<- Hx]]|[<-|[]]]; simpl; [|reflexivity].
      f_equal. exact (IH _ Hx).
    + intros [<-|[]]. reflexivity.
Qed.

Lemma plus_sound (p : ascii -> bool) (s : text) (ms : text * text) :
  In ms (plus p s) -> s = fst ms ++ snd ms.
Proof.
  destruct s as [|c s]; simpl; [intros []|].
  destruct (p c); [|intros []].
  rewrite in_map_iff. intros [x [<- Hx]]. simpl.
  f_equal. exact (star_sound _ _ _ Hx).
Qed.

Lemma run_sound (r : regex) :
  forall prev s m, In m (run r prev s) -> s = consumed m ++ remaining m.
Proof.
  induction r as [w|p|p| | | |r IH|r1 IH1 r2 IH2]; intros prev s m; simpl.
  - destruct (strip w s) as [s'|] eqn:E; [|intros []].
    intros [<-|[]]. simpl. now apply strip_some.
  - rewrite in_map_iff. intros [x [<- Hx]]. simpl. now apply star_sound with p.
  - rewrite in_map_iff. intros [x [<- Hx]]. simpl. now apply plus_sound with p.
  - destruct (at_bol prev); [|intros []]. intros [<-|[]]. reflexivity.
  - destruct (at_eol s); [|intros []]. intros [<-|[]]. reflexivity.
  - destruct (at_boundary prev s); [|intros []]. intros [<-|[]]. reflexivity.
  - rewrite in_map_iff. intros [x [<- Hx]]. simpl. now apply IH with prev.
  - rewrite in_flat_map. intros [m1 [H1 H2]].
    apply in_map_iff in H2 as [m2 [<- H2]]. simpl.
    rewrite <- app_assoc, <- (IH2 _ _ _ H2). now apply IH1 with prev.
Qed.

Lemma match_at_sound (r : regex) (prev : option ascii) (s : text) (m : rmatch) :
  match_at r prev s = Some m -> s = consumed m ++ remaining m.
Proof.
  unfold match_at. intros H. apply run_sound with r prev.
  destruct (run r prev s); [discriminate|].
  injection H as ->. now left.
Qed.

Lemma run_cat (r1 r2 : regex) (prev : option ascii) (s : text) :
  run (Cat r1 r2) prev s =
  flat_map (fun m1 =>
              map (after (consumed m1) (group1 m1))
                  (run r2 (last_before prev (consumed m1)) (remaining m1)))
           (run r1 prev s).
Proof. reflexivity. Qed.

Lemma flat_map_map {A B C : Type} (f : B -> list C) (g : A -> B) (l : list A) :
  flat_map f (map g l) = flat_map (fun x => f (g x)) l.
Proof.
  induction l as [|x l IH]; simpl; [reflexivity|]. now rewrite IH.
Qed.

Lemma rejects_str (p : ascii -> bool) (a : ascii) (w : text) :
  (forall c, p c = true -> Ascii.eqb a c = false) -> rejects p (Str (a :: w)).
Proof.
  intros H prev c s Hc. simpl. now rewrite (H c Hc).
Qed.

Lemma rejects_plus (p q : ascii -> bool) :
  (forall c, p c = true -> q c = false) -> rejects p (Plus q).
Proof.
  intros H prev c s Hc. simpl. now rewrite (H c Hc).
Qed.

Lemma rejects_grp (p : ascii -> bool) (r : regex) :
  rejects p r -> rejects p (Grp r).
Proof.
  intros H prev c s Hc. simpl. now rewrite (H prev c s Hc).
Qed.

Lemma rejects_cat (p : ascii -> bool) (r1 r2 : regex) :
  rejects p r1 -> rejects p (Cat r1 r2).
Proof.
  intros H prev c s Hc. simpl. now rewrite (H prev c s Hc).
Qed.

(** Backtracking into a greedy [class*] is futile when what follows rejects
    the class: only the longest run can be continued. *)
Lemma star_longest {X : Type} (p : ascii -> bool) (F : text -> text -> list X) :
  (forall w c s, p c = true -> F w (c :: s) = []) ->
  forall s,
    flat_map (fun ms => F (fst ms) (snd ms)) (star p s)
    = F (take_while p s) (drop_while p s).
Proof.
  intros HF s. revert F HF.
  induction s as [|c s IH]; intros F HF; simpl.
  - now rewrite app_nil_r.
  - destruct (p c) eqn:E; simpl.
    + rewrite flat_map_app, flat_map_map. simpl.
      rewrite (HF [] c s E), !app_nil_r.
      apply (IH (fun w r => F (c :: w) r)).
      intros w c' s' Hc'. now apply HF.
    + now rewrite app_nil_r.
Qed.

Lemma plus_longest {X : Type} (p : ascii -> bool) (F : text -> text -> list X) :
  (forall w c s, p c = true -> F w (c :: s) = []) ->
  forall s,
    flat_map (fun ms => F (fst ms) (snd ms)) (plus p s)
    = match take_while p s with
      | [] => []
      | _ :: _ => F (take_while p s) (drop_while p s)
      end.
Proof.
  intros HF [|c s]; simpl; [reflexivity|].
  destruct (p c) eqn:E; [|reflexivity].
  rewrite flat_map_map. simpl.
  apply (star_longest p (fun w r => F (c :: w) r)).
  intros w c' s' Hc'. now apply HF.
Qed.

Lemma run_star_cat (p : ascii -> bool) (r : regex) (prev : option ascii)
      (s : text) :
  rejects p r ->
  run (Cat (Star p) r) prev s
  = map (after (take_while p s) None)
        (run r (last_before prev (take_while p s)) (drop_while p s)).
Proof.
  intros Hr. rewrite run_cat. simpl run at 2. rewrite flat_map_map. simpl.
  apply (star_longest p
           (fun w r' => map (after w None) (run r (last_before prev w) r'))).
  intros w c s' Hc. now rewrite (Hr _ c s' Hc).
Qed.

Lemma run_plus_cat (p : ascii -> bool) (r : regex) (prev : option ascii)
      (s : text) :
  rejects p r ->
  run (Cat (Plus p) r) prev s
  = match take_while p s with
    | [] => []
    | _ :: _ =>
        map (after (take_while p s) None)
            (run r (last_before prev (take_while p s)) (drop_while p s))
    end.
Proof.
  intros Hr. rewrite run_cat. simpl run at 2. rewrite flat_map_map. simpl.
  apply (plus_longest p
           (fun w r' => map (after w None) (run r (last_before prev w) r'))).
  intros w c s' Hc. now rewrite (Hr _ c s' Hc).
Qed.

Lemma run_group_cat (p : ascii -> bool) (r : regex) (prev : option ascii)
      (s : text) :
  rejects p r ->
  run (Cat (Grp (Plus p)) r) prev s
  = match take_while p s with
    | [] => []
    | _ :: _ =>
        map (after (take_while p s) (Some (take_while p s)))
            (run r (last_before prev (take_while p s)) (drop_while p s))
    end.
Proof.
  intros Hr. rewrite run_cat. simpl run at 2. rewrite !flat_map_map. simpl.
  apply (plus_longest p
           (fun w r' =>
              map (after w (Some w)) (run r (last_before prev w) r'))).
  intros w c s' Hc. now rewrite (Hr _ c s' Hc).
Qed.

Lemma run_str (w : text) (prev : option ascii) (s : text) :
  run (Str w) prev s
  = match strip w s with
    | Some s' => [MkMatch w None s']
    | None => []
    end.
Proof. reflexivity. Qed.

Lemma run_str_cat (w : text) (r : regex) (prev : option ascii) (s : text) :
  run (Cat (Str w) r) prev s
  = match strip w s with
    | Some s' => map (after w None) (run r (last_before prev w) s')
    | None => []
    end.
Proof.
  rewrite run_cat. simpl run at 2.
  destruct (strip w s); simpl; [apply app_nil_r | reflexivity].
Qed.

Lemma run_bol_cat (r : regex) (prev : option ascii) (s : text) :
  run (Cat Bol r) prev s
  = if at_bol prev then map (after [] None) (run r prev s) else [].
Proof.
  rewrite run_cat. simpl run at 2.
  destruct (at_bol prev); simpl; [apply app_nil_r | reflexivity].
Qed.

Lemma run_wordb_cat (r : regex) (prev : option ascii) (s : text) :
  run (Cat WordB r) prev s
  = if at_boundary prev s then map (after [] None) (run r prev s) else [].
Proof.
  rewrite run_cat. simpl run at 2.
  destruct (at_boundary prev s); simpl; [apply app_nil_r | reflexivity].
Qed.

Lemma hd_error_map {A B : Type} (f : A -> B) (l : list A) :
  hd_error (map f l) = option_map f (hd_error l).
Proof. now destruct l. Qed.

Lemma view_after (w : text) (g : option text) (l : list rmatch) :
  map view (map (after w g) l) = map (keep g) (map view l).
Proof. rewrite !map_map. reflexivity. Qed.

Lemma keep_none (l : list (option text * text)) : map (keep None) l = l.
Proof.
  rewrite <- (map_id l) at 2. apply map_ext.
  intros [[x|] r]; reflexivity.
Qed.

Lemma star_head (p : ascii -> bool) (s : text) :
  hd_error (star p s) = Some (take_while p s, drop_while p s).
Proof.
  induction s as [|c s IH]; simpl; [reflexivity|].
  destruct (p c); [|reflexivity].
  destruct (star p s) as [|x l]; [discriminate|].
  simpl in *. injection IH as ->. reflexivity.
Qed.

(** A greedy group at the end of a pattern takes the longest run. *)
Lemma view_group_plus (p : ascii -> bool) (prev : option ascii) (s : text) :
  hd_error (map view (run (Grp (Plus p)) prev s))
  = match take_while p s with
    | [] => None
    | _ :: _ => Some (Some (take_while p s), drop_while p s)
    end.
Proof.
  simpl. rewrite !map_map. unfold view. simpl.
  destruct s as [|c s]; simpl; [reflexivity|].
  destruct (p c); [|reflexivity].
  rewrite map_map. simpl. rewrite hd_error_map, star_head. reflexivity.
Qed.

(** ** The three patterns, read deterministically *)

Lemma match_at_objects (prev : option ascii) (s : text) :
  match_at objects_re prev s
  = match objects_at s with
    | Some (ds, rest) =>
        Some (MkMatch (ds ++ chars " objects") (Some ds) rest)
    | None => None
    end.
Proof.
  unfold match_at, objects_re, objects_at.
  rewrite run_group_cat
    by (apply rejects_str; exact digit_not_blank).
  destruct (take_while is_digit s) as [|d ds]; [reflexivity|].
  rewrite run_str.
  destruct (strip (chars " objects") (drop_while is_digit s)); reflexivity.
Qed.

Lemma match_at_and (prev : option ascii) (s : text) :
  option_map view (match_at and_re prev s)
  = match and_at prev s with
    | Some (ds, rest) => Some (Some ds, rest)
    | None => None
    end.
Proof.
  unfold match_at, and_re, and_at.
  rewrite <- hd_error_map, run_wordb_cat.
  destruct (at_boundary prev s); [|reflexivity].
  rewrite view_after, keep_none, run_str_cat.
  destruct (strip (chars "and") s) as [s1|]; [|reflexivity].
  rewrite view_after, keep_none.
  rewrite run_star_cat
    by (apply rejects_cat, rejects_str; exact space_not_equals).
  rewrite view_after, keep_none, run_str_cat.
  destruct (strip (chars "=") (drop_while is_space s1)) as [s3|];
    [|reflexivity].
  rewrite view_after, keep_none.
  rewrite run_star_cat
    by (apply rejects_grp, rejects_plus; exact space_not_digit).
  rewrite view_after, keep_none, view_group_plus.
  destruct (take_while is_digit (drop_while is_space s3)); reflexivity.
Qed.

Lemma existsb_on_map {A B : Type} (f : B -> bool) (g : A -> B) (l : list A) :
  existsb f (map g l) = existsb (fun x => f (g x)) l.
Proof.
  induction l as [|x l IH]; simpl; [reflexivity|]. now rewrite IH.
Qed.

Lemma existsb_star_eol (s : text) :
  existsb (fun ms => at_eol (snd ms)) (star is_space s) = line_ends s.
Proof.
  induction s as [|c s IH]; [reflexivity|].
  cbn [star line_ends]. destruct (is_space c); cbn [andb].
  - rewrite existsb_app, existsb_on_map. cbn [existsb snd].
    rewrite orb_false_r. etransitivity; [apply orb_comm|].
    f_equal. exact IH.
  - cbn [existsb snd]. reflexivity.
Qed.

Lemma hd_guarded {A : Type} (b : A -> bool) (f : A -> rmatch) (l : list A) :
  (forall x, group1 (f x) = None) ->
  hd_error (map group1 (flat_map (fun x => if b x then [f x] else []) l))
  = if existsb b l then Some None else None.
Proof.
  intros Hf. induction l as [|x l IH]; [reflexivity|].
  simpl. destruct (b x); simpl; [now rewrite Hf | exact IH].
Qed.

Lemma group_line_end (prev : option ascii) (s : text) :
  hd_error (map group1 (run (Cat (Star is_space) Eol) prev s))
  = if line_ends s then Some None else None.
Proof.
  rewrite run_cat. simpl run at 2. rewrite flat_map_map.
  rewrite <- existsb_star_eol.
  rewrite <- (hd_guarded (fun ms => at_eol (snd ms))
                (fun ms => after (fst ms) None (MkMatch [] None (snd ms))))
    by reflexivity.
  f_equal. f_equal. apply flat_map_ext. intros [w r]. simpl.
  destruct (at_eol r); reflexivity.
Qed.

Lemma group_after (w : text) (g : option text) (l : list rmatch) :
  hd_error (map group1 (map (after w g) l))
  = option_map (fun x => or_else x g) (hd_error (map group1 l)).
Proof. rewrite <- hd_error_map, !map_map. reflexivity. Qed.

Lemma match_at_cells (prev : option ascii) (s : text) :
  option_map group1 (match_at cells_re prev s)
  = option_map Some (cells_at prev s).
Proof.
  unfold match_at, cells_re, cells_at.
  rewrite <- hd_error_map, run_bol_cat.
  destruct (at_bol prev); [|reflexivity].
  rewrite group_after.
  rewrite run_star_cat
    by (apply rejects_cat, rejects_grp, rejects_plus; exact space_not_digit).
  rewrite group_after.
  rewrite run_group_cat
    by (apply rejects_cat, rejects_plus; exact digit_not_space).
  cbv zeta.
  destruct (take_while is_digit (drop_while is_space s)) as [|d ds] eqn:Eds;
    [reflexivity|].
  rewrite group_after.
  rewrite run_plus_cat
    by (apply rejects_cat, rejects_str; exact space_not_c).
  destruct (take_while is_space (drop_while is_digit (drop_while is_space s)))
    as [|w ws]; [reflexivity|].
  rewrite group_after, run_str_cat.
  destruct (strip (chars "cells")
              (drop_while is_space
                 (drop_while is_digit (drop_while is_space s))))
    as [s4|]; [|reflexivity].
  rewrite group_after, group_line_end.
  destruct (line_ends s4); reflexivity.
Qed.

(** ** Scanning a text *)

Lemma last_before_app (prev : option ascii) (a b : text) :
  last_before prev (a ++ b) = last_before (last_before prev a) b.
Proof. apply fold_left_app. Qed.

Lemma scan_zero (r : regex) (prev : option ascii) (s : text) :
  scan r prev s 0
  = match match_at r prev s with
    | Some m =>
        m :: match s with
             | [] => []
             | c :: s' => scan r (Some c) s' (length (consumed m) - 1)
             end
    | None =>
        match s with
        | [] => []
        | c :: s' => scan r (Some c) s' 0
        end
    end.
Proof. destruct s; reflexivity. Qed.

Lemma scan_skip (r : regex) (w : text) :
  forall prev s,
    scan r prev (w ++ s) (length w) = scan r (last_before prev w) s 0.
Proof.
  induction w as [|c w IH]; intros prev s; [reflexivity|].
  simpl. apply IH.
Qed.

(** After a non-empty match the scan resumes where the match ended. *)
Lemma scan_hit (r : regex) (prev : option ascii) (s : text) (m : rmatch) :
  match_at r prev s = Some m ->
  consumed m <> [] ->
  scan r prev s 0
  = m :: scan r (last_before prev (consumed m)) (remaining m) 0.
Proof.
  intros Hm Hne. rewrite scan_zero, Hm.
  pose proof (match_at_sound _ _ _ Hm) as Hs.
  destruct (consumed m) as [|c w] eqn:Ec; [contradiction|].
  rewrite Hs. simpl. rewrite Nat.sub_0_r. f_equal. apply scan_skip.
Qed.

Lemma app_same_length {A : Type} (a a' x y : list A) :
  a ++ x = a' ++ y -> length a = length a' -> a = a' /\ x = y.
Proof.
  revert a'. induction a as [|h a IH]; intros [|h' a'] H L;
    try discriminate; simpl in *.
  - now split.
  - injection H as -> H. injection L as L.
    destruct (IH _ H L) as [-> ->]. now split.
Qed.

(** *** Leftmost occurrences
    [occ prev m ds post]: the text [m], preceded by the character [prev] and
    followed by [post], is a match of the pattern at hand, with [ds] in its
    group. *)

Section Leftmost.

Variable occ : option ascii -> text -> text -> text -> Prop.

Lemma occurs_at_cons (prev : option ascii) (c : ascii) (s a m ds post : text) :
  occurs_at occ (Some c) s a m ds post
  <-> occurs_at occ prev (c :: s) (c :: a) m ds post.
Proof.
  unfold occurs_at. simpl. split; intros [H1 H2]; split; trivial.
  - now rewrite H1.
  - now injection H1.
Qed.

Lemma no_occ_cons (prev : option ascii) (c : ascii) (s : text) :
  (forall m ds post, ~ occurs_at occ prev (c :: s) [] m ds post) ->
  no_occ occ (Some c) s -> no_occ occ prev (c :: s).
Proof.
  intros H0 Hn [|x a] m ds post H; [now apply (H0 m ds post)|].
  assert (x = c) as -> by (destruct H as [H _]; now injection H).
  apply (Hn a m ds post). now apply (occurs_at_cons prev).
Qed.

Lemma first_occ_cons (prev : option ascii) (c : ascii) (s a m ds post : text) :
  (forall m' ds' post', ~ occurs_at occ prev (c :: s) [] m' ds' post') ->
  first_occ occ (Some c) s a m ds post ->
  first_occ occ prev (c :: s) (c :: a) m ds post.
Proof.
  intros H0 [H1 H2]. split; [now apply occurs_at_cons|].
  intros [|x a'] m' ds' post' H; [now destruct (H0 m' ds' post')|].
  assert (x = c) as -> by (destruct H as [H _]; now injection H).
  apply occurs_at_cons in H. simpl. apply le_n_S. now apply H2 in H.
Qed.

Lemma first_occ_here (prev : option ascii) (s m ds post : text) :
  occurs_at occ prev s [] m ds post -> first_occ occ prev s [] m ds post.
Proof. intros H. split; [exact H|]. intros. simpl. lia. Qed.

Variable r : regex.

(** The matcher finds a match wherever there is an occurrence. *)
Hypothesis complete :
  forall prev m ds post,
    occ prev m ds post -> match_at r prev (m ++ post) <> None.

Lemma miss_here (prev : option ascii) (s : text) :
  match_at r prev s = None ->
  forall m ds post, ~ occurs_at occ prev s [] m ds post.
Proof.
  intros Hn m ds post [H1 H2]. simpl in *. subst s.
  now apply (complete H2).
Qed.

Lemma miss_nil (prev : option ascii) :
  match_at r prev [] = None -> no_occ occ prev [].
Proof.
  intros E [|x a] m ds post H; [now apply (miss_here E) in H|].
  destruct H as [H _]. discriminate.
Qed.

Section Search.

(** What the matcher finds is an occurrence, and its group the
    occurrence's. *)
Hypothesis found :
  forall prev s mt,
    match_at r prev s = Some mt ->
    exists m ds post,
      s = m ++ post /\ occ prev m ds post /\ group1 mt = Some ds.

Lemma search_first :
  forall s prev,
    match search_from r prev s with
    | Some mt =>
        exists a m ds post,
          first_occ occ prev s a m ds post /\ group1 mt = Some ds
    | None => no_occ occ prev s
    end.
Proof.
  induction s as [|c s IH]; intros prev; simpl;
    destruct (match_at r prev _) as [mt|] eqn:E.
  - destruct (found _ _ E) as [m [ds [post [Hs [Ho Hg]]]]].
    exists [], m, ds, post. split; trivial.
    apply first_occ_here. now split.
  - now apply miss_nil.
  - destruct (found _ _ E) as [m [ds [post [Hs [Ho Hg]]]]].
    exists [], m, ds, post. split; trivial.
    apply first_occ_here. now split.
  - specialize (IH (Some c)).
    destruct (search_from r (Some c) s) as [mt|].
    + destruct IH as [a [m [ds [post [Hf Hg]]]]].
      exists (c :: a), m, ds, post. split; trivial.
      apply first_occ_cons; trivial. now apply miss_here.
    + apply no_occ_cons; trivial. now apply miss_here.
Qed.

End Search.

Section Scan.

(** The match found is itself an occurrence, and not an empty one. *)
Hypothesis sound :
  forall prev s mt,
    match_at r prev s = Some mt ->
    consumed mt <> []
    /\ exists ds, group1 mt = Some ds
                  /\ occ prev (consumed mt) ds (remaining mt).

Lemma scan_successive :
  forall n s prev,
    length s <= n ->
    successive occ prev s (map group_text (scan r prev s 0)).
Proof.
  induction n as [|n IH]; intros s prev Hn.
  - destruct s; [|simpl in Hn; lia].
    rewrite scan_zero.
    destruct (match_at r prev []) as [mt|] eqn:E.
    + destruct (sound _ _ E) as [Hne _].
      pose proof (match_at_sound _ _ _ E) as Hs.
      destruct (consumed mt); [contradiction|discriminate].
    + apply successive_nil. now apply miss_nil.
  - destruct (match_at r prev s) as [mt|] eqn:E.
    + destruct (sound _ _ E) as [Hne [ds [Hg Ho]]].
      pose proof (match_at_sound _ _ _ E) as Hs.
      rewrite (@scan_hit _ _ _ _ E Hne). simpl.
      unfold group_text at 1. rewrite Hg.
      apply successive_cons with [] (consumed mt) (remaining mt).
      * apply first_occ_here. now split.
      * apply IH. rewrite Hs, length_app in Hn.
        destruct (consumed mt); [contradiction|]. simpl in Hn. lia.
    + rewrite scan_zero, E. destruct s as [|c s].
      * apply successive_nil. now apply miss_nil.
      * assert (Hs : successive occ (Some c) s
                       (map group_text (scan r (Some c) s 0)))
          by (apply IH; simpl in Hn; lia).
        inversion Hs as [p s0 Hno|p s0 a m ds post l Hf Hl]; subst.
        -- apply successive_nil. apply no_occ_cons; trivial.
           now apply miss_here.
        -- apply successive_cons with (c :: a) m post; trivial.
           apply first_occ_cons; trivial. now apply miss_here.
Qed.

(** Every match of the scan is an occurrence. *)
Lemma scan_groups (prev : option ascii) (s : text) (mt : rmatch) :
  In mt (scan r prev s 0) ->
  exists p ds,
    group1 mt = Some ds /\ occ p (consumed mt) ds (remaining mt).
Proof.
  assert (G : forall n s prev k, length s <= n ->
              In mt (scan r prev s k) ->
              exists p ds,
                group1 mt = Some ds
                /\ occ p (consumed mt) ds (remaining mt)).
  { clear s prev. induction n as [|n IH]; intros s prev k Hn.
    - destruct s; [|simpl in Hn; lia].
      destruct k; simpl; [|intros []].
      destruct (match_at r prev []) as [m0|] eqn:E; [|intros []].
      intros [<-|[]]. destruct (sound _ _ E) as [_ [ds Hg]]. eauto.
    - destruct s as [|c s].
      + destruct k; simpl; [|intros []].
        destruct (match_at r prev []) as [m0|] eqn:E; [|intros []].
        intros [<-|[]]. destruct (sound _ _ E) as [_ [ds Hg]]. eauto.
      + simpl in Hn. destruct k; simpl.
        * destruct (match_at r prev (c :: s)) as [m0|] eqn:E.
          -- intros [<-|H].
             ++ destruct (sound _ _ E) as [_ [ds Hg]]. eauto.
             ++ apply IH in H; [exact H | lia].
          -- intros H. apply IH in H; [exact H | lia].
        * intros H. apply IH in H; [exact H | lia]. }
  intros H. apply (G (length s) s prev 0); [lia | exact H].
Qed.

End Scan.

(** The group of a first occurrence is determined by the text. *)
Hypothesis group_determined :
  forall prev m ds post m' ds' post',
    occ prev m ds post -> occ prev m' ds' post' ->
    m ++ post = m' ++ post' -> ds = ds'.

Lemma first_occ_start (prev : option ascii)
      (s a m ds post a' m' ds' post' : text) :
  first_occ occ prev s a m ds post -> first_occ occ prev s a' m' ds' post' ->
  a = a' /\ m ++ post = m' ++ post'.
Proof.
  intros [H1 H2] [H1' H2'].
  pose proof (H2 _ _ _ _ H1') as L1. pose proof (H2' _ _ _ _ H1) as L2.
  destruct H1 as [E _], H1' as [E' _]. rewrite E in E'.
  apply app_same_length; [exact E' | lia].
Qed.

Lemma first_occ_group (prev : option ascii)
      (s a m ds post a' m' ds' post' : text) :
  first_occ occ prev s a m ds post -> first_occ occ prev s a' m' ds' post' ->
  ds = ds'.
Proof.
  intros H H'. destruct (first_occ_start H H') as [<- E].
  destruct H as [[_ Ho] _], H' as [[_ Ho'] _].
  exact (group_determined Ho Ho' E).
Qed.

(** Where the whole match is determined, so is the list. *)
Hypothesis match_determined :
  forall prev m ds post m' ds' post',
    occ prev m ds post -> occ prev m' ds' post' ->
    m ++ post = m' ++ post' -> m = m'.

Lemma successive_functional (prev : option ascii) (s : text)
      (l l' : list text) :
  successive occ prev s l -> successive occ prev s l' -> l = l'.
Proof.
  intros H. revert l'.
  induction H as [prev s Hno|prev s a m ds post l Hf Hl IH]; intros l' H'.
  - inversion H' as [|p s0 a m ds post l0 [Hf _]]; subst; [reflexivity|].
    now destruct (Hno _ _ _ _ Hf).
  - inversion H' as [p s0 Hno|p s0 a' m' ds' post' l0 Hf' Hl']; subst.
    + destruct Hf as [Hf _]. now destruct (Hno _ _ _ _ Hf).
    + pose proof (first_occ_group Hf Hf') as <-.
      destruct (first_occ_start Hf Hf') as [<- E].
      assert (m = m') as <-.
      { destruct Hf as [[_ Ho] _], Hf' as [[_ Ho'] _].
        exact (match_determined Ho Ho' E). }
      apply app_inv_head in E as <-. f_equal. now apply IH.
Qed.

End Leftmost.

(** ** Occurrences of the three patterns *)

Lemma take_while_stop (p : ascii -> bool) (w : text) (c : ascii) (r : text) :
  forallb p w = true -> p c = false ->
  take_while p (w ++ c :: r) = w /\ drop_while p (w ++ c :: r) = c :: r.
Proof.
  intros Hw Hc. apply take_while_app; trivial.
  intros c' r' [= <- _]. exact Hc.
Qed.

Lemma take_while_nil (p : ascii -> bool) (s : text) :
  take_while p s = [] -> drop_while p s = s.
Proof.
  destruct s as [|c s]; simpl; [reflexivity|].
  destruct (p c); [discriminate | reflexivity].
Qed.

Lemma all_digits_take (s : text) (d : ascii) (ds : text) :
  take_while is_digit s = d :: ds -> all_digits (take_while is_digit s).
Proof.
  intros E. split; [now rewrite E | apply take_while_all].
Qed.

Lemma no_digit_after_drop (s : text) : no_digit_ahead (drop_while is_digit s).
Proof. intros c r. apply drop_while_head. Qed.

(** *** [objects] *)

Lemma objects_occ_at (prev : option ascii) (m ds post : text) :
  objects_occ prev m ds post -> objects_at (m ++ post) = Some (ds, post).
Proof.
  intros [-> [Hne Hd]]. unfold objects_at.
  rewrite <- app_assoc.
  destruct (take_while_stop is_digit ds " " (chars "objects" ++ post) Hd
              eq_refl) as [E1 E2].
  change (chars " objects" ++ post) with (" "%char :: chars "objects" ++ post).
  rewrite E1, E2. destruct ds as [|d ds]; [contradiction|].
  change (" "%char :: chars "objects" ++ post) with (chars " objects" ++ post).
  now rewrite strip_app.
Qed.

Lemma objects_at_occ (prev : option ascii) (s ds post : text) :
  objects_at s = Some (ds, post) ->
  s = (ds ++ chars " objects") ++ post
  /\ objects_occ prev (ds ++ chars " objects") ds post.
Proof.
  unfold objects_at. intros H.
  destruct (take_while is_digit s) as [|d ds'] eqn:E; [discriminate|].
  destruct (strip (chars " objects") (drop_while is_digit s)) as [rest|] eqn:S;
    [|discriminate].
  injection H as <- <-. apply strip_some in S.
  pose proof (take_drop_while is_digit s) as T. rewrite E, S in T.
  split; [now rewrite <- app_assoc|].
  split; [reflexivity|]. rewrite <- E. now apply all_digits_take with d ds'.
Qed.

Lemma objects_sound (prev : option ascii) (s : text) (mt : rmatch) :
  match_at objects_re prev s = Some mt ->
  consumed mt <> []
  /\ exists ds, group1 mt = Some ds
                /\ objects_occ prev (consumed mt) ds (remaining mt).
Proof.
  rewrite match_at_objects.
  destruct (objects_at s) as [[ds post]|] eqn:E; [|discriminate].
  intros [= <-]. simpl. destruct (objects_at_occ prev _ E) as [_ Ho].
  split; [|now exists ds].
  destruct ds; discriminate.
Qed.

Lemma objects_complete (prev : option ascii) (m ds post : text) :
  objects_occ prev m ds post -> match_at objects_re prev (m ++ post) <> None.
Proof.
  intros H. rewrite match_at_objects, (objects_occ_at H). discriminate.
Qed.

Lemma objects_determined (prev : option ascii) (m ds post m' ds' post' : text) :
  objects_occ prev m ds post -> objects_occ prev m' ds' post' ->
  m ++ post = m' ++ post' -> ds = ds' /\ m = m'.
Proof.
  intros H H' E. apply objects_occ_at in H, H'. rewrite E, H' in H.
  injection H as -> ->. split; [reflexivity|]. now apply app_inv_tail in E.
Qed.

(** *** [and] *)

Lemma boundary_before_word (prev : option ascii) (c : ascii) (s : text) :
  is_word c = true ->
  at_boundary prev (c :: s) = negb (word_before prev).
Proof.
  intros H. unfold at_boundary. simpl. rewrite H. apply xorb_true_r.
Qed.

Lemma and_occ_at (prev : option ascii) (m ds post : text) :
  and_occ prev m ds post -> and_at prev (m ++ post) = Some (ds, post).
Proof.
  intros [w1 [w2 [-> [Hb [H1 [H2 [[Hne Hd] Hp]]]]]]].
  unfold and_at. rewrite <- !app_assoc.
  change (chars "and" ++ ?x) with ("a"%char :: chars "nd" ++ x) at 1.
  rewrite boundary_before_word, Hb by reflexivity. cbn [negb].
  change ("a"%char :: chars "nd" ++ ?x) with (chars "and" ++ x).
  rewrite strip_app.
  destruct (take_while_stop is_space w1 "=" (w2 ++ ds ++ post) H1 eq_refl)
    as [_ E1].
  change (chars "=" ++ ?x) with ("="%char :: x).
  rewrite E1.
  change ("="%char :: ?x) with (chars "=" ++ x).
  rewrite strip_app. cbv zeta.
  destruct ds as [|d ds]; [contradiction|].
  simpl in Hd. apply andb_prop in Hd as [Hd0 Hd].
  destruct (take_while_stop is_space w2 d (ds ++ post) H2
              (digit_not_space _ Hd0)) as [_ E2].
  change ((d :: ds) ++ post) with (d :: ds ++ post). rewrite E2.
  destruct (@take_while_app is_digit (d :: ds) post) as [E3 E4].
  - simpl. now rewrite Hd0.
  - exact Hp.
  - change (d :: ds ++ post) with ((d :: ds) ++ post). now rewrite E3, E4.
Qed.

Lemma and_at_occ (prev : option ascii) (s ds post : text) :
  and_at prev s = Some (ds, post) ->
  exists m, s = m ++ post /\ and_occ prev m ds post.
Proof.
  unfold and_at. intros H.
  destruct (at_boundary prev s) eqn:B; [|discriminate].
  destruct (strip (chars "and") s) as [s1|] eqn:S1; [|discriminate].
  destruct (strip (chars "=") (drop_while is_space s1)) as [s3|] eqn:S3;
    [|discriminate].
  cbv zeta in H.
  destruct (take_while is_digit (drop_while is_space s3)) as [|d ds'] eqn:E;
    [discriminate|].
  injection H as <- <-.
  apply strip_some in S1, S3.
  pose proof (take_drop_while is_space s1) as T1.
  pose proof (take_drop_while is_space s3) as T3.
  pose proof (take_drop_while is_digit (drop_while is_space s3)) as T4.
  exists (chars "and" ++ take_while is_space s1 ++ chars "="
            ++ take_while is_space s3 ++ d :: ds').
  split.
  - rewrite <- !app_assoc. rewrite <- E, T4, T3, <- S3, T1. exact S1.
  - exists (take_while is_space s1), (take_while is_space s3).
    split; [reflexivity|]. split.
    + rewrite S1 in B.
      change (chars "and" ++ s1) with ("a"%char :: chars "nd" ++ s1) in B.
      rewrite boundary_before_word in B by reflexivity.
      now destruct (word_before prev).
    + split; [apply take_while_all|]. split; [apply take_while_all|].
      split; [|apply no_digit_after_drop].
      rewrite <- E. now apply all_digits_take with d ds'.
Qed.

Lemma and_sound (prev : option ascii) (s : text) (mt : rmatch) :
  match_at and_re prev s = Some mt ->
  consumed mt <> []
  /\ exists ds, group1 mt = Some ds
                /\ and_occ prev (consumed mt) ds (remaining mt).
Proof.
  intros Hm. pose proof (match_at_and prev s) as V. rewrite Hm in V.
  destruct (and_at prev s) as [[ds post]|] eqn:E; [|discriminate].
  injection V as Hg Hr.
  destruct (and_at_occ _ _ E) as [m [Hs Ho]].
  pose proof (match_at_sound _ _ _ Hm) as Hs'.
  rewrite Hr, Hs in Hs'. apply app_inv_tail in Hs'. subst m.
  split.
  - destruct Ho as [w1 [w2 [-> _]]]. discriminate.
  - exists ds. rewrite Hr. now split.
Qed.

Lemma and_complete (prev : option ascii) (m ds post : text) :
  and_occ prev m ds post -> match_at and_re prev (m ++ post) <> None.
Proof.
  intros H Hn. pose proof (match_at_and prev (m ++ post)) as V.
  rewrite Hn, (and_occ_at H) in V. discriminate.
Qed.

Lemma and_determined (prev : option ascii) (m ds post m' ds' post' : text) :
  and_occ prev m ds post -> and_occ prev m' ds' post' ->
  m ++ post = m' ++ post' -> ds = ds' /\ m = m'.
Proof.
  intros H H' E. apply and_occ_at in H, H'. rewrite E, H' in H.
  injection H as -> ->. split; [reflexivity|]. now apply app_inv_tail in E.
Qed.

(** *** [cells] *)

Lemma line_ends_intro (w post : text) :
  all_spaces w -> at_eol post = true -> line_ends (w ++ post) = true.
Proof.
  unfold all_spaces. intros Hw Hp. induction w as [|c w IH]; simpl in *.
  - destruct post; simpl in *; [reflexivity | now rewrite Hp].
  - apply andb_prop in Hw as [Hc Hw]. rewrite Hc, (IH Hw).
    apply orb_true_r.
Qed.

Lemma line_ends_elim (s : text) :
  line_ends s = true ->
  exists w post, s = w ++ post /\ all_spaces w /\ at_eol post = true.
Proof.
  induction s as [|c s IH]; intros H.
  - exists [], []. repeat split.
  - cbn [line_ends] in H. apply orb_prop in H as [H|H].
    + exists [], (c :: s). repeat split. exact H.
    + apply andb_prop in H as [Hc H].
      destruct (IH H) as [w [post [-> [Hw Hp]]]].
      exists (c :: w), post. repeat split; trivial.
      unfold all_spaces. simpl. now rewrite Hc.
Qed.

Lemma cells_occ_at (prev : option ascii) (m ds post : text) :
  cells_occ prev m ds post -> cells_at prev (m ++ post) = Some ds.
Proof.
  intros [w1 [w2 [w3 [-> [Hb [H1 [[Hne Hd] [H2 [Hne2 [H3 Hp]]]]]]]]]].
  unfold cells_at. rewrite Hb, <- !app_assoc. cbv zeta.
  destruct ds as [|d ds]; [contradiction|].
  destruct w2 as [|x w2]; [contradiction|].
  pose proof Hd as Hd'. simpl in Hd'. apply andb_prop in Hd' as [Hd0 _].
  pose proof H2 as H2'. unfold all_spaces in H2'. simpl in H2'.
  apply andb_prop in H2' as [Hx _].
  destruct (take_while_stop is_space w1 d
              (ds ++ (x :: w2) ++ chars "cells" ++ w3 ++ post) H1
              (digit_not_space _ Hd0)) as [_ E1].
  change ((d :: ds) ++ ?y) with (d :: ds ++ y). rewrite E1.
  destruct (take_while_stop is_digit (d :: ds) x
              (w2 ++ chars "cells" ++ w3 ++ post) Hd
              (space_not_digit _ Hx)) as [E2 E3].
  change (d :: ds ++ (x :: w2) ++ ?y) with ((d :: ds) ++ x :: w2 ++ y).
  rewrite E2, E3.
  destruct (take_while_stop is_space (x :: w2) "c"
              (chars "ells" ++ w3 ++ post) H2 eq_refl) as [E4 E5].
  change (x :: w2 ++ chars "cells" ++ ?y)
    with ((x :: w2) ++ "c"%char :: chars "ells" ++ y).
  rewrite E4, E5.
  change ("c"%char :: chars "ells" ++ ?y) with (chars "cells" ++ y).
  rewrite strip_app, (line_ends_intro _ H3 Hp). reflexivity.
Qed.

Lemma cells_at_occ (prev : option ascii) (s ds : text) :
  cells_at prev s = Some ds ->
  exists m post, s = m ++ post /\ cells_occ prev m ds post.
Proof.
  unfold cells_at. intros H.
  destruct (at_bol prev) eqn:B; [|discriminate]. cbv zeta in H.
  destruct (take_while is_digit (drop_while is_space s)) as [|d ds'] eqn:E;
    [discriminate|].
  destruct (take_while is_space (drop_while is_digit (drop_while is_space s)))
    as [|x w2] eqn:E2; [discriminate|].
  destruct (strip (chars "cells")
              (drop_while is_space
                 (drop_while is_digit (drop_while is_space s))))
    as [s4|] eqn:S4; [|discriminate].
  destruct (line_ends s4) eqn:L; [|discriminate].
  injection H as <-.
  apply strip_some in S4.
  destruct (line_ends_elim _ L) as [w3 [post [-> [H3 Hp]]]].
  pose proof (take_drop_while is_space s) as T1.
  pose proof (take_drop_while is_digit (drop_while is_space s)) as T2.
  pose proof (take_drop_while is_space
                (drop_while is_digit (drop_while is_space s))) as T3.
  exists (take_while is_space s ++ (d :: ds') ++ (x :: w2)
            ++ chars "cells" ++ w3), post.
  split.
  - rewrite <- !app_assoc. rewrite <- S4. rewrite <- E2, T3, <- E, T2.
    now rewrite T1.
  - exists (take_while is_space s), (x :: w2), w3.
    split; [reflexivity|]. split; [exact B|].
    split; [apply take_while_all|].
    split; [rewrite <- E; now apply all_digits_take with d ds'|].
    split; [rewrite <- E2; apply take_while_all|].
    split; [discriminate|]. now split.
Qed.

Lemma cells_found (prev : option ascii) (s : text) (mt : rmatch) :
  match_at cells_re prev s = Some mt ->
  exists m ds post,
    s = m ++ post /\ cells_occ prev m ds post /\ group1 mt = Some ds.
Proof.
  intros Hm. pose proof (match_at_cells prev s) as V. rewrite Hm in V.
  destruct (cells_at prev s) as [ds|] eqn:E; [|discriminate].
  injection V as Hg.
  destruct (cells_at_occ _ _ E) as [m [post [Hs Ho]]].
  now exists m, ds, post.
Qed.

Lemma cells_complete (prev : option ascii) (m ds post : text) :
  cells_occ prev m ds post -> match_at cells_re prev (m ++ post) <> None.
Proof.
  intros H Hn. pose proof (match_at_cells prev (m ++ post)) as V.
  rewrite Hn, (cells_occ_at H) in V. discriminate.
Qed.

Lemma cells_determined (prev : option ascii) (m ds post m' ds' post' : text) :
  cells_occ prev m ds post -> cells_occ prev m' ds' post' ->
  m ++ post = m' ++ post' -> ds = ds'.
Proof.
  intros H H' E. apply cells_occ_at in H, H'. rewrite E, H' in H.
  now injection H.
Qed.

(** *** What follows a [cells] match *)

Lemma while_before_stop (p : ascii -> bool) (y : text) (c : ascii) (z : text) :
  p c = false ->
  take_while p (y ++ c :: z) = take_while p y
  /\ drop_while p (y ++ c :: z) = drop_while p y ++ c :: z.
Proof.
  intros Hc. induction y as [|x y [IH1 IH2]]; simpl.
  - now rewrite Hc.
  - destruct (p x); [|now split]. now rewrite IH1, IH2.
Qed.

Lemma strip_within (w t v : text) :
  length w <= length t ->
  strip w (t ++ v)
  = match strip w t with
    | Some r => Some (r ++ v)
    | None => None
    end.
Proof.
  revert t. induction w as [|a w IH]; intros t L; simpl; [reflexivity|].
  destruct t as [|b t]; simpl in *; [lia|].
  destruct (Ascii.eqb a b); [|reflexivity]. apply IH. lia.
Qed.

Lemma line_ends_tail (t v v' : text) :
  line_ends (t ++ v) = true -> at_eol v' = true -> line_ends (t ++ v') = true.
Proof.
  intros H Hv. induction t as [|c t IH].
  - simpl. destruct v'; simpl in *; [reflexivity | now rewrite Hv].
  - change ((c :: t) ++ v) with (c :: t ++ v) in H.
    change ((c :: t) ++ v') with (c :: t ++ v').
    cbn [line_ends] in *. apply orb_prop in H as [H|H].
    + cbn [at_eol] in *. now rewrite H.
    + apply andb_prop in H as [Hc H]. rewrite Hc, (IH H). apply orb_true_r.
Qed.

(** Once the text reaches a [cells] that the line may end after, the match
    at the head no longer depends on what follows. *)
Lemma cells_at_tail (prev : option ascii) (y w3 v v' ds : text) :
  cells_at prev (y ++ chars "cells" ++ w3 ++ v) = Some ds ->
  at_eol v' = true ->
  cells_at prev (y ++ chars "cells" ++ w3 ++ v') = Some ds.
Proof.
  unfold cells_at. destruct (at_bol prev); [|discriminate]. cbv zeta.
  intros H Hv'.
  assert (S : forall z,
             y ++ chars "cells" ++ w3 ++ z
             = y ++ "c"%char :: (chars "ells" ++ w3 ++ z)) by reflexivity.
  rewrite S in *.
  destruct (@while_before_stop is_space y "c" (chars "ells" ++ w3 ++ v)
              eq_refl) as [_ D1].
  destruct (@while_before_stop is_space y "c" (chars "ells" ++ w3 ++ v')
              eq_refl) as [_ D1'].
  rewrite D1 in H. rewrite D1'. clear D1 D1'.
  set (y1 := drop_while is_space y) in *.
  destruct (@while_before_stop is_digit y1 "c" (chars "ells" ++ w3 ++ v)
              eq_refl) as [T2 D2].
  destruct (@while_before_stop is_digit y1 "c" (chars "ells" ++ w3 ++ v')
              eq_refl) as [T2' D2'].
  rewrite T2, D2 in H. rewrite T2', D2'. clear T2 D2 T2' D2'.
  destruct (take_while is_digit y1) as [|d0 ds0]; [discriminate|].
  set (y2 := drop_while is_digit y1) in *.
  destruct (@while_before_stop is_space y2 "c" (chars "ells" ++ w3 ++ v)
              eq_refl) as [T3 D3].
  destruct (@while_before_stop is_space y2 "c" (chars "ells" ++ w3 ++ v')
              eq_refl) as [T3' D3'].
  rewrite T3, D3 in H. rewrite T3', D3'. clear T3 D3 T3' D3'.
  destruct (take_while is_space y2) as [|x0 xs0]; [discriminate|].
  set (y3 := drop_while is_space y2) in *.
  assert (R : forall z,
             y3 ++ "c"%char :: (chars "ells" ++ w3 ++ z)
             = (y3 ++ chars "cells" ++ w3) ++ z)
    by (intros z; rewrite <- !app_assoc; reflexivity).
  rewrite R in *.
  assert (L : length (chars "cells") <= length (y3 ++ chars "cells" ++ w3))
    by (rewrite !length_app; lia).
  rewrite (@strip_within _ _ v L) in H. rewrite (@strip_within _ _ v' L).
  destruct (strip (chars "cells") (y3 ++ chars "cells" ++ w3)) as [t4|];
    [|discriminate].
  destruct (line_ends (t4 ++ v)) eqn:E; [|discriminate].
  now rewrite (@line_ends_tail t4 v v' E Hv').
Qed.

Lemma app_prefix_split {A : Type} (a b a' b' : list A) :
  a ++ b = a' ++ b' -> length a' <= length a ->
  exists x, a = a' ++ x /\ b' = x ++ b.
Proof.
  revert a. induction a' as [|h a' IH]; intros a H L; simpl in *.
  - exists a. now split.
  - destruct a as [|h0 a]; simpl in *; [lia|].
    injection H as -> H. destruct (IH a H) as [x [-> ->]]; [lia|].
    exists x. now split.
Qed.

(** What follows the leftmost match does not matter, as long as the match
    still ends a line. *)
Lemma first_cells_tail (a1 m1 ds1 post1 later : text) :
  first_occ cells_occ None (a1 ++ m1 ++ post1) a1 m1 ds1 post1 ->
  at_eol later = true ->
  first_occ cells_occ None (a1 ++ m1 ++ later) a1 m1 ds1 later.
Proof.
  intros [[_ Ho] Hmin] Hl.
  destruct Ho as [w1 [w2 [w3 [Hm [Hb [H1 [Hd [H2 [Hne [H3 Hp]]]]]]]]]].
  split.
  - split; [reflexivity|]. exists w1, w2, w3.
    repeat split; try assumption; now destruct Hd.
  - intros a' m' ds' post' [Hs Ho'].
    destruct (Nat.le_gt_cases (length a1) (length a')) as [L|L]; [exact L|].
    exfalso.
    destruct (app_prefix_split _ _ _ _ Hs) as [x [Ha Hx]]; [lia|].
    apply cells_occ_at in Ho'. rewrite Hx, Hm in Ho'.
    assert (E : forall z,
               x ++ (w1 ++ ds1 ++ w2 ++ chars "cells" ++ w3) ++ z
               = (x ++ w1 ++ ds1 ++ w2) ++ chars "cells" ++ w3 ++ z)
      by (intros z; rewrite <- !app_assoc; reflexivity).
    rewrite E in Ho'.
    apply cells_at_tail with (v' := post1) in Ho'; [|exact Hp].
    rewrite <- E, <- Hm in Ho'.
    destruct (cells_at_occ _ _ Ho') as [m'' [post'' [Hs'' Ho'']]].
    assert (O : occurs_at cells_occ None (a1 ++ m1 ++ post1) a' m'' ds' post'').
    { split; [|exact Ho'']. rewrite Ha at 1. rewrite <- app_assoc.
      now rewrite Hs''. }
    apply Hmin in O. lia.
Qed.

(** ** What [extract_counts] returns *)

Lemma int_digits (ds : text) :
  all_digits ds ->
  int ds = if within_limit ds then Ok (decimal ds) else Raise ValueError.
Proof.
  intros [Hne Hd]. unfold int, within_limit.
  destruct ds; [contradiction|]. now rewrite Hd.
Qed.

Lemma findall_objects_digits (s ds : text) :
  In ds (findall objects_re s) -> all_digits ds.
Proof.
  unfold findall, finditer. rewrite in_map_iff. intros [mt [<- H]].
  destruct (@scan_groups _ _ objects_sound _ _ _ H)
    as [p [ds [Hg [_ Hd]]]].
  unfold group_text. now rewrite Hg.
Qed.

Lemma nth_int (l : list text) (i : nat) :
  (forall ds, In ds l -> all_digits ds) ->
  (if S i <=? length l then int (nth i l []) else Ok 0%Z)
  = match nth_error l i with
    | Some ds => if within_limit ds then Ok (decimal ds) else Raise ValueError
    | None => Ok 0%Z
    end.
Proof.
  intros Hl.
  destruct (nth_error l i) as [ds|] eqn:E.
  - assert (i < length l) as L by (apply nth_error_Some; congruence).
    apply Nat.leb_le in L as ->.
    rewrite (nth_error_nth _ _ _ E). apply int_digits, Hl.
    now apply nth_error_In with i.
  - apply nth_error_None in E.
    destruct (S i <=? length l) eqn:L; [|reflexivity].
    apply Nat.leb_le in L. lia.
Qed.

Lemma sum_operands_digits (ms : list rmatch) :
  (forall m, In m ms -> exists ds, group1 m = Some ds /\ all_digits ds) ->
  forall acc,
    sum_operands ms acc
    = if forallb within_limit (map group_text ms)
      then Ok (acc + sum_values (map group_text ms))%Z
      else Raise ValueError.
Proof.
  induction ms as [|m ms IH]; intros H acc; simpl.
  - now rewrite Z.add_0_r.
  - destruct (H m (or_introl eq_refl)) as [ds [Hg Hd]].
    assert (G : group_text m = ds) by (unfold group_text; now rewrite Hg).
    unfold int_group. rewrite G, Hg, (int_digits Hd).
    destruct (within_limit ds); [|reflexivity]. cbn [bind andb].
    rewrite IH by (intros; apply H; now right).
    destruct (forallb within_limit (map group_text ms)); [|reflexivity].
    now rewrite Z.add_assoc.
Qed.

Lemma finditer_and_digits (s : text) (m : rmatch) :
  In m (finditer and_re s) -> exists ds, group1 m = Some ds /\ all_digits ds.
Proof.
  intros H.
  destruct (@scan_groups _ _ and_sound _ _ _ H) as [p [ds [Hg Ho]]].
  exists ds. split; [exact Hg|].
  now destruct Ho as [w1 [w2 [_ [_ [_ [_ [Hd _]]]]]]].
Qed.

Lemma search_cells_digits (s : text) (m : rmatch) :
  search cells_re s = Some m ->
  exists ds, group1 m = Some ds /\ all_digits ds.
Proof.
  intros H.
  pose proof (@search_first _ _ cells_complete cells_found s None) as F.
  unfold search in H. rewrite H in F.
  destruct F as [a [m' [ds [post [[[_ Ho] _] Hg]]]]].
  exists ds. split; [exact Hg|].
  now destruct Ho as [w1 [w2 [w3 [_ [_ [_ [Hd _]]]]]]].
Qed.

(** The extraction returns when the integers it converts are within the
    limit, with these counts; otherwise it raises [ValueError]. *)
Lemma extract_counts_spec (output : text) :
  extract_counts output
  = if readable output then Ok (counts_of output) else Raise ValueError.
Proof.
  unfold extract_counts, readable, converted, counts_of, total_of, nth_value.
  rewrite !nth_int by apply findall_objects_digits.
  rewrite !forallb_app.
  assert (F : forallb within_limit (firstn 2 (findall objects_re output))
              = match nth_error (findall objects_re output) 0 with
                | Some ds => within_limit ds
                | None => true
                end
                && match nth_error (findall objects_re output) 1 with
                   | Some ds => within_limit ds
                   | None => true
                   end).
  { destruct (findall objects_re output) as [|x [|y l]]; simpl;
      now rewrite ?andb_true_r. }
  rewrite F. clear F.
  pose proof (@sum_operands_digits (finditer and_re output)
                (@finditer_and_digits output) 0%Z) as S.
  fold (findall and_re output) in S. rewrite Z.add_0_l in S.
  destruct (nth_error (findall objects_re output) 0) as [x|];
    [destruct (within_limit x); [|reflexivity]|];
    cbn [bind andb];
    (destruct (nth_error (findall objects_re output) 1) as [y|];
     [destruct (within_limit y); [|reflexivity]|]);
    cbn [bind andb];
    (destruct (search cells_re output) as [m|] eqn:E;
     [destruct (search_cells_digits _ E) as [ds [Hg Hd]];
      unfold int_group, group_text; rewrite Hg, (int_digits Hd);
      cbn [forallb]; rewrite andb_true_r;
      destruct (within_limit ds); [|reflexivity]|]);
    cbn [bind andb forallb]; rewrite S;
    destruct (forallb within_limit (findall and_re output)); reflexivity.
Qed.

Lemma extract_counts_ok (output : text) :
  readable output = true -> extract_counts output = Ok (counts_of output).
Proof. intros H. now rewrite extract_counts_spec, H. Qed.

Lemma extract_counts_inv (output : text) (c : Counts.t) :
  extract_counts output = Ok c ->
  c = counts_of output /\ readable output = true.
Proof.
  rewrite extract_counts_spec.
  destruct (readable output); [|discriminate]. now intros [= <-].
Qed.

Lemma findall_objects_successive (s : text) :
  successive objects_occ None s (findall objects_re s).
Proof.
  apply (@scan_successive _ _ objects_complete objects_sound (length s)).
  lia.
Qed.

Lemma findall_and_successive (s : text) :
  successive and_occ None s (findall and_re s).
Proof.
  apply (@scan_successive _ _ and_complete and_sound (length s)). lia.
Qed.

Lemma objects_successive_unique (s : text) (l : list text) :
  successive objects_occ None s l -> l = findall objects_re s.
Proof.
  intros H.
  apply (@successive_functional objects_occ) with None s; trivial.
  - intros p m ds post m' ds' post' H1 H2 E.
    exact (proj1 (objects_determined H1 H2 E)).
  - intros p m ds post m' ds' post' H1 H2 E.
    exact (proj2 (objects_determined H1 H2 E)).
  - apply findall_objects_successive.
Qed.

Lemma and_successive_unique (s : text) (l : list text) :
  successive and_occ None s l -> l = findall and_re s.
Proof.
  intros H.
  apply (@successive_functional and_occ) with None s; trivial.
  - intros p m ds post m' ds' post' H1 H2 E.
    exact (proj1 (and_determined H1 H2 E)).
  - intros p m ds post m' ds' post' H1 H2 E.
    exact (proj2 (and_determined H1 H2 E)).
  - apply findall_and_successive.
Qed.

Lemma successive_head (occ : option ascii -> text -> text -> text -> Prop)
      (s : text) (l : list text) :
  successive occ None s l ->
  match l with
  | [] => no_occ occ None s
  | ds :: _ => exists a m post, first_occ occ None s a m ds post
  end.
Proof.
  intros H. inversion H; subst; eauto.
Qed.

Lemma get_counts_spec (run_yosys : string -> string -> text)
      (yosys_bin artifact_path flow : string) :
  let output := run_yosys yosys_bin (script artifact_path flow) in
  get_counts run_yosys yosys_bin artifact_path flow
  = if readable output then Ok (counts_of output, output)
    else Raise ValueError.
Proof.
  intros output. unfold get_counts. fold output.
  rewrite extract_counts_spec. now destruct (readable output).
Qed.

Lemma get_counts_ok (run_yosys : string -> string -> text)
      (yosys_bin artifact_path flow : string) :
  let output := run_yosys yosys_bin (script artifact_path flow) in
  readable output = true ->
  get_counts run_yosys yosys_bin artifact_path flow
  = Ok (counts_of output, output).
Proof. intros output H. rewrite get_counts_spec. fold output. now rewrite H. Qed.

Lemma get_counts_inv (run_yosys : string -> string -> text)
      (yosys_bin artifact_path flow : string) (c : Counts.t) (out : text) :
  let output := run_yosys yosys_bin (script artifact_path flow) in
  get_counts run_yosys yosys_bin artifact_path flow = Ok (c, out) ->
  out = output /\ c = counts_of output /\ readable output = true.
Proof.
  intros output. rewrite get_counts_spec. fold output.
  destruct (readable output); [|discriminate]. now intros [= <- <-].
Qed.

(** The matcher returns at every text, and raises nothing but
    [ValueError]. *)
Lemma get_counts_returns_iff (run_yosys : string -> string -> text)
      (yosys_bin artifact_path flow : string) :
  let output := run_yosys yosys_bin (script artifact_path flow) in
  ((exists c, get_counts run_yosys yosys_bin artifact_path flow
              = Ok (c, output))
   <-> readable output = true)
  /\ (readable output = false ->
      get_counts run_yosys yosys_bin artifact_path flow = Raise ValueError).
Proof.
  intros output. rewrite get_counts_spec. fold output.
  destruct (readable output); split; try split;
    try discriminate; try reflexivity; eauto.
  intros [c H]. discriminate.
Qed.

Lemma total_of_first (output a m ds post : text) :
  first_occ cells_occ None output a m ds post ->
  total_of output = decimal ds.
Proof.
  intros Hf. unfold total_of.
  pose proof (@search_first _ _ cells_complete cells_found output None) as F.
  unfold search. destruct (search_from cells_re None output) as [mt|].
  - destruct F as [a' [m' [ds' [post' [Hf' Hg]]]]].
    unfold group_text. rewrite Hg. f_equal.
    exact (first_occ_group cells_determined Hf' Hf).
  - destruct Hf as [Ho _]. now destruct (F _ _ _ _ Ho).
Qed.

Lemma total_of_fallback (output : text) :
  no_occ cells_occ None output ->
  total_of output = nth_value (findall objects_re output) 1.
Proof.
  intros Hn. unfold total_of.
  pose proof (@search_first _ _ cells_complete cells_found output None) as F.
  unfold search. destruct (search_from cells_re None output) as [mt|];
    [|reflexivity].
  destruct F as [a [m [ds [post [[Ho _] _]]]]]. now destruct (Hn _ _ _ _ Ho).
Qed.

(** ** Extraction claims *)

Lemma ff_count_of_first (output a m ds post : text) :
  first_occ objects_occ None output a m ds post ->
  nth_value (findall objects_re output) 0 = decimal ds.
Proof.
  intros Hf.
  pose proof (successive_head (findall_objects_successive output)) as Hh.
  destruct (findall objects_re output) as [|ds0 l].
  - destruct Hf as [Ho _]. now destruct (Hh _ _ _ _ Ho).
  - destruct Hh as [a0 [m0 [post0 Hf0]]]. unfold nth_value. simpl. f_equal.
    refine (first_occ_group _ Hf0 Hf).
    intros p x1 x2 x3 y1 y2 y3 H1 H2 E.
    exact (proj1 (objects_determined H1 H2 E)).
Qed.

Lemma no_objects_found (output : text) :
  no_occ objects_occ None output -> findall objects_re output = [].
Proof.
  intros Ho.
  pose proof (successive_head (findall_objects_successive output)) as H.
  destruct (findall objects_re output); [reflexivity|].
  destruct H as [a [m [post [H _]]]]. now destruct (Ho _ _ _ _ H).
Qed.

Lemma no_and_found (output : text) :
  no_occ and_occ None output -> findall and_re output = [].
Proof.
  intros Ha.
  pose proof (successive_head (findall_and_successive output)) as H.
  destruct (findall and_re output); [reflexivity|].
  destruct H as [a [m [post [H _]]]]. now destruct (Ha _ _ _ _ H).
Qed.

Lemma no_cells_found (output : text) :
  no_occ cells_occ None output -> search cells_re output = None.
Proof.
  intros Hn.
  pose proof (@search_first _ _ cells_complete cells_found output None) as F.
  unfold search. destruct (search_from cells_re None output) as [mt|];
    [|reflexivity].
  destruct F as [a [m [ds [post [[Ho _] _]]]]]. now destruct (Hn _ _ _ _ Ho).
Qed.

(** Without any match nothing is converted and the counts are all zero. *)
Lemma counts_without_match (output : text) :
  no_occ objects_occ None output ->
  no_occ cells_occ None output ->
  no_occ and_occ None output ->
  counts_of output = Counts.Mk 0 0 0 /\ readable output = true.
Proof.
  intros Ho Hc Ha. unfold counts_of, readable, converted.
  rewrite (total_of_fallback Hc), (no_objects_found Ho), (no_and_found Ha),
    (no_cells_found Hc).
  now split.
Qed.

(** *** Integers within the limit *)

(** Every group of a scan stands in the text. *)
Lemma successive_in (occ : option ascii -> text -> text -> text -> Prop)
      (prev : option ascii) (s : text) (l : list text) :
  successive occ prev s l ->
  forall ds, In ds l ->
    exists p a m post, s = a ++ m ++ post /\ occ p m ds post.
Proof.
  induction 1 as [prev s Hno|prev s a m ds post l Hf Hl IH]; intros x Hx.
  - destruct Hx.
  - destruct Hx as [<-|Hx].
    + destruct Hf as [[Hs Ho] _].
      exists (last_before prev a), a, m, post. now split.
    + destruct (IH _ Hx) as [p [a' [m' [post' [Hs Ho]]]]].
      exists p, (a ++ m ++ a'), m', post'. split; [|exact Ho].
      destruct Hf as [[E _] _]. rewrite E, Hs, <- !app_assoc. reflexivity.
Qed.

Lemma firstn_incl {A : Type} (n : nat) (l : list A) (x : A) :
  In x (firstn n l) -> In x l.
Proof.
  revert l. induction n as [|n IH]; intros [|y l]; simpl; try tauto.
  intros [H|H]; [now left | right; now apply IH].
Qed.

(** A text without a stretch of digits beyond the limit has no integer
    beyond it. *)
Lemma bounded_readable (output : text) :
  digits_bounded output -> readable output = true.
Proof.
  intros B. unfold readable, converted. apply forallb_forall. intros ds H.
  unfold within_limit. apply Z.leb_le.
  apply in_app_or in H as [H|H]; [|apply in_app_or in H as [H|H]].
  - apply firstn_incl in H.
    destruct (successive_in (findall_objects_successive output) _ H)
      as [p [a [m [post [Hs [Hm [_ Hd]]]]]]].
    apply (B a ds (chars " objects" ++ post)); [|exact Hd].
    rewrite Hs, Hm, <- app_assoc. reflexivity.
  - pose proof (@search_first _ _ cells_complete cells_found output None)
      as F.
    unfold search in H. destruct (search_from cells_re None output) as [mt|];
      [|destruct H].
    destruct H as [<-|[]].
    destruct F as [a [m [ds [post [[[Hs Ho] _] Hg]]]]].
    unfold group_text. rewrite Hg.
    destruct Ho as [w1 [w2 [w3 [Hm [_ [_ [[_ Hd] _]]]]]]].
    apply (B (a ++ w1) ds (w2 ++ chars "cells" ++ w3 ++ post)); [|exact Hd].
    rewrite Hs, Hm, <- !app_assoc. reflexivity.
  - destruct (successive_in (findall_and_successive output) _ H)
      as [p [a [m [post [Hs [w1 [w2 [Hm [_ [_ [_ [[_ Hd] _]]]]]]]]]]]].
    apply (B (a ++ chars "and" ++ w1 ++ chars "=" ++ w2) ds post);
      [|exact Hd].
    rewrite Hs, Hm, <- !app_assoc. reflexivity.
Qed.

(** A report whose first [<integer> objects] match has an integer of 4301
    digits: line 85 raises [ValueError] and no count is returned. *)
Lemma ff_count_lost_to_a_long_integer :
  ~ stated_first_objects
      (repeat "9"%char (N.to_nat 4301) ++ chars " objects").
Proof. intros [c [E _]]. vm_compute in E. discriminate E. Qed.

(** C8, as amended.  When [get_counts] returns, the flip-flop count is the
    integer of the first [<integer> objects] match, in order of appearance,
    when the text has such a match, and zero when it has none.  It returns
    exactly when none of the integers it converts has more digits than the
    limit, in particular on every text without a stretch of digits beyond
    the limit and on every text without any match of the three patterns,
    where the counts are 0, 0, 0; otherwise it raises [ValueError]. *)
Theorem ff_count_first_objects_match
        (run_yosys : string -> string -> text)
        (yosys_bin artifact_path flow : string) :
  let output := run_yosys yosys_bin (script artifact_path flow) in
  ((exists c,
      get_counts run_yosys yosys_bin artifact_path flow = Ok (c, output))
   <-> readable output = true)
  /\ (readable output = false ->
      get_counts run_yosys yosys_bin artifact_path flow = Raise ValueError)
  /\ (digits_bounded output -> readable output = true)
  /\ (forall c out,
        get_counts run_yosys yosys_bin artifact_path flow = Ok (c, out) ->
        out = output
        /\ (forall a m ds post,
              first_occ objects_occ None output a m ds post ->
              Counts.ff_count c = decimal ds)
        /\ (no_occ objects_occ None output -> Counts.ff_count c = 0%Z))
  /\ (no_occ objects_occ None output
      \/ exists a m ds post, first_occ objects_occ None output a m ds post)
  /\ (no_occ objects_occ None output ->
      no_occ cells_occ None output ->
      no_occ and_occ None output ->
      get_counts run_yosys yosys_bin artifact_path flow
      = Ok (Counts.Mk 0 0 0, output)).
Proof.
  intros output.
  destruct (get_counts_returns_iff run_yosys yosys_bin artifact_path flow)
    as [R1 R2].
  fold output in R1, R2.
  split; [exact R1|]. split; [exact R2|].
  split; [apply bounded_readable|]. split; [|split].
  - intros c out H. apply get_counts_inv in H. fold output in H.
    destruct H as [-> [-> _]]. split; [reflexivity|].
    cbn [Counts.ff_count counts_of]. split.
    + intros a m ds post Hf. exact (ff_count_of_first Hf).
    + intros Hn. now rewrite (no_objects_found Hn).
  - pose proof (successive_head (findall_objects_successive output)) as Hh.
    destruct (findall objects_re output) as [|ds0 l]; [now left|].
    right. destruct Hh as [a0 [m0 [post0 Hf0]]]. now exists a0, m0, ds0, post0.
  - intros Ho Hc Ha. destruct (counts_without_match Ho Hc Ha) as [E R].
    rewrite <- E. now apply get_counts_ok.
Qed.

(** C1, as amended.  When [get_counts] returns, the total cell count is the
    integer of the leftmost stretch of text that runs from the start of a
    line to the end of a line and reads: white space, integer, white space,
    [cells], white space, where white space may contain line feeds; without
    such a stretch it is the value of the second [<integer> objects] match,
    and zero when there are fewer than two.  It returns exactly when none of
    the integers it converts has more digits than the limit. *)
Theorem total_cells_policy
        (run_yosys : string -> string -> text)
        (yosys_bin artifact_path flow : string) :
  let output := run_yosys yosys_bin (script artifact_path flow) in
  ((exists c,
      get_counts run_yosys yosys_bin artifact_path flow = Ok (c, output))
   <-> readable output = true)
  /\ (forall c out,
        get_counts run_yosys yosys_bin artifact_path flow = Ok (c, out) ->
        (forall a m ds post,
           first_occ cells_occ None output a m ds post ->
           Counts.total_cells c = decimal ds)
        /\ (no_occ cells_occ None output ->
            forall l,
              successive objects_occ None output l ->
              Counts.total_cells c = nth_value l 1))
  /\ (no_occ cells_occ None output
      \/ exists a m ds post, first_occ cells_occ None output a m ds post)
  /\ exists l, successive objects_occ None output l.
Proof.
  intros output.
  destruct (get_counts_returns_iff run_yosys yosys_bin artifact_path flow)
    as [R1 _].
  fold output in R1.
  split; [exact R1|]. split; [|split].
  - intros c out H. apply get_counts_inv in H. fold output in H.
    destruct H as [_ [-> _]]. cbn [Counts.total_cells counts_of]. split.
    + intros a m ds post Hf. exact (total_of_first Hf).
    + intros Hn l Hl. rewrite (objects_successive_unique Hl).
      exact (total_of_fallback Hn).
  - pose proof (@search_first _ _ cells_complete cells_found output None) as F.
    destruct (search_from cells_re None output) as [mt|]; [|now left].
    right. destruct F as [a [m [ds [post [Hf _]]]]]. now exists a, m, ds, post.
  - eexists. apply findall_objects_successive.
Qed.

(** C10, as amended.  When the text has more than one stretch matching the
    cells pattern (white space possibly running over line feeds),
    [get_counts], when it returns, takes the integer of the leftmost one as
    the total cell count and ignores the later ones: what follows the
    leftmost match can be replaced by any text that leaves the match at the
    end of a line, and the count, when one is returned, stays the same.  A
    count is returned when the integers converted are within the limit. *)
Theorem leftmost_cells_match_wins
        (run_yosys : string -> string -> text)
        (yosys_bin artifact_path flow : string)
        (a1 m1 ds1 post1 : text) :
  let output := run_yosys yosys_bin (script artifact_path flow) in
  first_occ cells_occ None output a1 m1 ds1 post1 ->
  (forall c out,
     get_counts run_yosys yosys_bin artifact_path flow = Ok (c, out) ->
     Counts.total_cells c = decimal ds1)
  /\ (readable output = true ->
      exists c,
        get_counts run_yosys yosys_bin artifact_path flow = Ok (c, output)
        /\ Counts.total_cells c = decimal ds1)
  /\ forall later,
       at_eol later = true ->
       (forall c,
          extract_counts (a1 ++ m1 ++ later) = Ok c ->
          Counts.total_cells c = decimal ds1)
       /\ (readable (a1 ++ m1 ++ later) = true ->
           exists c,
             extract_counts (a1 ++ m1 ++ later) = Ok c
             /\ Counts.total_cells c = decimal ds1).
Proof.
  intros output Hf. split; [|split].
  - intros c out H. apply get_counts_inv in H. fold output in H.
    destruct H as [_ [-> _]]. exact (total_of_first Hf).
  - intros R. eexists. split; [now apply get_counts_ok|].
    exact (total_of_first Hf).
  - intros later Hl.
    assert (E : output = a1 ++ m1 ++ post1) by (now destruct Hf as [[E _] _]).
    rewrite E in Hf.
    pose proof (total_of_first (@first_cells_tail _ _ _ _ _ Hf Hl)) as T.
    split.
    + intros c H. apply extract_counts_inv in H as [-> _]. exact T.
    + intros R. eexists. split; [now apply extract_counts_ok|]. exact T.
Qed.

(** C2, as amended.  When [get_counts] returns, the ABC area is the sum of
    the integers of all the matches, from left to right and not overlapping,
    of: [and] not directly after a letter, digit or underscore, optional
    white space, [=], optional white space, integer; it is zero when there
    is no such match.  It returns exactly when none of the integers it
    converts has more digits than the limit. *)
Theorem abc_area_sums_and_matches
        (run_yosys : string -> string -> text)
        (yosys_bin artifact_path flow : string) :
  let output := run_yosys yosys_bin (script artifact_path flow) in
  ((exists c,
      get_counts run_yosys yosys_bin artifact_path flow = Ok (c, output))
   <-> readable output = true)
  /\ (forall c out,
        get_counts run_yosys yosys_bin artifact_path flow = Ok (c, out) ->
        (forall l,
           successive and_occ None output l ->
           Counts.abc_area c = sum_values l)
        /\ (no_occ and_occ None output -> Counts.abc_area c = 0%Z))
  /\ (exists l, successive and_occ None output l)
  /\ extract_counts (unlines ["and = 10"; "and = 20"; "and = 5"]%string)
     = Ok (Counts.Mk 0 0 35).
Proof.
  intros output.
  destruct (get_counts_returns_iff run_yosys yosys_bin artifact_path flow)
    as [R1 _].
  fold output in R1.
  split; [exact R1|]. split; [|split].
  - intros c out H. apply get_counts_inv in H. fold output in H.
    destruct H as [_ [-> _]]. cbn [Counts.abc_area counts_of]. split.
    + intros l Hl. now rewrite (and_successive_unique Hl).
    + intros Hn. now rewrite (no_and_found Hn).
  - eexists. apply findall_and_successive.
  - vm_compute. reflexivity.
Qed.

(** ** The extraction claims in the words of the specification *)

Lemma line_matches_at (l ds : text) :
  line_matches l ds -> cells_at None l = Some ds.
Proof.
  intros H. apply cells_occ_at in H. now rewrite app_nil_r in H.
Qed.

(** A number on one line and [cells] on the next: no line matches, yet the
    pattern does, because its white space runs over the line feed. *)
Lemma total_cells_across_lines :
  ~ stated_total_policy (unlines ["1 objects 2 objects"; "5"; "cells"]%string).
Proof.
  intros [c [E [_ H]]].
  assert (E' : extract_counts
                 (unlines ["1 objects 2 objects"; "5"; "cells"]%string)
               = Ok (Counts.Mk 1 5 0)) by (vm_compute; reflexivity).
  rewrite E' in E. injection E as <-.
  assert (Hno : forall l ds,
             In l (split_lines
                     (unlines ["1 objects 2 objects"; "5"; "cells"]%string)) ->
             ~ line_matches l ds).
  { intros l ds Hl Hm. apply line_matches_at in Hm.
    vm_compute in Hl. destruct Hl as [<-|[<-|[<-|[]]]]; vm_compute in Hm;
      discriminate. }
  specialize (H Hno _ (findall_objects_successive _)).
  vm_compute in H. discriminate.
Qed.

(** Two matching lines after such a pair: the first matching line says 7,
    the count taken is 5. *)
Lemma first_cells_line_not_taken :
  ~ stated_first_cells_line
      (unlines ["5"; "cells"; "7 cells"; "8 cells"]%string).
Proof.
  intros H.
  destruct (H [chars "5"; chars "cells"] (chars "7 cells") [chars "8 cells"]
              (chars "7")) as [c [E T]].
  - vm_compute. reflexivity.
  - exists [], [" "%char], []. repeat split; try reflexivity; discriminate.
  - intros l ds Hl Hm. apply line_matches_at in Hm.
    destruct Hl as [<-|[<-|[]]]; vm_compute in Hm; discriminate.
  - exists (chars "8 cells"), (chars "8"). split; [now left|].
    exists [], [" "%char], []. repeat split; try reflexivity; discriminate.
  - assert (E' : extract_counts
                   (unlines ["5"; "cells"; "7 cells"; "8 cells"]%string)
                 = Ok (Counts.Mk 0 5 0)) by (vm_compute; reflexivity).
    rewrite E' in E. injection E as <-. vm_compute in T. discriminate.
Qed.

(** [and = 7] inside the word [nand] is an occurrence of the text, and is
    not counted. *)
Lemma abc_area_skips_and_inside_word :
  ~ stated_abc_area (chars "nand = 7").
Proof.
  intros [c [E H]].
  assert (E' : extract_counts (chars "nand = 7") = Ok (Counts.Mk 0 0 0))
    by (vm_compute; reflexivity).
  rewrite E' in E. injection E as <-.
  specialize (H [chars "7"]).
  assert (S : successive literal_and_occ None (chars "nand = 7") [chars "7"]).
  { apply successive_cons with (chars "n") (chars "and = 7") [].
    - split.
      + split; [reflexivity|].
        repeat split; try reflexivity; discriminate.
      + intros [|x a'] m' ds' post' [Hs [Hm _]]; [|simpl; lia].
        subst m'. discriminate.
    - apply successive_nil. intros a m ds post [Hs [Hm _]].
      subst m. destruct a; discriminate. }
  specialize (H S). vm_compute in H. discriminate.
Qed.

(** Two matches on two lines: the first one is taken, whatever follows
    it. *)
Lemma leftmost_cells_match_wins_witness :
  (forall c out,
     get_counts (fun _ _ => unlines ["5 cells"; "7 cells"]%string)
                "yosys" "artifacts/d.il" ""
     = Ok (c, out) ->
     Counts.total_cells c = decimal (chars "5"))
  /\ (readable (unlines ["5 cells"; "7 cells"]%string) = true ->
      exists c,
        get_counts (fun _ _ => unlines ["5 cells"; "7 cells"]%string)
                   "yosys" "artifacts/d.il" ""
        = Ok (c, unlines ["5 cells"; "7 cells"]%string)
        /\ Counts.total_cells c = decimal (chars "5"))
  /\ forall later,
       at_eol later = true ->
       (forall c,
          extract_counts ([] ++ chars "5 cells" ++ later) = Ok c ->
          Counts.total_cells c = decimal (chars "5"))
       /\ (readable ([] ++ chars "5 cells" ++ later) = true ->
           exists c,
             extract_counts ([] ++ chars "5 cells" ++ later) = Ok c
             /\ Counts.total_cells c = decimal (chars "5")).
Proof.
  apply (@leftmost_cells_match_wins
           (fun _ _ => unlines ["5 cells"; "7 cells"]%string)
           "yosys" "artifacts/d.il" ""
           [] (chars "5 cells") (chars "5") (newline :: chars "7 cells")).
  split.
  - split; [reflexivity|].
    exists [], [" "%char], []. repeat split; try reflexivity; discriminate.
  - intros. simpl. lia.
Defined.

(** ** Rounding *)

Local Open Scope Z_scope.

Lemma div_mod_cases (n d : Z) :
  0 < d -> n = d * (n / d) + n mod d /\ 0 <= n mod d < d.
Proof.
  intros H. split; [apply Z.div_mod; lia | now apply Z.mod_pos_bound].
Qed.

(** [round_half_even n d] is within one half of [n / d]. *)
Lemma round_half_even_near (n d : Z) :
  0 < d -> 2 * Z.abs (round_half_even n d * d - n) <= d.
Proof.
  intros H. unfold round_half_even.
  destruct (div_mod_cases n H) as [E B].
  destruct (Z.compare_spec (2 * (n mod d)) d);
    [destruct (Z.even (n / d))| |]; nia.
Qed.

Lemma round_half_even_le (n d b : Z) :
  0 < d -> n <= b * d -> round_half_even n d <= b.
Proof.
  intros H L. unfold round_half_even.
  destruct (div_mod_cases n H) as [E B].
  destruct (Z.compare_spec (2 * (n mod d)) d);
    [destruct (Z.even (n / d))| |]; nia.
Qed.

Lemma round_half_even_ge (n d b : Z) :
  0 < d -> b * d <= n -> b <= round_half_even n d.
Proof.
  intros H L. unfold round_half_even.
  destruct (div_mod_cases n H) as [E B].
  destruct (Z.compare_spec (2 * (n mod d)) d);
    [destruct (Z.even (n / d))| |]; nia.
Qed.

Lemma ilog2_ratio_le (n d b : Z) :
  0 < n -> 0 < d -> n <= b * d -> ilog2_ratio n d <= Z.log2 b + 1.
Proof.
  intros Hn Hd L. unfold ilog2_ratio.
  assert (Z.log2 n <= Z.log2 b + Z.log2 d + 1).
  { etransitivity; [apply Z.log2_le_mono, L|].
    apply Z.log2_mul_above; nia. }
  destruct (scale_den d _ <=? scale_num n _); lia.
Qed.

(** What [round_float] returns: zero, or the rounded significand at the
    exponent of the last place. *)
Lemma round_float_cases (n d : Z) :
  round_float n d = float_zero
  \/ n <> 0
     /\ round_half_even
          (scale_num n (Z.max (ilog2_ratio (Z.abs n) d - 52) (- 1074)))
          (scale_den d (Z.max (ilog2_ratio (Z.abs n) d - 52) (- 1074)))
        <> 0
     /\ round_float n d
        = MkFloat
            (round_half_even
               (scale_num n (Z.max (ilog2_ratio (Z.abs n) d - 52) (- 1074)))
               (scale_den d (Z.max (ilog2_ratio (Z.abs n) d - 52) (- 1074))))
            (Z.max (ilog2_ratio (Z.abs n) d - 52) (- 1074)).
Proof.
  unfold round_float.
  destruct (Z.eqb_spec n 0) as [E|E]; [now left|].
  cbv zeta.
  destruct (Z.eqb_spec (round_half_even
                          (scale_num n
                             (Z.max (ilog2_ratio (Z.abs n) d - 52) (- 1074)))
                          (scale_den d
                             (Z.max (ilog2_ratio (Z.abs n) d - 52) (- 1074))))
                       0) as [M|M]; [now left|].
  right. now repeat split.
Qed.

(** Rounding a fraction between 0 and [b] gives a float between 0 and
    [b]. *)
Lemma round_float_in_range (n d b : Z) :
  0 < d -> 0 <= n <= b * d -> 0 < b < 2 ^ 51 ->
  in_range (round_float n d) b.
Proof.
  intros Hd Hn Hb.
  destruct (round_float_cases n d) as [->|[Hz [_ ->]]];
    unfold in_range; cbn [Fnum Fexp float_zero]; [lia|].
  assert (He : ilog2_ratio (Z.abs n) d <= 51).
  { assert (Z.log2 b < 51) by (apply Z.log2_lt_pow2; lia).
    pose proof (@ilog2_ratio_le (Z.abs n) d b). lia. }
  set (q := Z.max (ilog2_ratio (Z.abs n) d - 52) (- 1074)) in *.
  assert (Hq : q < 0) by lia.
  unfold scale_num, scale_den.
  replace (Z.max 0 (- q)) with (- q) by lia.
  replace (Z.max 0 q) with 0 by lia.
  rewrite Z.pow_0_r, Z.mul_1_r.
  assert (0 < 2 ^ (- q)) by (apply Z.pow_pos_nonneg; lia).
  split; [lia|]. split.
  - apply round_half_even_ge; nia.
  - apply round_half_even_le; nia.
Qed.

(** *** The rounding is correct *)

Lemma pow2_pos (k : Z) : 0 <= k -> 0 < 2 ^ k.
Proof. intros. apply Z.pow_pos_nonneg; lia. Qed.

Lemma pow2_split (a b : Z) : 0 <= a -> 0 <= b -> 2 ^ (a + b) = 2 ^ a * 2 ^ b.
Proof. intros. apply Z.pow_add_r; lia. Qed.

(** Comparing [n / d] with [2 ^ (q + j)] is comparing [n / d / 2 ^ q] with
    [2 ^ j]. *)
Lemma scale_le_shift (n d q j : Z) :
  0 <= j ->
  (scale_den d (q + j) <= scale_num n (q + j)
   <-> 2 ^ j * scale_den d q <= scale_num n q).
Proof.
  intros Hj. unfold scale_den, scale_num.
  pose proof (pow2_pos Hj) as Pj.
  destruct (Z.le_gt_cases 0 q) as [Hq|Hq].
  - replace (Z.max 0 (q + j)) with (q + j) by lia.
    replace (Z.max 0 (- (q + j))) with 0 by lia.
    replace (Z.max 0 q) with q by lia.
    replace (Z.max 0 (- q)) with 0 by lia.
    rewrite pow2_split by lia. rewrite Z.pow_0_r. lia.
  - replace (Z.max 0 q) with 0 by lia.
    replace (Z.max 0 (- q)) with (- q) by lia.
    rewrite Z.pow_0_r.
    destruct (Z.le_gt_cases 0 (q + j)) as [Hk|Hk].
    + replace (Z.max 0 (q + j)) with (q + j) by lia.
      replace (Z.max 0 (- (q + j))) with 0 by lia.
      rewrite Z.pow_0_r.
      assert (E : 2 ^ j = 2 ^ (q + j) * 2 ^ (- q))
        by (rewrite <- pow2_split by lia; f_equal; lia).
      pose proof (@pow2_pos (q + j) Hk). pose proof (@pow2_pos (- q)).
      rewrite E. split; intros; nia.
    + replace (Z.max 0 (q + j)) with 0 by lia.
      replace (Z.max 0 (- (q + j))) with (- (q + j)) by lia.
      rewrite Z.pow_0_r.
      assert (E : 2 ^ (- q) = 2 ^ (- (q + j)) * 2 ^ j)
        by (rewrite <- pow2_split by lia; f_equal; lia).
      pose proof (@pow2_pos (- (q + j))).
      rewrite E. split; intros; nia.
Qed.

Lemma scale_lt_shift (n d q j : Z) :
  0 <= j ->
  (scale_num n (q + j) < scale_den d (q + j)
   <-> scale_num n q < 2 ^ j * scale_den d q).
Proof.
  intros Hj. pose proof (scale_le_shift n d q Hj). lia.
Qed.

(** [ilog2_ratio n d] is the integer part of the binary logarithm of
    [n / d]. *)
Lemma ilog2_ratio_spec (n d : Z) :
  0 < n -> 0 < d ->
  scale_den d (ilog2_ratio n d) <= scale_num n (ilog2_ratio n d)
  /\ scale_num n (ilog2_ratio n d + 1) < scale_den d (ilog2_ratio n d + 1).
Proof.
  intros Hn Hd.
  destruct (Z.log2_spec n Hn) as [An Bn].
  destruct (Z.log2_spec d Hd) as [Ad Bd].
  pose proof (Z.log2_nonneg n) as Nn. pose proof (Z.log2_nonneg d) as Nd.
  rewrite <- Z.add_1_r in Bn, Bd.
  unfold ilog2_ratio.
  set (a := Z.log2 n) in *. set (b := Z.log2 d) in *.
  destruct (Z.leb_spec (scale_den d (a - b)) (scale_num n (a - b))) as [T|T].
  - split; [exact T|].
    unfold scale_num, scale_den.
    destruct (Z.le_gt_cases 0 (a - b + 1)) as [Hk|Hk].
    + replace (Z.max 0 (a - b + 1)) with (a - b + 1) by lia.
      replace (Z.max 0 (- (a - b + 1))) with 0 by lia.
      rewrite Z.pow_0_r.
      assert (E : 2 ^ (a + 1) = 2 ^ b * 2 ^ (a - b + 1))
        by (rewrite <- pow2_split by lia; f_equal; lia).
      pose proof (@pow2_pos (a - b + 1) Hk). nia.
    + replace (Z.max 0 (a - b + 1)) with 0 by lia.
      replace (Z.max 0 (- (a - b + 1))) with (- (a - b + 1)) by lia.
      rewrite Z.pow_0_r.
      assert (E : 2 ^ b = 2 ^ (a + 1) * 2 ^ (- (a - b + 1)))
        by (rewrite <- pow2_split by lia; f_equal; lia).
      pose proof (@pow2_pos (- (a - b + 1))). nia.
  - replace (a - b - 1 + 1) with (a - b) by lia. split; [|exact T].
    unfold scale_num, scale_den.
    destruct (Z.le_gt_cases 0 (a - b - 1)) as [Hk|Hk].
    + replace (Z.max 0 (a - b - 1)) with (a - b - 1) by lia.
      replace (Z.max 0 (- (a - b - 1))) with 0 by lia.
      rewrite Z.pow_0_r.
      assert (E : 2 ^ a = 2 ^ (b + 1) * 2 ^ (a - b - 1))
        by (rewrite <- pow2_split by lia; f_equal; lia).
      pose proof (@pow2_pos (a - b - 1) Hk). nia.
    + replace (Z.max 0 (a - b - 1)) with 0 by lia.
      replace (Z.max 0 (- (a - b - 1))) with (- (a - b - 1)) by lia.
      rewrite Z.pow_0_r.
      assert (E : 2 ^ (b + 1) = 2 ^ a * 2 ^ (- (a - b - 1)))
        by (rewrite <- pow2_split by lia; f_equal; lia).
      pose proof (@pow2_pos (- (a - b - 1))). nia.
Qed.

Lemma scale_den_pos (d k : Z) : 0 < d -> 0 < scale_den d k.
Proof.
  intros H. unfold scale_den.
  assert (0 < 2 ^ Z.max 0 k) by (apply pow2_pos; lia). nia.
Qed.

Lemma scale_num_opp (n k : Z) : scale_num (- n) k = - scale_num n k.
Proof. unfold scale_num. lia. Qed.

(** In the normal range [round_float n d] is correctly rounded to 53 bits:
    its significand has 53 bits and is the integer nearest to [n / d]
    scaled by the exponent. *)
Lemma round_float_correct (n d : Z) :
  0 < d -> n <> 0 -> - 1022 <= ilog2_ratio (Z.abs n) d ->
  Fexp (round_float n d) = ilog2_ratio (Z.abs n) d - 52
  /\ 2 ^ 52 <= Z.abs (Fnum (round_float n d)) <= 2 ^ 53
  /\ 2 * Z.abs (Fnum (round_float n d) * scale_den d (Fexp (round_float n d))
                - scale_num n (Fexp (round_float n d)))
     <= scale_den d (Fexp (round_float n d)).
Proof.
  intros Hd Hn He.
  set (q := ilog2_ratio (Z.abs n) d - 52).
  assert (Q : Z.max q (- 1074) = q) by lia.
  pose proof (scale_den_pos q Hd) as P.
  assert (A : 0 < Z.abs n) by lia.
  destruct (ilog2_ratio_spec A Hd) as [L U].
  replace (ilog2_ratio (Z.abs n) d) with (q + 52) in L by (unfold q; lia).
  replace (ilog2_ratio (Z.abs n) d + 1) with (q + 53) in U by (unfold q; lia).
  apply scale_le_shift in L; [|lia]. apply scale_lt_shift in U; [|lia].
  assert (B : 2 ^ 52
              <= Z.abs (round_half_even (scale_num n q) (scale_den d q))
              <= 2 ^ 53).
  { destruct (Z.lt_trichotomy n 0) as [N|[N|N]]; [|contradiction|].
    - replace (Z.abs n) with (- n) in L, U by lia.
      rewrite scale_num_opp in L, U.
      assert (- 2 ^ 53 <= round_half_even (scale_num n q) (scale_den d q))
        by (apply round_half_even_ge; [exact P | lia]).
      assert (round_half_even (scale_num n q) (scale_den d q) <= - 2 ^ 52)
        by (apply round_half_even_le; [exact P | lia]).
      lia.
    - replace (Z.abs n) with n in L, U by lia.
      assert (2 ^ 52 <= round_half_even (scale_num n q) (scale_den d q))
        by (apply round_half_even_ge; [exact P | lia]).
      assert (round_half_even (scale_num n q) (scale_den d q) <= 2 ^ 53)
        by (apply round_half_even_le; [exact P | lia]).
      lia. }
  destruct (round_float_cases n d) as [E|[_ [_ E]]]; fold q in E |- *.
  - exfalso. revert E. unfold round_float.
    destruct (Z.eqb_spec n 0) as [|_]; [contradiction|]. cbv zeta.
    fold q. rewrite Q.
    destruct (Z.eqb_spec (round_half_even (scale_num n q) (scale_den d q)) 0)
      as [Z0|_]; [rewrite Z0 in B; simpl in B; lia|].
    intros [= Z0 _]. rewrite Z0 in B. simpl in B. lia.
  - rewrite Q in E. rewrite E. cbn [Fnum Fexp].
    split; [reflexivity|]. split; [exact B|].
    now apply round_half_even_near.
Qed.

(** *** The range of the floats *)

Lemma exponent_le (x : float) (k : Z) :
  Fnum x <> 0 -> Z.abs (Fnum x) <= 2 ^ k -> 0 <= k ->
  exponent x <= k + Fexp x.
Proof.
  intros Hz Hm Hk. unfold exponent.
  assert (Z.log2 (Z.abs (Fnum x)) <= Z.log2 (2 ^ k))
    by (apply Z.log2_le_mono, Hm).
  rewrite Z.log2_pow2 in H by exact Hk. lia.
Qed.

(** A quotient below [2 ^ 1023] does not overflow. *)
Lemma round_float_no_overflow (n d : Z) :
  0 < d -> Z.abs n < 2 ^ 1023 * d -> overflows (round_float n d) = false.
Proof.
  intros Hd Hn.
  destruct (round_float_cases n d) as [->|[Hz [Hm ->]]]; [reflexivity|].
  set (q := Z.max (ilog2_ratio (Z.abs n) d - 52) (- 1074)) in *.
  set (m := round_half_even (scale_num n q) (scale_den d q)) in *.
  unfold overflows. cbn [Fnum].
  destruct (Z.eqb_spec m 0) as [|_]; [contradiction|]. cbn [negb andb].
  apply Z.leb_gt.
  assert (A : 0 < Z.abs n) by lia.
  assert (He : ilog2_ratio (Z.abs n) d <= 1022).
  { destruct (ilog2_ratio_spec A Hd) as [L _].
    destruct (Z.le_gt_cases (ilog2_ratio (Z.abs n) d) 1022) as [G|G];
      [exact G|].
    exfalso. set (e := ilog2_ratio (Z.abs n) d) in *.
    replace e with (1023 + (e - 1023)) in L by lia.
    apply scale_le_shift in L; [|lia].
    unfold scale_den, scale_num in L.
    change (Z.max 0 1023) with 1023 in L.
    change (Z.max 0 (- 1023)) with 0 in L.
    rewrite Z.pow_0_r, Z.mul_1_r in L.
    assert (0 < 2 ^ (e - 1023)) by (apply pow2_pos; lia).
    assert (0 < 2 ^ 1023) by (apply pow2_pos; lia).
    nia. }
  assert (Hq : 0 <= 1023 - q) by lia.
  assert (U : scale_num (Z.abs n) q < 2 ^ (1023 - q) * scale_den d q).
  { apply scale_lt_shift; [exact Hq|].
    replace (q + (1023 - q)) with 1023 by lia.
    unfold scale_num, scale_den.
    change (Z.max 0 1023) with 1023.
    change (Z.max 0 (- 1023)) with 0.
    rewrite Z.pow_0_r, Z.mul_1_r. lia. }
  pose proof (scale_den_pos q Hd) as P.
  assert (B : Z.abs m <= 2 ^ (1023 - q)).
  { destruct (Z.lt_trichotomy n 0) as [N|[N|N]]; [|contradiction|].
    - replace (Z.abs n) with (- n) in U by lia.
      rewrite scale_num_opp in U.
      assert (- 2 ^ (1023 - q) <= m)
        by (apply round_half_even_ge; [exact P | lia]).
      assert (m <= 0).
      { apply round_half_even_le; [exact P|]. unfold scale_num.
        assert (0 < 2 ^ Z.max 0 (- q)) by (apply pow2_pos; lia). nia. }
      lia.
    - replace (Z.abs n) with n in U by lia.
      assert (m <= 2 ^ (1023 - q))
        by (apply round_half_even_le; [exact P | lia]).
      assert (0 <= m).
      { apply round_half_even_ge; [exact P|]. unfold scale_num.
        assert (0 < 2 ^ Z.max 0 (- q)) by (apply pow2_pos; lia). nia. }
      lia. }
  pose proof (@exponent_le (MkFloat m q) (1023 - q)) as X.
  cbn [Fnum Fexp] in X. specialize (X Hm B Hq). lia.
Qed.

(** A float between 0 and [b] is in the range. *)
Lemma in_range_no_overflow (x : float) (b : Z) :
  in_range x b -> 0 < b < 2 ^ 1024 -> overflows x = false.
Proof.
  intros [He [Hl Hu]] Hb. unfold overflows.
  destruct (Z.eqb_spec (Fnum x) 0) as [|Hz]; [reflexivity|].
  cbn [negb andb]. apply Z.leb_gt. unfold exponent.
  assert (L : Z.log2 (Z.abs (Fnum x)) <= Z.log2 (b * 2 ^ (- Fexp x))).
  { apply Z.log2_le_mono. lia. }
  rewrite Z.log2_mul_pow2 in L by lia.
  assert (Z.log2 b < 1024) by (apply Z.log2_lt_pow2; lia).
  lia.
Qed.

(** *** Division and multiplication *)

Lemma truediv_positive (a b : Z) :
  0 < b ->
  truediv a b
  = if overflows (round_float a b) then Raise OverflowError
    else if (Fnum (round_float a b) =? 0) && (a <? 0) then Beyond
         else Ok (round_float a b).
Proof.
  intros H. unfold truediv.
  destruct (Z.eqb_spec b 0) as [->|_]; [lia|].
  destruct (Z.ltb_spec 0 b) as [_|]; [|lia].
  replace (Z.abs b) with b by lia.
  destruct (Z.ltb_spec b 0) as [|_]; [lia|].
  now rewrite andb_false_r, orb_false_r.
Qed.

(** A division by a positive integer raises nothing but
    [OverflowError]. *)
Lemma truediv_raises (a b : Z) (e : exn) :
  0 < b -> truediv a b = Raise e -> e = OverflowError.
Proof.
  intros H. rewrite (truediv_positive _ H).
  destruct (overflows _); [now intros [= <-]|].
  destruct (_ && _); discriminate.
Qed.

(** A non-negative quotient below [2 ^ 1023] is returned. *)
Lemma truediv_ok (a b : Z) :
  0 < b -> 0 <= a -> a < 2 ^ 1023 * b ->
  truediv a b = Ok (round_float a b).
Proof.
  intros Hb Ha Hu. rewrite (truediv_positive _ Hb).
  rewrite round_float_no_overflow by lia.
  destruct (Z.ltb_spec a 0) as [|_]; [lia|].
  now rewrite andb_false_r.
Qed.

Lemma fprod_100 (x : float) :
  fprod x float_100
  = round_float (Fnum x * 100 * 2 ^ Z.max 0 (Fexp x))
                (2 ^ Z.max 0 (- Fexp x)).
Proof.
  unfold fprod, float_100, scale_num, scale_den. cbn [Fnum Fexp].
  rewrite Z.add_0_r, Z.opp_involutive, Z.mul_1_l. reflexivity.
Qed.

(** A percentage of a ratio between 0 and 1 is returned, and is between 0
    and 100. *)
Lemma percent_in_range (x : float) :
  in_range x 1 ->
  fmul x float_100 = Ok (fprod x float_100)
  /\ in_range (fprod x float_100) 100.
Proof.
  intros [He [Hl Hu]].
  assert (R : in_range (fprod x float_100) 100).
  { rewrite fprod_100.
    replace (Z.max 0 (Fexp x)) with 0 by lia.
    replace (Z.max 0 (- Fexp x)) with (- Fexp x) by lia.
    rewrite Z.pow_0_r, Z.mul_1_r.
    assert (0 < 2 ^ (- Fexp x)) by (apply Z.pow_pos_nonneg; lia).
    apply round_float_in_range; [lia | nia |].
    split; [lia | reflexivity]. }
  split; [|exact R]. unfold fmul.
  rewrite (@in_range_no_overflow _ 100 R) by (split; [lia | reflexivity]).
  unfold float_100 at 1 2. cbn [Fnum].
  destruct (Z.ltb_spec (Fnum x * 100) 0) as [|_]; [lia|].
  destruct (Z.ltb_spec (Fnum x) 0) as [|_]; [lia|].
  cbn [orb]. now rewrite andb_false_r, andb_false_r.
Qed.

(** *** The ratio and the percentage *)

Lemma in_range_zero (b : Z) : 0 <= b -> in_range float_zero b.
Proof. intros H. unfold in_range. cbn. lia. Qed.

(** For [0 <= ff <= total] the ratio is returned and is between 0 and
    1. *)
Lemma ratio_of_unit (ff total : Z) :
  0 <= ff <= total ->
  exists x, ratio_of ff total = Ok x /\ in_range x 1.
Proof.
  intros H. unfold ratio_of.
  destruct (Z.gtb_spec total 0) as [G|G].
  - exists (round_float ff total). split.
    + assert (0 < 2 ^ 1023) by (apply pow2_pos; lia).
      apply truediv_ok; nia.
    + apply round_float_in_range; [lia | lia |]. split; [lia | reflexivity].
  - exists float_zero. split; [reflexivity | apply in_range_zero; lia].
Qed.

(** For [0 <= ff_area <= total_area] the percentage is returned and is
    between 0 and 100. *)
Lemma pct_of_unit (ff_area total_area : Z) :
  0 <= ff_area <= total_area ->
  exists p, pct_of ff_area total_area = Ok p /\ in_range p 100.
Proof.
  intros H. unfold pct_of.
  destruct (Z.gtb_spec total_area 0) as [G|G].
  - assert (0 < 2 ^ 1023) by (apply pow2_pos; lia).
    rewrite truediv_ok by nia. cbn [bind].
    assert (R : in_range (round_float ff_area total_area) 1).
    { apply round_float_in_range; [lia | lia |]. split; [lia | reflexivity]. }
    destruct (percent_in_range R) as [E R']. rewrite E. eauto.
  - exists float_zero. split; [reflexivity | apply in_range_zero; lia].
Qed.

(** A non-negative ratio below [2 ^ 1023] is returned. *)
Lemma ratio_of_ok (ff total : Z) :
  0 <= ff -> ff < 2 ^ 1023 * Z.max 1 total ->
  exists x, ratio_of ff total = Ok x.
Proof.
  intros H U. unfold ratio_of.
  destruct (Z.gtb_spec total 0) as [G|G]; [|eauto].
  rewrite truediv_ok; [eauto | lia | lia |].
  replace (Z.max 1 total) with total in U by lia. exact U.
Qed.

(** ** Metrics claims *)

Lemma metrics_unfold (tag : string) (c : Counts.t) (ff_size : Z) :
  metrics tag c ff_size
  = (x <- ratio_of (Counts.ff_count c) (Counts.total_cells c) ;;
     p <- pct_of (Counts.ff_count c * ff_size)
                 (Counts.abc_area c + Counts.ff_count c * ff_size) ;;
     Ok (MkResult tag (Counts.ff_count c)
                  (Counts.total_cells c - Counts.ff_count c)
                  (Counts.total_cells c) x (Counts.abc_area c)
                  (Counts.ff_count c * ff_size)
                  (Counts.abc_area c + Counts.ff_count c * ff_size) p)).
Proof. reflexivity. Qed.

(** A record that is returned has these fields. *)
Lemma metrics_inv (tag : string) (c : Counts.t) (ff_size : Z) (r : result) :
  metrics tag c ff_size = Ok r ->
  ratio_of (Counts.ff_count c) (Counts.total_cells c) = Ok (ratio r)
  /\ pct_of (Counts.ff_count c * ff_size)
            (Counts.abc_area c + Counts.ff_count c * ff_size)
     = Ok (ff_area_pct r)
  /\ r = MkResult tag (Counts.ff_count c)
                  (Counts.total_cells c - Counts.ff_count c)
                  (Counts.total_cells c) (ratio r) (Counts.abc_area c)
                  (Counts.ff_count c * ff_size)
                  (Counts.abc_area c + Counts.ff_count c * ff_size)
                  (ff_area_pct r).
Proof.
  rewrite metrics_unfold.
  destruct (ratio_of _ _) as [x| |]; [|discriminate|discriminate].
  cbn [bind].
  destruct (pct_of _ _) as [p| |]; [|discriminate|discriminate].
  cbn [bind]. intros [= <-]. now repeat split.
Qed.

Lemma metrics_ok (tag : string) (c : Counts.t) (ff_size : Z) (x p : float) :
  ratio_of (Counts.ff_count c) (Counts.total_cells c) = Ok x ->
  pct_of (Counts.ff_count c * ff_size)
         (Counts.abc_area c + Counts.ff_count c * ff_size) = Ok p ->
  metrics tag c ff_size
  = Ok (MkResult tag (Counts.ff_count c)
                 (Counts.total_cells c - Counts.ff_count c)
                 (Counts.total_cells c) x (Counts.abc_area c)
                 (Counts.ff_count c * ff_size)
                 (Counts.abc_area c + Counts.ff_count c * ff_size) p).
Proof. intros Hx Hp. now rewrite metrics_unfold, Hx, Hp. Qed.

Lemma ratio_of_raises (ff total : Z) (e : exn) :
  ratio_of ff total = Raise e -> e = OverflowError.
Proof.
  unfold ratio_of. destruct (Z.gtb_spec total 0) as [G|G]; [|discriminate].
  apply truediv_raises. lia.
Qed.

Lemma pct_of_raises (ff_area total_area : Z) (e : exn) :
  pct_of ff_area total_area = Raise e -> e = OverflowError.
Proof.
  unfold pct_of.
  destruct (Z.gtb_spec total_area 0) as [G|G]; [|discriminate].
  destruct (truediv ff_area total_area) as [q|e'|] eqn:E; cbn [bind].
  - unfold fmul. destruct (overflows _); [discriminate|].
    destruct (_ && _); discriminate.
  - intros [= <-]. apply (@truediv_raises ff_area total_area); [lia|exact E].
  - discriminate.
Qed.

(** The metrics raise nothing but [OverflowError]. *)
Lemma metrics_raises (tag : string) (c : Counts.t) (ff_size : Z) (e : exn) :
  metrics tag c ff_size = Raise e -> e = OverflowError.
Proof.
  rewrite metrics_unfold.
  destruct (ratio_of _ _) as [x|e'|] eqn:R; cbn [bind];
    [|intros [= <-]; exact (ratio_of_raises _ _ R)|discriminate].
  destruct (pct_of _ _) as [p|e'|] eqn:P; cbn [bind];
    [discriminate|intros [= <-]; exact (pct_of_raises _ _ P)|discriminate].
Qed.

(** Non-negative counts with a ratio below [2 ^ 1023] give a record. *)
Lemma metrics_returns (tag : string) (c : Counts.t) (ff_size : Z) :
  0 <= Counts.ff_count c ->
  Counts.ff_count c < 2 ^ 1023 * Z.max 1 (Counts.total_cells c) ->
  0 <= Counts.abc_area c -> 0 <= ff_size ->
  exists r, metrics tag c ff_size = Ok r.
Proof.
  intros Hf Hu Ha Hw.
  destruct (ratio_of_ok _ Hf Hu) as [x Hx].
  destruct (@pct_of_unit (Counts.ff_count c * ff_size)
              (Counts.abc_area c + Counts.ff_count c * ff_size))
    as [p [Hp _]]; [nia|].
  eexists. exact (@metrics_ok tag c ff_size x p Hx Hp).
Qed.

(** On counts and a weight that are not negative the metrics return a
    record or raise [OverflowError]: every float is a number. *)
Lemma metrics_followed (tag : string) (c : Counts.t) (ff_size : Z) :
  0 <= Counts.ff_count c -> 0 <= Counts.abc_area c -> 0 <= ff_size ->
  (exists r, metrics tag c ff_size = Ok r)
  \/ metrics tag c ff_size = Raise OverflowError.
Proof.
  intros Hf Ha Hw. rewrite metrics_unfold.
  destruct (@pct_of_unit (Counts.ff_count c * ff_size)
              (Counts.abc_area c + Counts.ff_count c * ff_size))
    as [p [Hp _]]; [nia|].
  assert (R : (exists x, ratio_of (Counts.ff_count c) (Counts.total_cells c)
                         = Ok x)
              \/ ratio_of (Counts.ff_count c) (Counts.total_cells c)
                 = Raise OverflowError).
  { unfold ratio_of.
    destruct (Z.gtb_spec (Counts.total_cells c) 0) as [G|G]; [|left; eauto].
    rewrite truediv_positive by lia.
    destruct (overflows _); [now right|].
    destruct (Z.ltb_spec (Counts.ff_count c) 0) as [|_]; [lia|].
    rewrite andb_false_r. left. eauto. }
  destruct R as [[x Hx]|Hx]; rewrite Hx; cbn [bind]; [|now right].
  rewrite Hp. cbn [bind]. left. eauto.
Qed.

(** The quotient of [10 ^ 400] by 1 is beyond the floats. *)
Lemma metrics_overflow :
  metrics "d" (Counts.Mk (10 ^ 400) 1 0) 6 = Raise OverflowError.
Proof. vm_compute. reflexivity. Qed.

(** [10 ^ 400] flip-flops of 1 cell: no record is reported. *)
Lemma no_record_beyond_the_floats :
  ~ stated_integer_fields "d" (Counts.Mk (10 ^ 400) 1 0) 6.
Proof. intros [r [E _]]. rewrite metrics_overflow in E. discriminate. Qed.

(** C3, as amended.  A record that the metrics return has exactly
    [logic = total - ff], without clamping, so that it is negative whenever
    [ff > total]; [ff_area = ff * ff_size]; and
    [total_area = abc_area + ff_area].  The metrics return a record for all
    non-negative counts and weights whose ratio [ff / total] is below
    [2 ^ 1023], in particular for a flip-flop count below [2 ^ 1023];
    otherwise they may raise, and raise nothing but [OverflowError].  On
    counts and a weight that are not negative they do one or the other. *)
Theorem metrics_integer_fields (tag : string) (c : Counts.t) (ff_size : Z) :
  (forall r,
     metrics tag c ff_size = Ok r ->
     logic r = Counts.total_cells c - Counts.ff_count c
     /\ (Counts.ff_count c > Counts.total_cells c -> logic r < 0)
     /\ ff_area r = Counts.ff_count c * ff_size
     /\ total_area r = Counts.abc_area c + ff_area r
     /\ design r = tag
     /\ ff r = Counts.ff_count c
     /\ total r = Counts.total_cells c
     /\ abc_area r = Counts.abc_area c)
  /\ (0 <= Counts.ff_count c ->
      Counts.ff_count c < 2 ^ 1023 * Z.max 1 (Counts.total_cells c) ->
      0 <= Counts.abc_area c -> 0 <= ff_size ->
      exists r, metrics tag c ff_size = Ok r)
  /\ (0 <= Counts.ff_count c < 2 ^ 1023 ->
      0 <= Counts.abc_area c -> 0 <= ff_size ->
      exists r, metrics tag c ff_size = Ok r)
  /\ (forall e, metrics tag c ff_size = Raise e -> e = OverflowError)
  /\ (0 <= Counts.ff_count c -> 0 <= Counts.abc_area c -> 0 <= ff_size ->
      (exists r, metrics tag c ff_size = Ok r)
      \/ metrics tag c ff_size = Raise OverflowError).
Proof.
  split; [|split; [|split; [|split]]].
  - intros r H. apply metrics_inv in H as [_ [_ ->]]. cbn.
    repeat split; lia.
  - apply metrics_returns.
  - intros Hf Ha Hw.
    apply metrics_returns; try lia;
      assert (0 < 2 ^ 1023) by (apply pow2_pos; lia); nia.
  - intros e. apply metrics_raises.
  - apply metrics_followed.
Qed.

(** C4.  The metrics never fail on a division by zero.  In a record they
    return the ratio is [ff / total] when [total > 0] and exactly [0.0]
    otherwise, in particular when [total = 0]; the percentage is
    [ff_area / total_area * 100] when [total_area > 0] and exactly [0.0]
    otherwise.  Where a guard fails the expression is [0.0] whatever the
    other count. *)
Theorem metrics_division_guarded (tag : string) (c : Counts.t) (ff_size : Z) :
  metrics tag c ff_size <> Raise ZeroDivisionError
  /\ (forall r,
        metrics tag c ff_size = Ok r ->
        (Counts.total_cells c > 0 ->
         truediv (Counts.ff_count c) (Counts.total_cells c) = Ok (ratio r))
        /\ (Counts.total_cells c <= 0 -> ratio r = float_zero)
        /\ (total_area r > 0 ->
            exists q,
              truediv (ff_area r) (total_area r) = Ok q
              /\ fmul q float_100 = Ok (ff_area_pct r))
        /\ (total_area r <= 0 -> ff_area_pct r = float_zero))
  /\ (Counts.total_cells c <= 0 ->
      ratio_of (Counts.ff_count c) (Counts.total_cells c) = Ok float_zero)
  /\ (Counts.abc_area c + Counts.ff_count c * ff_size <= 0 ->
      pct_of (Counts.ff_count c * ff_size)
             (Counts.abc_area c + Counts.ff_count c * ff_size)
      = Ok float_zero)
  /\ (0 <= Counts.ff_count c <= Counts.total_cells c ->
      0 <= Counts.abc_area c -> 0 <= ff_size ->
      exists r, metrics tag c ff_size = Ok r).
Proof.
  split; [|split; [|split; [|split]]].
  - intros H. apply metrics_raises in H. discriminate.
  - intros r H. apply metrics_inv in H as [Hx [Hp E]].
    rewrite E. cbn [ratio ff_area total_area ff_area_pct].
    unfold ratio_of in Hx. unfold pct_of in Hp.
    repeat split.
    + intros G. destruct (Z.gtb_spec (Counts.total_cells c) 0); [exact Hx|lia].
    + intros G. destruct (Z.gtb_spec (Counts.total_cells c) 0); [lia|].
      now injection Hx.
    + intros G.
      destruct (Z.gtb_spec (Counts.abc_area c + Counts.ff_count c * ff_size)
                           0); [|lia].
      clear Hx.
      destruct (truediv _ _) as [q| |]; cbn [bind] in Hp;
        [|discriminate Hp|discriminate Hp].
      exists q. split; [reflexivity | exact Hp].
    + intros G.
      destruct (Z.gtb_spec (Counts.abc_area c + Counts.ff_count c * ff_size)
                           0); [lia|].
      now injection Hp.
  - intros G. unfold ratio_of.
    destruct (Z.gtb_spec (Counts.total_cells c) 0); [lia|reflexivity].
  - intros G. unfold pct_of.
    destruct (Z.gtb_spec (Counts.abc_area c + Counts.ff_count c * ff_size) 0);
      [lia|reflexivity].
  - intros Hf Ha Hw.
    apply metrics_returns; try lia;
      assert (0 < 2 ^ 1023) by (apply pow2_pos; lia); nia.
Qed.

Local Close Scope Z_scope.

Lemma in_range_value (x : float) (b : Z) :
  in_range x b -> (0 <= float_value x <= inject_Z b)%Q.
Proof.
  intros [He [Hl Hu]]. unfold float_value.
  assert (P : (0 < inject_Z (2 ^ (- Fexp x)))%Q).
  { change 0%Q with (inject_Z 0). rewrite <- Zlt_Qlt.
    apply Z.pow_pos_nonneg; lia. }
  assert (E : (2 ^ Fexp x == / inject_Z (2 ^ (- Fexp x)))%Q).
  { rewrite Zpower_Qpower by lia.
    rewrite <- Qpower_opp, Z.opp_involutive. reflexivity. }
  rewrite E. split.
  - apply Qmult_le_0_compat.
    + change 0%Q with (inject_Z 0). now rewrite <- Zle_Qle.
    + apply Qinv_le_0_compat. now apply Qlt_le_weak.
  - apply Qle_shift_div_r; [exact P|].
    rewrite <- inject_Z_mult, <- Zle_Qle. exact Hu.
Qed.

(** C7.  For non-negative [ff <= total] the ratio is computed and lies in
    [0, 1], and it is exactly [0.0] when [total = 0]; for non-negative
    [abc_area], [ff] and [ff_size] the percentage is computed, and lies in
    [0, 100] whenever [total_area = abc_area + ff * ff_size] is positive.
    These are the fields of the record the metrics return, and they do
    return it when both conditions hold. *)
Theorem metrics_bounds (tag : string) (c : Counts.t) (ff_size : Z) :
  ((0 <= Counts.ff_count c <= Counts.total_cells c)%Z ->
   exists x,
     ratio_of (Counts.ff_count c) (Counts.total_cells c) = Ok x
     /\ (0 <= float_value x <= 1)%Q)
  /\ (Counts.total_cells c = 0%Z ->
      ratio_of (Counts.ff_count c) (Counts.total_cells c) = Ok float_zero)
  /\ ((0 <= Counts.abc_area c)%Z -> (0 <= Counts.ff_count c)%Z ->
      (0 <= ff_size)%Z ->
      exists p,
        pct_of (Counts.ff_count c * ff_size)
               (Counts.abc_area c + Counts.ff_count c * ff_size) = Ok p
        /\ ((0 < Counts.abc_area c + Counts.ff_count c * ff_size)%Z ->
            (0 <= float_value p <= 100)%Q))
  /\ (forall r,
        metrics tag c ff_size = Ok r ->
        ratio_of (Counts.ff_count c) (Counts.total_cells c) = Ok (ratio r)
        /\ total_area r
           = (Counts.abc_area c + Counts.ff_count c * ff_size)%Z
        /\ pct_of (Counts.ff_count c * ff_size) (total_area r)
           = Ok (ff_area_pct r))
  /\ ((0 <= Counts.ff_count c <= Counts.total_cells c)%Z ->
      (0 <= Counts.abc_area c)%Z -> (0 <= ff_size)%Z ->
      exists r, metrics tag c ff_size = Ok r).
Proof.
  split; [|split; [|split; [|split]]].
  - intros H. destruct (ratio_of_unit H) as [x [E R]].
    exists x. split; [exact E|]. exact (@in_range_value _ 1 R).
  - intros ->. reflexivity.
  - intros Ha Hf Hw.
    destruct (@pct_of_unit (Counts.ff_count c * ff_size)
                (Counts.abc_area c + Counts.ff_count c * ff_size))
      as [p [E R]]; [nia|].
    exists p. split; [exact E|]. intros _. exact (@in_range_value _ 100 R).
  - intros r H. apply metrics_inv in H as [Hx [Hp E]].
    rewrite E at 2 3. cbn [total_area]. now repeat split.
  - intros Hf Ha Hw.
    apply metrics_returns; try lia;
      assert (0 < 2 ^ 1023)%Z by (apply pow2_pos; lia); nia.
Qed.

(** ** The selection query *)

Local Open Scope string_scope.

Lemma split_on_free (sep : ascii) (x : string) :
  free_of sep x = true -> split_on sep x = [x].
Proof.
  induction x as [|c x IH]; simpl; [reflexivity|].
  destruct (Ascii.eqb c sep); [discriminate|]. simpl.
  intros H. now rewrite (IH H).
Qed.

Lemma split_on_app (sep : ascii) (x y : string) :
  free_of sep x = true ->
  split_on sep (x ++ String sep y) = x :: split_on sep y.
Proof.
  induction x as [|c x IH]; simpl.
  - now rewrite Ascii.eqb_refl.
  - destruct (Ascii.eqb c sep); [discriminate|]. simpl.
    intros H. now rewrite (IH H).
Qed.

(** Splitting a joined list of separator-free items gives the items
    back. *)
Lemma split_on_join (sep : ascii) (items : list string) :
  items <> [] ->
  forallb (free_of sep) items = true ->
  split_on sep (join (String sep "") items) = items.
Proof.
  induction items as [|x items IH]; [contradiction|].
  intros _ H. simpl in H. apply andb_prop in H as [Hx H].
  destruct items as [|y items].
  - simpl. now apply split_on_free.
  - change (join (String sep "") (x :: y :: items))
      with (x ++ String sep (join (String sep "") (y :: items))).
    rewrite split_on_app by exact Hx.
    f_equal. apply IH; [discriminate | exact H].
Qed.

(** C9.  The selection query is one token [t:<type>] per registered type,
    separated by single spaces, in the order of the registry; it is a
    constant of the program, the same in the script of every run. *)
Theorem ff_select_tokens :
  split_on " " ff_select = map selector FF_TYPES
  /\ (forall i t, nth_error FF_TYPES i = Some t ->
                  nth_error (split_on " " ff_select) i = Some ("t:" ++ t))
  /\ length (split_on " " ff_select) = length FF_TYPES
  /\ forall artifact_path flow,
       script artifact_path flow
       = nl ++ "read_rtlil " ++ artifact_path ++ nl ++ synth_cmd flow ++ nl
            ++ "select -count " ++ ff_select ++ nl ++ "select -count *" ++ nl
            ++ "stat" ++ nl ++ "abc -script +strash;print_stats" ++ nl.
Proof.
  assert (E : split_on " " ff_select = map selector FF_TYPES).
  { unfold ff_select. apply split_on_join.
    - discriminate.
    - vm_compute. reflexivity. }
  split; [exact E|]. split; [|split].
  - intros i t H. rewrite E. now rewrite nth_error_map, H.
  - rewrite E. apply length_map.
  - reflexivity.
Qed.

Local Close Scope string_scope.

(** ** Counts are never negative *)

Lemma digit_value_range (c : ascii) :
  is_digit c = true -> (0 <= digit_value c <= 9)%Z.
Proof.
  destruct c as [[] [] [] [] [] [] [] []]; vm_compute;
    try (intros; discriminate); intros _; split; discriminate.
Qed.

Lemma decimal_from_nonneg (ds : text) :
  forallb is_digit ds = true ->
  forall acc,
    (0 <= acc)%Z ->
    (0 <= fold_left (fun acc c => acc * 10 + digit_value c) ds acc)%Z.
Proof.
  induction ds as [|c ds IH]; simpl; intros H acc Hacc; [exact Hacc|].
  apply andb_prop in H as [Hc H]. apply IH; [exact H|].
  pose proof (digit_value_range _ Hc). lia.
Qed.

Lemma decimal_nonneg (ds : text) : all_digits ds -> (0 <= decimal ds)%Z.
Proof.
  intros [_ H]. unfold decimal. apply decimal_from_nonneg; [exact H | lia].
Qed.

Lemma nth_value_nonneg (l : list text) (i : nat) :
  (forall ds, In ds l -> all_digits ds) -> (0 <= nth_value l i)%Z.
Proof.
  intros H. unfold nth_value.
  destruct (nth_error l i) as [ds|] eqn:E; [|lia].
  apply decimal_nonneg, H. now apply nth_error_In with i.
Qed.

Lemma sum_values_nonneg (l : list text) :
  (forall ds, In ds l -> all_digits ds) -> (0 <= sum_values l)%Z.
Proof.
  induction l as [|ds l IH]; simpl; intros H; [lia|].
  pose proof (decimal_nonneg (H ds (or_introl eq_refl))).
  assert (0 <= sum_values l)%Z by (apply IH; intros; apply H; now right).
  lia.
Qed.

Lemma findall_and_digits (s ds : text) :
  In ds (findall and_re s) -> all_digits ds.
Proof.
  unfold findall. rewrite in_map_iff. intros [mt [<- H]].
  destruct (finditer_and_digits _ _ H) as [ds [Hg Hd]].
  unfold group_text. now rewrite Hg.
Qed.

Lemma total_of_nonneg (output : text) : (0 <= total_of output)%Z.
Proof.
  unfold total_of. destruct (search cells_re output) as [m|] eqn:E.
  - destruct (search_cells_digits _ E) as [ds [Hg Hd]].
    unfold group_text. rewrite Hg. now apply decimal_nonneg.
  - apply nth_value_nonneg, findall_objects_digits.
Qed.

(** The counts of a report are natural numbers. *)
Lemma counts_of_nonneg (output : text) :
  (0 <= Counts.ff_count (counts_of output))%Z
  /\ (0 <= Counts.total_cells (counts_of output))%Z
  /\ (0 <= Counts.abc_area (counts_of output))%Z.
Proof.
  cbn. split; [|split].
  - apply nth_value_nonneg, findall_objects_digits.
  - apply total_of_nonneg.
  - apply sum_values_nonneg, findall_and_digits.
Qed.

(** ** Printing *)

Lemma format_int_spec (n : Z) :
  format_int n = if printable n then Ok (str n) else Raise ValueError.
Proof. reflexivity. Qed.

Lemma csv_line_spec (r : result) :
  csv_line r
  = if printable_record r then Ok (csv_row r) else Raise ValueError.
Proof.
  unfold csv_line, printable_record, format_int.
  destruct (printable (ff r)); [|reflexivity].
  destruct (printable (logic r)); [|reflexivity].
  destruct (printable (total r)); [|reflexivity].
  destruct (printable (abc_area r)); [|reflexivity].
  destruct (printable (ff_area r)); [|reflexivity].
  destruct (printable (total_area r)); reflexivity.
Qed.

Lemma human_line_inv (r : result) (s : string) :
  human_line r = Ok s -> s = human_row r.
Proof.
  unfold human_line, format_int.
  destruct (printable (ff r)); [|discriminate].
  destruct (printable (total r)); [|discriminate].
  destruct (printable (abc_area r)); [|discriminate].
  destruct (printable (ff_area r)); [|discriminate].
  destruct (printable (total_area r)); [|discriminate].
  cbn [bind]. now intros [= <-].
Qed.

Lemma human_line_ok (r : result) :
  printable_record r = true -> human_line r = Ok (human_row r).
Proof.
  unfold human_line, printable_record, format_int. intros H.
  repeat (apply andb_prop in H as [H ?]).
  now repeat match goal with E : printable _ = true |- _ => rewrite E; clear E end.
Qed.

Lemma print_rows_inv (line : result -> outcome string)
      (row : result -> string) (rs : list result) :
  (forall r s, line r = Ok s -> s = row r) ->
  forall ls, print_rows line rs = Ok ls -> ls = map row rs.
Proof.
  intros H. induction rs as [|r rs IH]; intros ls; simpl.
  - now intros [= <-].
  - destruct (line r) as [s| |] eqn:E; [|discriminate|discriminate].
    cbn [bind].
    destruct (print_rows line rs) as [ls'| |]; [|discriminate|discriminate].
    cbn [bind]. intros [= <-]. now rewrite (H _ _ E), (IH _ eq_refl).
Qed.

Lemma print_rows_ok (line : result -> outcome string)
      (row : result -> string) (rs : list result) :
  (forall r, In r rs -> line r = Ok (row r)) ->
  print_rows line rs = Ok (map row rs).
Proof.
  induction rs as [|r rs IH]; intros H; simpl; [reflexivity|].
  rewrite (H r (or_introl eq_refl)). cbn [bind].
  rewrite IH by (intros; apply H; now right). reflexivity.
Qed.

(** What is printed, when printing returns, are the lines of [render]. *)
Lemma emit_inv (a : args) (rs : list result) (lines : list string) :
  emit a rs = Ok lines -> lines = render a rs.
Proof.
  unfold emit, render, print_csv, print_human, render_csv, render_human.
  destruct (csv a).
  - destruct (print_rows csv_line rs) as [ls| |] eqn:E;
      [|discriminate|discriminate].
    cbn [bind]. intros [= <-]. f_equal.
    apply (print_rows_inv csv_line csv_row) with (rs := rs); [|exact E].
    intros r s. rewrite csv_line_spec.
    destruct (printable_record r); [now intros [= <-] | discriminate].
  - rewrite format_int_spec.
    destruct (printable (ff_size a)); [|discriminate]. cbn [bind].
    destruct (print_rows human_line rs) as [ls| |] eqn:E;
      [|discriminate|discriminate].
    cbn [bind]. intros [= <-]. f_equal.
    exact (@print_rows_inv human_line human_row rs human_line_inv _ E).
Qed.

(** Printing returns when the integers can be printed. *)
Lemma emit_ok (a : args) (rs : list result) :
  (forall r, In r rs -> printable_record r = true) ->
  printable (ff_size a) = true ->
  emit a rs = Ok (render a rs).
Proof.
  intros H Hw.
  unfold emit, render, print_csv, print_human, render_csv, render_human.
  destruct (csv a).
  - rewrite (print_rows_ok csv_line csv_row); [reflexivity|].
    intros r Hr. now rewrite csv_line_spec, (H r Hr).
  - rewrite format_int_spec, Hw. cbn [bind].
    rewrite (print_rows_ok human_line human_row); [reflexivity|].
    intros r Hr. apply human_line_ok, H, Hr.
Qed.

(** Printing raises nothing but [ValueError]. *)
Lemma print_rows_raises (line : result -> outcome string)
      (rs : list result) :
  (forall r, line r = Ok (match line r with Ok s => s | _ => ""%string end)
             \/ line r = Raise ValueError) ->
  print_rows line rs = Raise ValueError
  \/ exists ls, print_rows line rs = Ok ls.
Proof.
  intros H. induction rs as [|r rs IH]; simpl; [eauto|].
  destruct (H r) as [E|E]; rewrite E; cbn [bind]; [|now left].
  destruct IH as [E'|[ls E']]; rewrite E'; cbn [bind]; eauto.
Qed.

Lemma emit_cases (a : args) (rs : list result) :
  emit a rs = Raise ValueError \/ emit a rs = Ok (render a rs).
Proof.
  destruct (emit a rs) as [lines|e|] eqn:E.
  - right. now rewrite (emit_inv _ _ E).
  - left. revert E. unfold emit, print_csv, print_human.
    destruct (csv a).
    + destruct (@print_rows_raises csv_line rs) as [R|[ls R]].
      * intros r. rewrite csv_line_spec. destruct (printable_record r); eauto.
      * rewrite R. now intros [= <-].
      * rewrite R. discriminate.
    + rewrite format_int_spec.
      destruct (printable (ff_size a)); [|now intros [= <-]]. cbn [bind].
      destruct (@print_rows_raises human_line rs) as [R|[ls R]].
      * intros r. unfold human_line, format_int.
        destruct (printable (ff r)); [|now right].
        destruct (printable (total r)); [|now right].
        destruct (printable (abc_area r)); [|now right].
        destruct (printable (ff_area r)); [|now right].
        destruct (printable (total_area r)); [now left|now right].
      * rewrite R. now intros [= <-].
      * rewrite R. discriminate.
  - exfalso. revert E. unfold emit, print_csv, print_human.
    destruct (csv a).
    + destruct (@print_rows_raises csv_line rs) as [R|[ls R]].
      * intros r. rewrite csv_line_spec. destruct (printable_record r); eauto.
      * rewrite R. discriminate.
      * rewrite R. discriminate.
    + rewrite format_int_spec.
      destruct (printable (ff_size a)); [|discriminate]. cbn [bind].
      destruct (@print_rows_raises human_line rs) as [R|[ls R]].
      * intros r. unfold human_line, format_int.
        destruct (printable (ff r)); [|now right].
        destruct (printable (total r)); [|now right].
        destruct (printable (abc_area r)); [|now right].
        destruct (printable (ff_area r)); [|now right].
        destruct (printable (total_area r)); [now left|now right].
      * rewrite R. discriminate.
      * rewrite R. discriminate.
Qed.

(** ** The run *)

Section Run.

Variable run_yosys : string -> string -> text.
Variable path_join : string -> string -> string.
Variable path_exists : string -> bool.
Variable params : Type.
Variable params_from_str : list string -> params.
Variable params_given : params -> bool.
Variable fmt_params : params -> string.
Variable discover_designs : string -> list string.
Variable a : args.

Local Abbreviation artifact_of := (artifact_of path_join).
Local Abbreviation present := (present path_join path_exists).
Local Abbreviation absent := (absent path_join path_exists).
Local Abbreviation missing_message := (missing_message path_join).
Local Abbreviation output_of := (output_of run_yosys path_join a).
Local Abbreviation processed := (processed run_yosys path_join a).
Local Abbreviation shown_of := (shown_of run_yosys path_join a).
Local Abbreviation records_of :=
  (records_of run_yosys path_join path_exists a).
Local Abbreviation designs :=
  (designs params_from_str params_given fmt_params discover_designs a).
Local Abbreviation recorded :=
  (recorded run_yosys path_join path_exists params_from_str params_given
            fmt_params discover_designs a).
Local Abbreviation the_run :=
  (main run_yosys path_join path_exists params_from_str params_given
        fmt_params discover_designs a).
Local Abbreviation to_run :=
  (designs_to_run params_from_str params_given fmt_params discover_designs a).

(** One turn of the loop: a message for a missing artifact, a record and
    the dump for one that is there, or the failure of its processing. *)
Lemma step_spec (st : loop_state) (d : string * string) :
  step run_yosys path_join path_exists a st d
  = if present d
    then r <- processed d ;;
         Ok (MkLoop (out st ++ shown_of d) (err st) (results st ++ [r]))
    else Ok (MkLoop (out st) (err st ++ [missing_message d]) (results st)).
Proof.
  unfold step, present, artifact_of, processed, shown_of, output_of,
    artifact_of.
  destruct (path_exists (path_join "artifacts" (snd d ++ ".il")));
    [|reflexivity].
  cbn [negb]. rewrite get_counts_spec.
  destruct (readable _); [|reflexivity]. cbn [bind fst snd].
  destruct (metrics _ _ _); reflexivity.
Qed.

Lemma loop_returns (ds : list (string * string)) :
  forall st st',
    loop run_yosys path_join path_exists a ds st = Ok st'
    <-> exists rs,
          Forall2 (fun d r => processed d = Ok r) (filter present ds) rs
          /\ st' = MkLoop (out st ++ flat_map shown_of (filter present ds))
                          (err st ++ map missing_message (filter absent ds))
                          (results st ++ rs).
Proof.
  induction ds as [|d ds IH]; intros st st'; simpl.
  - split.
    + intros [= <-]. exists []. split; [constructor|].
      rewrite !app_nil_r. now destruct st.
    + intros [rs [F ->]]. inversion F; subst.
      rewrite !app_nil_r. now destruct st.
  - rewrite step_spec. unfold absent.
    destruct (present d) eqn:P; cbn [negb].
    + destruct (processed d) as [r| |] eqn:E; cbn [bind].
      * rewrite IH. cbn [out err results]. split.
        -- intros [rs [F ->]]. exists (r :: rs).
           split; [now constructor|].
           simpl. now rewrite <- !app_assoc.
        -- intros [rs [F ->]]. inversion F as [|x y l l' Hxy F']; subst.
           assert (y = r) as -> by congruence.
           exists l'. split; [exact F'|].
           simpl. now rewrite <- !app_assoc.
      * split; [discriminate|].
        intros [rs [F _]]. inversion F; subst. congruence.
      * split; [discriminate|].
        intros [rs [F _]]. inversion F; subst. congruence.
    + cbn [bind]. rewrite IH. cbn [out err results]. split.
      * intros [rs [F ->]]. exists rs. split; [exact F|].
        simpl. now rewrite <- !app_assoc.
      * intros [rs [F ->]]. exists rs. split; [exact F|].
        simpl. now rewrite <- !app_assoc.
Qed.

(** The loop in closed form: the records of the designs whose artifact
    exists, their dumps and a message for each of the others, or the first
    failure. *)
Lemma loop_spec (ds : list (string * string)) (st : loop_state) :
  loop run_yosys path_join path_exists a ds st
  = (rs <- records_of ds ;;
     Ok (MkLoop (out st ++ flat_map shown_of (filter present ds))
                (err st ++ map missing_message (filter absent ds))
                (results st ++ rs))).
Proof.
  revert st. induction ds as [|d ds IH]; intros st; simpl.
  - rewrite !app_nil_r. now destruct st.
  - rewrite step_spec. unfold absent.
    destruct (present d); cbn [negb].
    + destruct (processed d) as [r| |]; cbn [bind];
        [|reflexivity|reflexivity].
      rewrite IH. destruct (records_of ds) as [rs| |];
        cbn [bind out err results]; [|reflexivity|reflexivity].
      simpl. now rewrite <- !app_assoc.
    + cbn [bind]. rewrite IH. destruct (records_of ds) as [rs| |];
        cbn [bind out err results]; [|reflexivity|reflexivity].
      simpl. now rewrite <- !app_assoc.
Qed.

Lemma records_length (ds : list (string * string)) (rs : list result) :
  records_of ds = Ok rs -> length rs = length (filter present ds).
Proof.
  revert rs. induction ds as [|d ds IH]; intros rs; simpl.
  - now intros [= <-].
  - destruct (present d); [|apply IH].
    destruct (processed d) as [r| |]; cbn [bind];
      [|discriminate|discriminate].
    destruct (records_of ds) as [rs'| |]; cbn [bind];
      [|discriminate|discriminate].
    intros [= <-]. simpl. now rewrite (IH _ eq_refl).
Qed.

Lemma present_absent_length (ds : list (string * string)) :
  length (filter present ds) + length (filter absent ds) = length ds.
Proof.
  unfold absent. induction ds as [|d ds IH]; simpl; [reflexivity|].
  destruct (present d); simpl; lia.
Qed.

(** The run in closed form. *)
Lemma main_spec :
  main run_yosys path_join path_exists params_from_str params_given
       fmt_params discover_designs a
  = match to_run with
    | None => Ok (MkRun [] ["No designs found in artifacts/"%string] 1)
    | Some ds =>
        rs <- records_of ds ;;
        match rs with
        | [] =>
            Ok (MkRun [] (map missing_message (filter absent ds)
                            ++ ["No results"%string]) 1)
        | _ :: _ =>
            lines <- emit a rs ;;
            Ok (MkRun (flat_map shown_of (filter present ds) ++ lines)
                      (map missing_message (filter absent ds)) 0)
        end
    end.
Proof.
  unfold main. destruct to_run as [ds|]; [|reflexivity].
  rewrite loop_spec.
  destruct (records_of ds) as [rs| |] eqn:R;
    cbn [bind out err results app]; [|reflexivity|reflexivity].
  destruct rs as [|r rs]; [|reflexivity].
  apply records_length in R. simpl in R.
  destruct (filter present ds); [reflexivity | discriminate R].
Qed.

(** With a weight that is not negative every float of the run is a
    number: the processing of a design returns its record or raises, and so
    does the run. *)
Lemma processed_followed (d : string * string) :
  (0 <= ff_size a)%Z ->
  (exists r, processed d = Ok r)
  \/ processed d = Raise ValueError
  \/ processed d = Raise OverflowError.
Proof.
  intros Hw. unfold processed. rewrite get_counts_spec.
  destruct (readable _); [|now right; left]. cbn [bind fst].
  destruct (counts_of_nonneg
              (run_yosys (yosys a) (script (artifact_of d) (flow a))))
    as [Hf [_ Ha]].
  destruct (metrics_followed (snd d) _ Hf Ha Hw) as [[r E]|E]; rewrite E;
    [left; now exists r | now right; right].
Qed.

Lemma records_followed (ds : list (string * string)) :
  (0 <= ff_size a)%Z ->
  (exists rs, records_of ds = Ok rs)
  \/ records_of ds = Raise ValueError
  \/ records_of ds = Raise OverflowError.
Proof.
  intros Hw. induction ds as [|d ds IH]; simpl; [left; now exists []|].
  destruct (present d); [|exact IH].
  destruct (processed_followed d Hw) as [[r E]|[E|E]]; rewrite E;
    cbn [bind]; [|now right; left|now right; right].
  destruct IH as [[rs E']|[E'|E']]; rewrite E'; cbn [bind];
    [left; now exists (r :: rs) | now right; left | now right; right].
Qed.

Lemma run_followed :
  (0 <= ff_size a)%Z ->
  (exists run, the_run = Ok run)
  \/ the_run = Raise ValueError
  \/ the_run = Raise OverflowError.
Proof.
  intros Hw. rewrite main_spec.
  destruct to_run as [ds|]; [|left; eauto].
  destruct (records_followed ds Hw) as [[rs E]|[E|E]]; rewrite E;
    cbn [bind]; [|now right; left|now right; right].
  destruct rs as [|r rs]; [left; eauto|].
  destruct (emit_cases a (r :: rs)) as [E'|E']; rewrite E'; cbn [bind];
    [now right; left | left; eauto].
Qed.

Lemma forall2_nil {A B : Type} (R : A -> B -> Prop) (l : list A) :
  Forall2 R l [] -> l = [].
Proof. inversion 1. reflexivity. Qed.

Lemma recorded_unique (ds : list (string * string)) (rs rs' : list result) :
  Forall2 (fun d r => processed d = Ok r) ds rs ->
  Forall2 (fun d r => processed d = Ok r) ds rs' -> rs = rs'.
Proof.
  intros F. revert rs'. induction F; intros rs' F'; inversion F'; subst.
  - reflexivity.
  - f_equal; [congruence | now apply IHF].
Qed.

(** Which designs are run. *)
Lemma designs_named (name : string) :
  arg_design a = Some name -> name <> ""%string ->
  to_run
  = Some [(name,
           if params_given (params_from_str (param a))
           then (name ++ "_" ++ fmt_params (params_from_str (param a)))%string
           else name)].
Proof.
  intros E N. unfold designs_to_run. rewrite E.
  destruct name as [|c s]; [contradiction | reflexivity].
Qed.

Lemma designs_discovered :
  arg_design a = None \/ arg_design a = Some ""%string ->
  to_run
  = match discover_designs "artifacts"%string with
    | [] => None
    | d :: ds => Some (map (fun x => (x, x)) (d :: ds))
    end.
Proof. unfold designs_to_run. now intros [-> | ->]. Qed.

Lemma designs_none :
  to_run = None
  <-> (arg_design a = None \/ arg_design a = Some ""%string)
      /\ discover_designs "artifacts"%string = [].
Proof.
  unfold designs_to_run.
  destruct (arg_design a) as [[|c d]|];
    destruct (discover_designs "artifacts") as [|x xs];
    split; try discriminate; try (intros [[H|H] H']; discriminate);
    intros _; split; auto.
Qed.

(** The run that ends normally, in closed form. *)
Lemma main_returns (run : run_result) :
  the_run = Ok run
  <-> (to_run = None
       /\ run = MkRun [] ["No designs found in artifacts/"%string] 1)
      \/ exists ds rs,
           to_run = Some ds
           /\ Forall2 (fun d r => processed d = Ok r) (filter present ds) rs
           /\ match rs with
              | [] =>
                  run = MkRun [] (map missing_message (filter absent ds)
                                    ++ ["No results"%string]) 1
              | _ :: _ =>
                  emit a rs = Ok (render a rs)
                  /\ run = MkRun (flat_map shown_of (filter present ds)
                                    ++ render a rs)
                                 (map missing_message (filter absent ds)) 0
              end.
Proof.
  unfold main. destruct to_run as [ds|].
  - split.
    + intros H. right. exists ds.
      destruct (loop run_yosys path_join path_exists a ds (MkLoop [] [] []))
        as [st| |] eqn:L; [|discriminate|discriminate].
      apply loop_returns in L as [rs [F ->]].
      cbn [bind out err results app] in H. exists rs.
      split; [reflexivity|]. split; [exact F|].
      destruct rs as [|r rs].
      * rewrite (forall2_nil F) in H. simpl in H.
        now injection H as <-.
      * destruct (emit a (r :: rs)) as [lines| |] eqn:E;
          [|discriminate|discriminate].
        cbn [bind] in H. injection H as <-.
        rewrite (emit_inv _ _ E) in *. now split.
    + intros [[H _]|[ds' [rs [[= <-] [F H]]]]]; [discriminate|].
      assert (L : loop run_yosys path_join path_exists a ds (MkLoop [] [] [])
                  = Ok (MkLoop (flat_map shown_of (filter present ds))
                               (map missing_message (filter absent ds)) rs))
        by (apply loop_returns; exists rs; now split).
      rewrite L. cbn [bind out err results].
      destruct rs as [|r rs].
      * subst run. now rewrite (forall2_nil F).
      * destruct H as [E ->]. now rewrite E.
  - split.
    + intros [= <-]. now left.
    + intros [[_ ->]|[ds [rs [H _]]]]; [reflexivity | discriminate].
Qed.

(** C5, as amended.  In a run that ends normally, a design whose artifact
    is missing is reported on the error stream and skipped, and the run
    goes on with the designs that remain: the records are those of the
    designs whose artifact exists, in order, and what is printed is their
    rendering.  The exit code of such a run is 1 exactly when no design was
    found or no record was produced, and 0 exactly when at least one record
    was produced.  The run ends normally exactly when discovery finds
    nothing, or the processing of every design whose artifact exists returns
    and the rows, if any, can be printed; a run in which the processing of a
    design or the printing raises dies of that exception, whatever was
    recorded before.  The designs are the one named, under its tag, or else
    those discovered.  With a weight that is not negative a run does one or
    the other: it ends normally, or dies of [ValueError] or of
    [OverflowError]. *)
Theorem missing_artifacts_and_exit_code :
  (forall run,
     the_run = Ok run ->
     (forall d, In d designs -> present d = false ->
                In (missing_message d) (stderr run))
     /\ exists rs,
          recorded rs
          /\ (to_run <> None ->
              stderr run
              = map missing_message (filter absent designs)
                  ++ match rs with
                     | [] => ["No results"%string]
                     | _ :: _ => []
                     end)
          /\ (rs <> [] ->
              emit a rs = Ok (render a rs)
              /\ stdout run
                 = flat_map shown_of (filter present designs) ++ render a rs)
          /\ (exit_code run = 1%Z <-> to_run = None \/ rs = [])
          /\ (exit_code run = 0%Z <-> rs <> []))
  /\ ((exists run, the_run = Ok run)
      <-> to_run = None
          \/ exists rs,
               recorded rs
               /\ (rs = [] \/ emit a rs = Ok (render a rs)))
  /\ (to_run = None
      <-> (arg_design a = None \/ arg_design a = Some ""%string)
          /\ discover_designs "artifacts"%string = [])
  /\ (forall name,
        arg_design a = Some name -> name <> ""%string ->
        designs
        = [(name,
            if params_given (params_from_str (param a))
            then (name ++ "_"
                       ++ fmt_params (params_from_str (param a)))%string
            else name)])
  /\ (arg_design a = None \/ arg_design a = Some ""%string ->
      designs = map (fun x => (x, x)) (discover_designs "artifacts"%string))
  /\ ((0 <= ff_size a)%Z ->
      (exists run, the_run = Ok run)
      \/ the_run = Raise ValueError
      \/ the_run = Raise OverflowError).
Proof.
  split; [|split; [|split; [exact designs_none|split; [|split]]]].
  - intros run H. apply main_returns in H.
    unfold recorded, designs.
    destruct H as [[E ->]|[ds [rs [E [F H]]]]]; rewrite E.
    + split; [intros d []|]. exists []. cbn [filter stderr stdout exit_code].
      split; [constructor|].
      split; [intros N; now destruct N|].
      split; [intros N; now destruct N|].
      split; [split; [now left | reflexivity]|].
      split; [discriminate | intros N; now destruct N].
    + assert (M : forall d, In d ds -> present d = false ->
                            In (missing_message d)
                               (map missing_message (filter absent ds))).
      { intros d Hd Hp. apply in_map, filter_In. split; [exact Hd|].
        unfold absent. now rewrite Hp. }
      destruct rs as [|r rs].
      * subst run. cbn [stderr stdout exit_code]. split.
        { intros d Hd Hp. apply in_or_app. left. now apply M. }
        exists []. split; [exact F|].
        split; [reflexivity|].
        split; [intros N; now destruct N|].
        split; [split; [now right | reflexivity]|].
        split; [discriminate | intros N; now destruct N].
      * destruct H as [Em ->]. cbn [stderr stdout exit_code]. split.
        { intros d Hd Hp. now apply M. }
        exists (r :: rs). split; [exact F|].
        split; [intros _; now rewrite app_nil_r|].
        split; [intros _; now split|].
        split; [split; [discriminate | intros [N|N]; discriminate]|].
        split; [discriminate | reflexivity].
  - unfold recorded, designs. split.
    + intros [run H]. apply main_returns in H.
      destruct H as [[E _]|[ds [rs [E [F H]]]]]; [now left|].
      right. rewrite E. exists rs. split; [exact F|].
      destruct rs as [|r rs]; [now left | right; now destruct H].
    + intros [E|[rs [F H]]].
      * eexists. apply main_returns. left. now split.
      * destruct to_run as [ds|] eqn:E.
        -- destruct rs as [|r rs].
           ++ eexists. apply main_returns. right. exists ds, [].
              split; [exact E|]. split; [exact F|reflexivity].
           ++ destruct H as [H|H]; [discriminate|].
              eexists. apply main_returns. right. exists ds, (r :: rs).
              split; [exact E|]. split; [exact F|].
              split; [exact H|reflexivity].
        -- eexists. apply main_returns. left. split; [exact E|reflexivity].
  - intros name E N. unfold designs. now rewrite (designs_named E N).
  - intros E. unfold designs. rewrite (designs_discovered E).
    now destruct (discover_designs "artifacts").
  - exact run_followed.
Qed.

End Run.

Local Open Scope string_scope.

(** Two designs.  The first has the report of the scenario and its record
    is produced; the report of the second counts [10 ^ 400] flip-flops in
    one cell, and the division of line 159 raises [OverflowError].  The run
    dies, with the exit status 1. *)
Lemma run_dies_after_a_record :
  ~ stated_exit_codes
      (fun _ s =>
         if String.eqb s (script "artifacts/a.il" "")
         then scenario
         else unlines [str (10 ^ 400) ++ " objects"; "1 cells"])
      (fun x y => x ++ "/" ++ y) (fun _ => true)
      (fun l : list string => l)
      (fun l : list string => negb (Nat.eqb (length l) 0)) (join "_")
      (fun _ => ["a"; "b"])
      (MkArgs "yosys" None [] "" 6 true false).
Proof.
  intros H.
  assert (E : exit_status
                (main (fun _ s =>
                         if String.eqb s (script "artifacts/a.il" "")
                         then scenario
                         else unlines [str (10 ^ 400) ++ " objects";
                                       "1 cells"])
                      (fun x y => x ++ "/" ++ y) (fun _ => true)
                      (fun l : list string => l)
                      (fun l : list string => negb (Nat.eqb (length l) 0))
                      (join "_") (fun _ => ["a"; "b"])
                      (MkArgs "yosys" None [] "" 6 true false))
              = Some 1%Z) by (vm_compute; reflexivity).
  assert (C : Some 1%Z = Some 0%Z).
  { rewrite <- E.
    eapply H with (ds1 := [("a", "a")]) (ds2 := [("b", "b")]);
      [reflexivity | vm_compute; reflexivity | discriminate]. }
  discriminate C.
Qed.

Local Close Scope string_scope.

(** ** Rendering claims *)

Local Open Scope string_scope.

Lemma free_of_app (sep : ascii) (x y : string) :
  free_of sep (x ++ y) = free_of sep x && free_of sep y.
Proof.
  induction x as [|c x IH]; simpl; [reflexivity|].
  now rewrite IH, andb_assoc.
Qed.

Lemma uint_free_of_comma (d : Decimal.uint) :
  free_of "," (NilEmpty.string_of_uint d) = true.
Proof. induction d; simpl; trivial. Qed.

Lemma str_free_of_comma (n : Z) : free_of "," (str n) = true.
Proof.
  unfold str, NilZero.string_of_int, NilZero.string_of_uint.
  destruct (Z.to_int n) as [d|d]; destruct d; simpl; trivial;
    apply uint_free_of_comma.
Qed.

Lemma digit_char_free_of_comma (d : Z) :
  (0 <= d < 10)%Z -> Ascii.eqb (digit_char d) "," = false.
Proof.
  intros H.
  assert (d = 0 \/ d = 1 \/ d = 2 \/ d = 3 \/ d = 4 \/ d = 5 \/ d = 6
          \/ d = 7 \/ d = 8 \/ d = 9)%Z as C by lia.
  repeat (destruct C as [->|C]; [reflexivity|]). now subst.
Qed.



Lemma fixed_digits_free_of_comma (k : nat) (n : Z) :
  free_of "," (fixed_digits k n) = true.
Proof.
  revert n. induction k as [|k IH]; intros n; simpl; [reflexivity|].
  rewrite free_of_app, IH. simpl.
  rewrite digit_char_free_of_comma; [reflexivity|].
  apply Z.mod_pos_bound. lia.
Qed.

Lemma format_f_free_of_comma (prec : nat) (x : float) :
  free_of "," (format_f prec x) = true.
Proof.
  unfold format_f. rewrite !free_of_app, str_free_of_comma.
  assert (S : free_of "," (if (Fnum x <? 0)%Z then "-" else "") = true)
    by (destruct (Fnum x <? 0)%Z; reflexivity).
  rewrite S. cbn [andb].
  destruct prec as [|p]; [reflexivity|].
  rewrite free_of_app, fixed_digits_free_of_comma. reflexivity.
Qed.

Lemma split_on_sep (sep : ascii) (x y : string) :
  free_of sep x = true ->
  split_on sep (x ++ String sep "" ++ y) = x :: split_on sep y.
Proof. exact (@split_on_app sep x y). Qed.

(** The fields of a row, read back by splitting at the commas. *)
Lemma csv_row_fields (r : result) :
  free_of "," (design r) = true ->
  split_on "," (csv_row r)
  = [design r; str (ff r); str (logic r); str (total r);
     format_f 4 (ratio r); str (abc_area r); str (ff_area r);
     str (total_area r); format_f 2 (ff_area_pct r)].
Proof.
  intros H. unfold csv_row.
  rewrite split_on_sep by exact H.
  repeat (rewrite split_on_sep by apply str_free_of_comma).
  rewrite split_on_sep by apply format_f_free_of_comma.
  repeat (rewrite split_on_sep by apply str_free_of_comma).
  rewrite split_on_free by apply format_f_free_of_comma.
  reflexivity.
Qed.


Local Close Scope string_scope.

(** * Further properties *)

(** ** The counts that are returned *)

(** X1.  [get_counts] returns exactly when none of the integers it converts
    has more digits than the limit, as is the case for every text without a
    stretch of digits beyond the limit; otherwise it raises [ValueError].
    The three counts it returns are non-negative integers. *)
Theorem counts_are_nonnegative
        (run_yosys : string -> string -> text)
        (yosys_bin artifact_path flow : string) :
  let output := run_yosys yosys_bin (script artifact_path flow) in
  (readable output = true ->
   exists c,
     get_counts run_yosys yosys_bin artifact_path flow = Ok (c, output)
     /\ (0 <= Counts.ff_count c)%Z
     /\ (0 <= Counts.total_cells c)%Z
     /\ (0 <= Counts.abc_area c)%Z)
  /\ (readable output = false ->
      get_counts run_yosys yosys_bin artifact_path flow = Raise ValueError)
  /\ (digits_bounded output -> readable output = true)
  /\ (forall c out,
        get_counts run_yosys yosys_bin artifact_path flow = Ok (c, out) ->
        (0 <= Counts.ff_count c)%Z
        /\ (0 <= Counts.total_cells c)%Z
        /\ (0 <= Counts.abc_area c)%Z).
Proof.
  intros output.
  pose proof (counts_of_nonneg output) as N.
  split; [|split; [|split]].
  - intros R. eexists. split; [now apply get_counts_ok | exact N].
  - apply get_counts_returns_iff.
  - apply bounded_readable.
  - intros c out H. apply get_counts_inv in H. fold output in H.
    destruct H as [_ [-> _]]. exact N.
Qed.

(** ** A report without digits *)

Lemma digit_free_no_digits (x ds y : text) :
  all_digits ds -> ~ digit_free (x ++ ds ++ y).
Proof.
  intros [Hne Hd]. unfold digit_free. rewrite !forallb_app.
  destruct ds as [|d ds]; [contradiction|]. simpl in *.
  apply andb_prop in Hd as [Hd0 _]. rewrite Hd0. simpl.
  rewrite andb_false_r. discriminate.
Qed.

Lemma digit_free_no_objects (s : text) :
  digit_free s -> no_occ objects_occ None s.
Proof.
  intros F a m ds post [Hs [Hm Hd]]. subst s m. rewrite <- !app_assoc in F.
  exact (digit_free_no_digits _ _ Hd F).
Qed.

Lemma digit_free_no_and (s : text) :
  digit_free s -> no_occ and_occ None s.
Proof.
  intros F a m ds post [Hs [w1 [w2 [Hm [_ [_ [_ [Hd _]]]]]]]]. subst s m.
  rewrite <- !app_assoc in F.
  rewrite !(app_assoc a), !app_assoc, <- (app_assoc _ ds post) in F.
  exact (digit_free_no_digits _ _ Hd F).
Qed.

Lemma digit_free_no_cells (s : text) :
  digit_free s -> no_occ cells_occ None s.
Proof.
  intros F a m ds post [Hs [w1 [w2 [w3 [Hm [_ [_ [Hd _]]]]]]]]. subst s m.
  rewrite <- !app_assoc in F. rewrite (app_assoc a) in F.
  exact (digit_free_no_digits _ _ Hd F).
Qed.

(** X2.  A report that contains no decimal digit at all (an empty one, or
    an error message of the tool) is not an error: the counts are 0, 0, 0,
    both ratios are exactly [0.0], and the CSV row is
    [<tag>,0,0,0,0.0000,0,0,0,0.00], whatever the weight. *)
Theorem digit_free_report_gives_zero_row
        (run_yosys : string -> string -> text)
        (yosys_bin artifact_path flow tag : string) (ff_size : Z) :
  digit_free (run_yosys yosys_bin (script artifact_path flow)) ->
  exists output r,
    get_counts run_yosys yosys_bin artifact_path flow
    = Ok (Counts.Mk 0 0 0, output)
    /\ metrics tag (Counts.Mk 0 0 0) ff_size = Ok r
    /\ ratio r = float_zero
    /\ ff_area_pct r = float_zero
    /\ csv_row r = (tag ++ ",0,0,0,0.0000,0,0,0,0.00")%string.
Proof.
  intros F.
  destruct (counts_without_match (digit_free_no_objects F)
              (digit_free_no_cells F) (digit_free_no_and F)) as [E R].
  eexists _, _. split; [|split; [reflexivity|]].
  - rewrite <- E. now apply get_counts_ok.
  - cbn. repeat split.
Qed.

Lemma digit_free_report_gives_zero_row_witness :
  exists output r,
    get_counts (fun _ _ => chars "ERROR: Can't open input file")
               "yosys" "artifacts/d.il" ""
    = Ok (Counts.Mk 0 0 0, output)
    /\ metrics "d" (Counts.Mk 0 0 0) 6 = Ok r
    /\ ratio r = float_zero
    /\ ff_area_pct r = float_zero
    /\ csv_row r = ("d" ++ ",0,0,0,0.0000,0,0,0,0.00")%string.
Proof.
  apply (@digit_free_report_gives_zero_row
           (fun _ _ => chars "ERROR: Can't open input file")
           "yosys" "artifacts/d.il" "" "d" 6).
  reflexivity.
Defined.

(** ** The tool's two streams ([run_yosys]) *)

Lemma objects_at_tail (y v v' ds r : text) :
  objects_at (y ++ chars " objects" ++ v) = Some (ds, r) ->
  exists r', objects_at (y ++ chars " objects" ++ v') = Some (ds, r').
Proof.
  unfold objects_at.
  assert (S : forall z,
             y ++ chars " objects" ++ z
             = y ++ " "%char :: (chars "objects" ++ z)) by reflexivity.
  rewrite !S.
  destruct (@while_before_stop is_digit y " " (chars "objects" ++ v) eq_refl)
    as [T D].
  destruct (@while_before_stop is_digit y " " (chars "objects" ++ v') eq_refl)
    as [T' D'].
  rewrite T, D, T', D'. clear T D T' D'.
  destruct (take_while is_digit y) as [|d0 ds0]; [discriminate|].
  set (y1 := drop_while is_digit y).
  assert (R : forall z,
             y1 ++ " "%char :: (chars "objects" ++ z)
             = (y1 ++ chars " objects") ++ z)
    by (intros z; rewrite <- app_assoc; reflexivity).
  rewrite !R.
  assert (L : length (chars " objects") <= length (y1 ++ chars " objects"))
    by (rewrite length_app; lia).
  rewrite (@strip_within _ _ v L), (@strip_within _ _ v' L).
  destruct (strip (chars " objects") (y1 ++ chars " objects")) as [t|];
    [|discriminate].
  intros [= <- _]. eauto.
Qed.

(** What follows the first [objects] match does not matter. *)
Lemma first_objects_tail (a m ds post later : text) :
  first_occ objects_occ None (a ++ m ++ post) a m ds post ->
  first_occ objects_occ None (a ++ m ++ later) a m ds later.
Proof.
  intros [[_ Ho] Hmin]. split; [split; [reflexivity | exact Ho]|].
  destruct Ho as [Hm Hd].
  intros a' m' ds' post' [Hs Ho'].
  destruct (Nat.le_gt_cases (length a) (length a')) as [L|L]; [exact L|].
  exfalso.
  destruct (app_prefix_split _ _ _ _ Hs) as [x [Ha Hx]]; [lia|].
  apply objects_occ_at in Ho'. rewrite Hx, Hm in Ho'.
  assert (E : forall z,
             x ++ (ds ++ chars " objects") ++ z
             = (x ++ ds) ++ chars " objects" ++ z)
    by (intros z; rewrite <- !app_assoc; reflexivity).
  rewrite E in Ho'.
  destruct (@objects_at_tail _ _ post _ _ Ho') as [r' Ho''].
  rewrite <- E, <- Hm in Ho''.
  destruct (objects_at_occ (last_before None a') _ Ho'') as [Hs'' O''].
  assert (O : occurs_at objects_occ None (a ++ m ++ post) a'
                        (ds' ++ chars " objects") ds' r').
  { split; [|exact O'']. rewrite Ha at 1. rewrite <- app_assoc.
    now rewrite Hs''. }
  apply Hmin in O. lia.
Qed.

(** X3.  The report is the tool's standard output followed by its standard
    error, whatever its return code.  What comes on the standard error can
    make the extraction raise, by an integer beyond the limit, but it cannot
    change what is returned: the flip-flop count is that of the first
    [objects] match of the standard output when there is one, and the total
    that of its first [cells] match when that is followed by more output. *)
Theorem stderr_cannot_override_stdout
        (subprocess_run : list string -> CompletedProcess.t)
        (yosys_bin artifact_path flow : string) :
  let result :=
    subprocess_run [yosys_bin; "-p"%string; script artifact_path flow] in
  let out := CompletedProcess.stdout result in
  ((exists c,
      get_counts (Tool.run_yosys subprocess_run) yosys_bin artifact_path flow
      = Ok (c, out ++ CompletedProcess.stderr result))
   <-> readable (out ++ CompletedProcess.stderr result) = true)
  /\ forall c output,
       get_counts (Tool.run_yosys subprocess_run) yosys_bin artifact_path flow
       = Ok (c, output) ->
       output = out ++ CompletedProcess.stderr result
       /\ (forall a m ds post,
             first_occ objects_occ None out a m ds post ->
             Counts.ff_count c = decimal ds)
       /\ (forall a m ds post,
             first_occ cells_occ None out a m ds post ->
             post <> [] ->
             Counts.total_cells c = decimal ds).
Proof.
  intros result out. split.
  - exact (proj1 (get_counts_returns_iff (Tool.run_yosys subprocess_run)
                    yosys_bin artifact_path flow)).
  - intros c output H. apply get_counts_inv in H.
    unfold Tool.run_yosys in H. fold result in H. fold out in H.
    destruct H as [-> [-> _]]. split; [reflexivity|].
    cbn [Counts.ff_count Counts.total_cells counts_of]. split.
    + intros a m ds post Hf.
      assert (E : out = a ++ m ++ post) by (now destruct Hf as [[E _] _]).
      rewrite E in Hf |- *. rewrite <- !app_assoc.
      exact (ff_count_of_first (first_objects_tail _ Hf)).
    + intros a m ds post Hf Hne.
      assert (E : out = a ++ m ++ post) by (now destruct Hf as [[E _] _]).
      rewrite E in Hf |- *. rewrite <- !app_assoc.
      apply total_of_first with a m (post ++ CompletedProcess.stderr result).
      apply first_cells_tail with post; [exact Hf|].
      destruct Hf as [[_ [w1 [w2 [w3 H]]]] _].
      destruct post as [|c0 post]; [contradiction|]. simpl. tauto.
Qed.

(** ** The run as a whole *)

Lemma render_length (a : args) (rs : list result) :
  length (render a rs) = S (length rs).
Proof.
  unfold render, render_csv, render_human.
  destruct (csv a); simpl; now rewrite length_map.
Qed.

Lemma flat_map_nil {A B : Type} (l : list A) :
  flat_map (fun _ : A => @nil B) l = [].
Proof. induction l as [|x l IH]; simpl; trivial. Qed.

Lemma shown_of_length (run_yosys : string -> string -> text)
      (path_join : string -> string -> string) (a : args)
      (ds : list (string * string)) :
  length (flat_map (shown_of run_yosys path_join a) ds)
  = (if verbose a then 3 else 0) * length ds.
Proof.
  induction ds as [|d ds IH]; simpl; [now destruct (verbose a)|].
  rewrite length_app, IH. unfold shown_of. destruct (verbose a); simpl; lia.
Qed.

Local Open Scope string_scope.

(** X4.  With [--design NAME] the run looks at one artifact only,
    [artifacts/<tag>.il], where the tag is the name, followed by [_] and the
    formatted parameters when parameters were given.  If the artifact is
    missing, the run prints nothing on the standard output, the two lines
    [Artifact not found: <path>] and [No results] on the standard error, and
    exits with 1.  If it is there, the run is the processing of that design
    followed by the printing of its one record: when both return, the run
    prints the dump (in verbose mode) and the lines of the rendering and
    exits with 0, and when one of them fails the run dies of that
    failure. *)
Theorem single_design_run
        (run_yosys : string -> string -> text)
        (path_join : string -> string -> string)
        (path_exists : string -> bool)
        (params : Type)
        (params_from_str : list string -> params)
        (params_given : params -> bool)
        (fmt_params : params -> string)
        (discover_designs : string -> list string)
        (a : args) (name : string) :
  arg_design a = Some name -> name <> "" ->
  let ps := params_from_str (param a) in
  let tag := if params_given ps then name ++ "_" ++ fmt_params ps else name in
  let path := path_join "artifacts" (tag ++ ".il") in
  let output := run_yosys (yosys a) (script path (flow a)) in
  designs params_from_str params_given fmt_params discover_designs a
  = [(name, tag)]
  /\ main run_yosys path_join path_exists params_from_str params_given
          fmt_params discover_designs a
     = (if path_exists path
        then r <- processed run_yosys path_join a (name, tag) ;;
             lines <- emit a [r] ;;
             Ok (MkRun ((if verbose a
                         then [("=== " ++ name ++ " ===")%string;
                               string_of_list_ascii output; ""%string]
                         else [])
                          ++ lines)%list
                       [] 0)
        else Ok (MkRun [] ["Artifact not found: " ++ path; "No results"] 1))
  /\ (forall r lines, emit a [r] = Ok lines -> lines = render a [r]).
Proof.
  intros Hd Hne ps tag path output.
  pose proof (@designs_named params params_from_str params_given fmt_params
                discover_designs a name Hd Hne) as E.
  fold ps in E. fold tag in E.
  split; [unfold designs; now rewrite E|].
  split; [|intros r lines; apply emit_inv].
  rewrite main_spec, E. cbn [records_of filter].
  unfold absent, present, artifact_of. cbn [snd]. fold path.
  destruct (path_exists path); cbn [negb]; [|reflexivity].
  destruct (processed run_yosys path_join a (name, tag)) as [r| |];
    cbn [bind]; [|reflexivity|reflexivity].
  cbn [flat_map map]. unfold shown_of, output_of, artifact_of.
  cbn [fst snd]. fold path. fold output. now rewrite app_nil_r.
Qed.

Lemma single_design_run_witness :
  arg_design (MkArgs "yosys" (Some "counter") ["width=64"] "" 6 true true)
  = Some "counter"
  /\ "counter" <> ""
  /\ main (fun _ _ => scenario) (fun x y => x ++ "/" ++ y)
          (fun p => String.eqb p "artifacts/counter_width=64.il")
          (fun l => l) (fun l => negb (Nat.eqb (length l) 0)) (join "_")
          (fun _ => ["adder"])
          (MkArgs "yosys" (Some "counter") ["width=64"] "" 6 true true)
     = Ok (MkRun ["=== counter ===";
                  string_of_list_ascii scenario;
                  "";
                  csv_header;
                  "counter_width=64,42,88,130,0.3231,100,252,352,71.59"]
                 [] 0).
Proof.
  split; [reflexivity|]. split; [discriminate|].
  destruct (@single_design_run
              (fun _ _ => scenario) (fun x y => x ++ "/" ++ y)
              (fun p => String.eqb p "artifacts/counter_width=64.il")
              (list string)
              (fun l => l) (fun l => negb (Nat.eqb (length l) 0)) (join "_")
              (fun _ => ["adder"])
              (MkArgs "yosys" (Some "counter") ["width=64"] "" 6 true true)
              "counter" eq_refl ltac:(discriminate)) as [_ [E _]].
  rewrite E. vm_compute. reflexivity.
Defined.

(** X5.  Without [--design] the designs are those discovered in
    [artifacts/], each with its own name as tag, and [--param] has no effect
    at all: the run is the same whatever the parameters and whatever the
    functions that parse and format them (functions of [analyze], taken to
    return). *)
Theorem param_ignored_without_design
        (run_yosys : string -> string -> text)
        (path_join : string -> string -> string)
        (path_exists : string -> bool)
        (discover_designs : string -> list string)
        (a : args)
        (params : Type)
        (params_from_str : list string -> params)
        (params_given : params -> bool)
        (fmt_params : params -> string)
        (params' : Type)
        (params_from_str' : list string -> params')
        (params_given' : params' -> bool)
        (fmt_params' : params' -> string)
        (p' : list string) :
  arg_design a = None \/ arg_design a = Some "" ->
  designs params_from_str params_given fmt_params discover_designs a
  = map (fun d => (d, d)) (discover_designs "artifacts")
  /\ main run_yosys path_join path_exists params_from_str params_given
          fmt_params discover_designs a
     = main run_yosys path_join path_exists params_from_str' params_given'
            fmt_params' discover_designs (with_param a p').
Proof.
  intros Hd. split.
  - unfold designs, designs_to_run.
    destruct Hd as [-> | ->]; now destruct (discover_designs "artifacts").
  - unfold main, designs_to_run, with_param. cbn [arg_design param].
    destruct Hd as [-> | ->]; reflexivity.
Qed.

Lemma param_ignored_without_design_witness :
  designs (fun l => l) (fun l : list string => negb (Nat.eqb (length l) 0))
          (join "_") (fun _ => ["adder"; "counter"])
          (MkArgs "yosys" None ["width=64"] "" 6 true false)
  = [("adder", "adder"); ("counter", "counter")]
  /\ main (fun _ _ => scenario) (fun x y => x ++ "/" ++ y)
          (fun p => String.eqb p "artifacts/adder.il")
          (fun l => l) (fun l : list string => negb (Nat.eqb (length l) 0))
          (join "_") (fun _ => ["adder"; "counter"])
          (MkArgs "yosys" None ["width=64"] "" 6 true false)
     = main (fun _ _ => scenario) (fun x y => x ++ "/" ++ y)
            (fun p => String.eqb p "artifacts/adder.il")
            (fun _ => tt) (fun _ => false) (fun _ => "")
            (fun _ => ["adder"; "counter"])
            (with_param (MkArgs "yosys" None ["width=64"] "" 6 true false)
                        []).
Proof.
  apply (@param_ignored_without_design
           (fun _ _ => scenario) (fun x y => x ++ "/" ++ y)
           (fun p => String.eqb p "artifacts/adder.il")
           (fun _ => ["adder"; "counter"])
           (MkArgs "yosys" None ["width=64"] "" 6 true false)
           (list string) (fun l => l)
           (fun l : list string => negb (Nat.eqb (length l) 0)) (join "_")
           unit (fun _ => tt) (fun _ => false) (fun _ => "") []).
  left. reflexivity.
Defined.

Local Close Scope string_scope.

Local Open Scope string_scope.

Lemma verbose_irrelevant_designs
      (params : Type) (params_from_str : list string -> params)
      (params_given : params -> bool) (fmt_params : params -> string)
      (discover_designs : string -> list string) (a : args) (v : bool) :
  designs_to_run params_from_str params_given fmt_params discover_designs
                 (with_verbose a v)
  = designs_to_run params_from_str params_given fmt_params discover_designs a.
Proof. reflexivity. Qed.

(** X6.  [--verbose] changes nothing but the standard output, and there it
    only adds, before the rendering, the three prints of lines 154 to 156
    for every design whose artifact exists: a banner with the design's name,
    the tool's output and an empty line.  A run that returns without
    [--verbose] returns with it, with the same rendering, the same error
    stream and the same exit code; and a run that dies without it dies of
    the same failure with it. *)
Theorem verbose_only_adds_dumps
        (run_yosys : string -> string -> text)
        (path_join : string -> string -> string)
        (path_exists : string -> bool)
        (params : Type)
        (params_from_str : list string -> params)
        (params_given : params -> bool)
        (fmt_params : params -> string)
        (discover_designs : string -> list string)
        (a : args) :
  main run_yosys path_join path_exists params_from_str params_given
       fmt_params discover_designs (with_verbose a true)
  = match main run_yosys path_join path_exists params_from_str params_given
               fmt_params discover_designs (with_verbose a false) with
    | Ok quiet =>
        Ok (MkRun
              (flat_map (dump_of run_yosys path_join a)
                 (filter (present path_join path_exists)
                    (designs params_from_str params_given fmt_params
                             discover_designs a))
                 ++ stdout quiet)%list
              (stderr quiet) (exit_code quiet))
    | Raise e => Raise e
    | Beyond => Beyond
    end.
Proof.
  rewrite !main_spec, !verbose_irrelevant_designs. unfold designs.
  destruct (designs_to_run params_from_str params_given fmt_params
              discover_designs a) as [ds|]; [|reflexivity].
  change (records_of run_yosys path_join path_exists (with_verbose a true))
    with (records_of run_yosys path_join path_exists (with_verbose a false)).
  destruct (records_of run_yosys path_join path_exists
              (with_verbose a false) ds) as [rs| |] eqn:R;
    cbn [bind]; [|reflexivity|reflexivity].
  destruct rs as [|r rs].
  - apply records_length in R. simpl in R.
    destruct (filter (present path_join path_exists) ds);
      [reflexivity | discriminate R].
  - change (emit (with_verbose a true)) with (emit (with_verbose a false)).
    destruct (emit (with_verbose a false) (r :: rs)) as [lines| |];
      cbn [bind stdout stderr exit_code]; [|reflexivity|reflexivity].
    change (shown_of run_yosys path_join (with_verbose a false))
      with (fun _ : string * string => @nil string).
    now rewrite flat_map_nil.
Qed.

(** X7.  Among the runs that return, the tool's output has no part in the
    control flow: two such runs that differ only in what the tool prints end
    with the same exit code and the same lines on the error stream, and call
    [print] as many times on the standard output.  (The tool is taken to
    start and to end; what its output can do is make the run die, of an
    integer beyond the limit of [int] or a quotient beyond the floats.) *)
Theorem tool_output_and_normal_exit
        (run_yosys run_yosys' : string -> string -> text)
        (path_join : string -> string -> string)
        (path_exists : string -> bool)
        (params : Type)
        (params_from_str : list string -> params)
        (params_given : params -> bool)
        (fmt_params : params -> string)
        (discover_designs : string -> list string)
        (a : args) (run run' : run_result) :
  main run_yosys path_join path_exists params_from_str params_given
       fmt_params discover_designs a = Ok run ->
  main run_yosys' path_join path_exists params_from_str params_given
       fmt_params discover_designs a = Ok run' ->
  exit_code run = exit_code run'
  /\ stderr run = stderr run'
  /\ length (stdout run) = length (stdout run').
Proof.
  rewrite !main_spec.
  destruct (designs_to_run params_from_str params_given fmt_params
              discover_designs a) as [ds|];
    [|intros [= <-] [= <-]; now repeat split].
  destruct (records_of run_yosys path_join path_exists a ds)
    as [rs| |] eqn:R; cbn [bind]; [|discriminate|discriminate].
  destruct (records_of run_yosys' path_join path_exists a ds)
    as [rs'| |] eqn:R'; cbn [bind]; [|discriminate|discriminate].
  apply records_length in R, R'.
  destruct rs as [|r rs]; destruct rs' as [|r' rs'];
    simpl in R, R'; try lia.
  - intros [= <-] [= <-]. now repeat split.
  - destruct (emit a (r :: rs)) as [lines| |] eqn:E; cbn [bind];
      [|discriminate|discriminate].
    destruct (emit a (r' :: rs')) as [lines'| |] eqn:E'; cbn [bind];
      [|discriminate|discriminate].
    intros [= <-] [= <-]. cbn [stdout stderr exit_code].
    repeat split.
    rewrite (emit_inv _ _ E), (emit_inv _ _ E').
    rewrite !length_app, !render_length, !shown_of_length. simpl. lia.
Qed.

Lemma tool_output_and_normal_exit_witness :
  main (fun _ _ => scenario) (fun x y => x ++ "/" ++ y)
       (fun p => String.eqb p "artifacts/adder.il")
       (fun l => l) (fun l : list string => negb (Nat.eqb (length l) 0))
       (join "_") (fun _ => ["adder"; "counter"])
       (MkArgs "yosys" None [] "" 6 true false)
  = Ok (MkRun [csv_header; "adder,42,88,130,0.3231,100,252,352,71.59"]
              ["Artifact not found: artifacts/counter.il"] 0)
  /\ main (fun _ _ => chars "ERROR: no such file") (fun x y => x ++ "/" ++ y)
          (fun p => String.eqb p "artifacts/adder.il")
          (fun l => l) (fun l : list string => negb (Nat.eqb (length l) 0))
          (join "_") (fun _ => ["adder"; "counter"])
          (MkArgs "yosys" None [] "" 6 true false)
     = Ok (MkRun [csv_header; "adder,0,0,0,0.0000,0,0,0,0.00"]
                 ["Artifact not found: artifacts/counter.il"] 0)
  /\ exit_code (MkRun [csv_header;
                       "adder,42,88,130,0.3231,100,252,352,71.59"]
                      ["Artifact not found: artifacts/counter.il"] 0)
     = exit_code (MkRun [csv_header; "adder,0,0,0,0.0000,0,0,0,0.00"]
                        ["Artifact not found: artifacts/counter.il"] 0)
  /\ stderr (MkRun [csv_header;
                    "adder,42,88,130,0.3231,100,252,352,71.59"]
                   ["Artifact not found: artifacts/counter.il"] 0)
     = stderr (MkRun [csv_header; "adder,0,0,0,0.0000,0,0,0,0.00"]
                     ["Artifact not found: artifacts/counter.il"] 0)
  /\ length (stdout (MkRun [csv_header;
                            "adder,42,88,130,0.3231,100,252,352,71.59"]
                           ["Artifact not found: artifacts/counter.il"] 0))
     = length (stdout (MkRun [csv_header; "adder,0,0,0,0.0000,0,0,0,0.00"]
                             ["Artifact not found: artifacts/counter.il"]
                             0)).
Proof.
  assert (H : main (fun _ _ => scenario) (fun x y => x ++ "/" ++ y)
                   (fun p => String.eqb p "artifacts/adder.il")
                   (fun l => l)
                   (fun l : list string => negb (Nat.eqb (length l) 0))
                   (join "_") (fun _ => ["adder"; "counter"])
                   (MkArgs "yosys" None [] "" 6 true false)
              = Ok (MkRun [csv_header;
                           "adder,42,88,130,0.3231,100,252,352,71.59"]
                          ["Artifact not found: artifacts/counter.il"] 0))
    by (vm_compute; reflexivity).
  assert (H' : main (fun _ _ => chars "ERROR: no such file")
                    (fun x y => x ++ "/" ++ y)
                    (fun p => String.eqb p "artifacts/adder.il")
                    (fun l => l)
                    (fun l : list string => negb (Nat.eqb (length l) 0))
                    (join "_") (fun _ => ["adder"; "counter"])
                    (MkArgs "yosys" None [] "" 6 true false)
               = Ok (MkRun [csv_header; "adder,0,0,0,0.0000,0,0,0,0.00"]
                           ["Artifact not found: artifacts/counter.il"] 0))
    by (vm_compute; reflexivity).
  split; [exact H|]. split; [exact H'|].
  exact (tool_output_and_normal_exit _ _ _ _ _ _ _ _ _ H H').
Defined.

(** X8.  In a run that returns, every design considered accounts for
    exactly one printed line: without [--verbose], the prints on the
    standard output and on the error stream are together one more than the
    designs, in both output formats (a row or an [Artifact not found]
    message for each design, and one header or one closing message).  And a
    run that exits with 1 has printed nothing on the standard output. *)
Theorem one_line_per_design
        (run_yosys : string -> string -> text)
        (path_join : string -> string -> string)
        (path_exists : string -> bool)
        (params : Type)
        (params_from_str : list string -> params)
        (params_given : params -> bool)
        (fmt_params : params -> string)
        (discover_designs : string -> list string)
        (a : args) (run : run_result) :
  main run_yosys path_join path_exists params_from_str params_given
       fmt_params discover_designs a = Ok run ->
  (verbose a = false ->
   length (stdout run) + length (stderr run)
   = S (length (designs params_from_str params_given fmt_params
                        discover_designs a)))
  /\ (exit_code run = 1%Z -> stdout run = []).
Proof.
  rewrite main_spec. unfold designs.
  destruct (designs_to_run params_from_str params_given fmt_params
              discover_designs a) as [ds|]; [|intros [= <-]; now split].
  destruct (records_of run_yosys path_join path_exists a ds)
    as [rs| |] eqn:R; cbn [bind]; [|discriminate|discriminate].
  apply records_length in R.
  pose proof (present_absent_length path_join path_exists ds) as P.
  destruct rs as [|r rs]; simpl in R.
  - intros [= <-]. cbn [stdout stderr exit_code]. split; [|reflexivity].
    intros _. rewrite length_app, length_map. simpl. lia.
  - destruct (emit a (r :: rs)) as [lines| |] eqn:E; cbn [bind];
      [|discriminate|discriminate].
    intros [= <-]. cbn [stdout stderr exit_code]. split; [|discriminate].
    intros V. rewrite (emit_inv _ _ E).
    rewrite length_app, render_length, shown_of_length, length_map, V.
    simpl. lia.
Qed.

Lemma one_line_per_design_witness :
  main (fun _ _ => scenario) (fun x y => x ++ "/" ++ y)
       (fun p => String.eqb p "artifacts/adder.il")
       (fun l => l) (fun l : list string => negb (Nat.eqb (length l) 0))
       (join "_") (fun _ => ["adder"; "counter"])
       (MkArgs "yosys" None [] "" 6 false false)
  = Ok (MkRun ["(ff_size=6)";
               "adder: 42/130 FF (32.3%), area: 100 logic + 252 FF = 352 (71.6% FF)"]
              ["Artifact not found: artifacts/counter.il"] 0)
  /\ (verbose (MkArgs "yosys" None [] "" 6 false false) = false ->
      length (stdout (MkRun ["(ff_size=6)";
               "adder: 42/130 FF (32.3%), area: 100 logic + 252 FF = 352 (71.6% FF)"]
              ["Artifact not found: artifacts/counter.il"] 0))
      + length (stderr (MkRun ["(ff_size=6)";
               "adder: 42/130 FF (32.3%), area: 100 logic + 252 FF = 352 (71.6% FF)"]
              ["Artifact not found: artifacts/counter.il"] 0))
      = S (length (designs (fun l => l)
                     (fun l : list string => negb (Nat.eqb (length l) 0))
                     (join "_") (fun _ => ["adder"; "counter"])
                     (MkArgs "yosys" None [] "" 6 false false))))
  /\ (exit_code (MkRun ["(ff_size=6)";
               "adder: 42/130 FF (32.3%), area: 100 logic + 252 FF = 352 (71.6% FF)"]
              ["Artifact not found: artifacts/counter.il"] 0) = 1%Z ->
      stdout (MkRun ["(ff_size=6)";
               "adder: 42/130 FF (32.3%), area: 100 logic + 252 FF = 352 (71.6% FF)"]
              ["Artifact not found: artifacts/counter.il"] 0) = []).
Proof.
  assert (H : main (fun _ _ => scenario) (fun x y => x ++ "/" ++ y)
                   (fun p => String.eqb p "artifacts/adder.il")
                   (fun l => l)
                   (fun l : list string => negb (Nat.eqb (length l) 0))
                   (join "_") (fun _ => ["adder"; "counter"])
                   (MkArgs "yosys" None [] "" 6 false false)
              = Ok (MkRun ["(ff_size=6)";
               "adder: 42/130 FF (32.3%), area: 100 logic + 252 FF = 352 (71.6% FF)"]
              ["Artifact not found: artifacts/counter.il"] 0))
    by (vm_compute; reflexivity).
  split; [exact H|].
  exact (one_line_per_design _ _ _ _ _ _ _ _ H).
Defined.

Local Close Scope string_scope.

(** ** The script, line by line *)

Local Open Scope string_scope.

Lemma synth_cmd_free_of_newline (flow : string) :
  free_of newline (synth_cmd flow) = true.
Proof. unfold synth_cmd. now destruct (String.eqb flow "flatten"). Qed.

Lemma ff_select_free_of_newline : free_of newline ff_select = true.
Proof. vm_compute. reflexivity. Qed.

Lemma string_app_assoc (x y z : string) : (x ++ y) ++ z = x ++ y ++ z.
Proof. induction x as [|c x IH]; simpl; [reflexivity|]. now rewrite IH. Qed.

(** X9.  For an artifact path without a line feed, the script handed to the
    tool is, line by line: an empty line, the six commands [read_rtlil] of
    the artifact, [synth], the two [select -count], [stat] and [abc], and an
    empty last line.  Only the flow [flatten], spelled exactly so, adds
    [-flatten] to the synthesis command; any other flow gives the script of
    the default flow. *)
Theorem script_lines (artifact_path flow : string) :
  free_of newline artifact_path = true ->
  split_on newline (script artifact_path flow)
  = [""; "read_rtlil " ++ artifact_path;
     (if String.eqb flow "flatten"
      then "synth -flatten -noabc" else "synth -noabc");
     "select -count " ++ ff_select; "select -count *"; "stat";
     "abc -script +strash;print_stats"; ""]
  /\ (flow <> "flatten" -> script artifact_path flow = script artifact_path "").
Proof.
  intros H. split.
  - unfold script, nl.
    change (String newline "" ++ ?x) with (String newline x).
    change (split_on newline (String newline ?x))
      with ("" :: split_on newline x).
    rewrite <- (string_app_assoc "read_rtlil " artifact_path).
    rewrite <- (string_app_assoc "select -count " ff_select).
    rewrite split_on_sep
      by (rewrite free_of_app; now rewrite H).
    rewrite split_on_sep by apply synth_cmd_free_of_newline.
    rewrite split_on_sep
      by (rewrite free_of_app; now rewrite ff_select_free_of_newline).
    reflexivity.
  - intros Hf. unfold script, synth_cmd.
    destruct (String.eqb_spec flow "flatten") as [E|_]; [contradiction|].
    reflexivity.
Qed.

Lemma script_lines_witness :
  free_of newline "artifacts/counter.il" = true
  /\ split_on newline (script "artifacts/counter.il" "flatten")
     = [""; "read_rtlil " ++ "artifacts/counter.il";
        "synth -flatten -noabc";
        "select -count " ++ ff_select; "select -count *"; "stat";
        "abc -script +strash;print_stats"; ""]
  /\ ("flatten" <> "flatten" ->
      script "artifacts/counter.il" "flatten"
      = script "artifacts/counter.il" "").
Proof.
  split; [reflexivity|].
  apply (@script_lines "artifacts/counter.il" "flatten"). reflexivity.
Defined.

Local Close Scope string_scope.

(** ** Exact values of the metrics *)

Local Open Scope Z_scope.

(** A fraction equal to one rounds to [1.0] exactly. *)
Lemma round_float_same (n : Z) :
  0 < n -> round_float n n = MkFloat (2 ^ 52) (- 52).
Proof.
  intros H. unfold round_float.
  destruct (Z.eqb_spec n 0) as [E|_]; [lia|].
  replace (Z.abs n) with n by lia.
  assert (I : ilog2_ratio n n = 0).
  { unfold ilog2_ratio. rewrite Z.sub_diag.
    unfold scale_den, scale_num. simpl Z.max. rewrite Z.pow_0_r, Z.mul_1_r.
    now rewrite Z.leb_refl. }
  rewrite I. cbv zeta.
  change (Z.max (0 - 52) (- 1074)) with (- 52).
  unfold scale_num, scale_den.
  change (Z.max 0 (- - 52)) with 52. change (Z.max 0 (- 52)) with 0.
  rewrite Z.pow_0_r, Z.mul_1_r.
  assert (M : round_half_even (n * 2 ^ 52) n = 2 ^ 52).
  { unfold round_half_even.
    rewrite (Z.mul_comm n), Z.div_mul, Z.mod_mul by lia.
    destruct (Z.compare_spec (2 * 0) n); [lia | reflexivity | lia]. }
  rewrite M. reflexivity.
Qed.

Lemma round_float_nonneg (n d : Z) :
  0 < d -> 0 <= n -> 0 <= Fnum (round_float n d).
Proof.
  intros Hd Hn.
  destruct (round_float_cases n d) as [->|[_ [_ ->]]]; [reflexivity|].
  cbn [Fnum]. apply round_half_even_ge; [now apply scale_den_pos|].
  unfold scale_num.
  set (k := Z.max 0 (- Z.max (ilog2_ratio (Z.abs n) d - 52) (- 1074))).
  assert (0 < 2 ^ k) by (apply pow2_pos; unfold k; lia). nia.
Qed.

(** What [round_float] gives for a fraction of at least one. *)
Lemma round_float_ge_one (n d : Z) :
  0 < d <= n ->
  - 52 <= Fexp (round_float n d) /\ 2 ^ 52 <= Fnum (round_float n d).
Proof.
  intros [Hd Hn].
  assert (Hz : n <> 0) by lia.
  assert (Pn : 0 < n) by lia.
  assert (He : 0 <= ilog2_ratio n d).
  { destruct (ilog2_ratio_spec Pn Hd) as [_ U].
    set (e := ilog2_ratio n d) in *.
    destruct (Z.le_gt_cases 0 e) as [G|G]; [exact G|]. exfalso.
    unfold scale_num, scale_den in U.
    replace (Z.max 0 (e + 1)) with 0 in U by lia.
    assert (0 < 2 ^ Z.max 0 (- (e + 1))) by (apply pow2_pos; lia).
    rewrite Z.pow_0_r in U. nia. }
  pose proof (@round_float_nonneg n d Hd) as S.
  destruct (@round_float_correct n d Hd Hz) as [E [B _]].
  - replace (Z.abs n) with n by lia. lia.
  - replace (Z.abs n) with n in E by lia. split; lia.
Qed.

Local Close Scope Z_scope.

Lemma float_value_ge_one (x : float) :
  (- 52 <= Fexp x)%Z -> (2 ^ 52 <= Fnum x)%Z -> (1 <= float_value x)%Q.
Proof.
  intros He Hm. unfold float_value.
  destruct (Z.le_gt_cases 0 (Fexp x)) as [G|G].
  - assert (E : (2 ^ Fexp x == inject_Z (2 ^ Fexp x))%Q)
      by (rewrite Zpower_Qpower by exact G; reflexivity).
    rewrite E, <- inject_Z_mult. change 1%Q with (inject_Z 1).
    rewrite <- Zle_Qle.
    assert (0 < 2 ^ Fexp x)%Z by (apply Z.pow_pos_nonneg; lia).
    assert (0 < 2 ^ 52)%Z by reflexivity. nia.
  - assert (P : (0 < inject_Z (2 ^ (- Fexp x)))%Q).
    { change 0%Q with (inject_Z 0). rewrite <- Zlt_Qlt.
      apply Z.pow_pos_nonneg; lia. }
    assert (E : (2 ^ Fexp x == / inject_Z (2 ^ (- Fexp x)))%Q).
    { rewrite Zpower_Qpower by lia.
      rewrite <- Qpower_opp, Z.opp_involutive. reflexivity. }
    rewrite E. apply Qle_shift_div_l; [exact P|].
    rewrite Qmult_1_l, <- Zle_Qle.
    etransitivity; [|exact Hm]. apply Z.pow_le_mono_r; lia.
Qed.

Local Open Scope Z_scope.

Lemma ratio_of_zero (total : Z) : ratio_of 0 total = Ok float_zero.
Proof.
  unfold ratio_of. destruct (Z.gtb_spec total 0) as [G|G]; [|reflexivity].
  assert (0 < 2 ^ 1023) by (apply pow2_pos; lia).
  rewrite truediv_ok by nia. reflexivity.
Qed.

Lemma pct_of_zero (total_area : Z) : pct_of 0 total_area = Ok float_zero.
Proof.
  unfold pct_of. destruct (Z.gtb_spec total_area 0) as [G|G]; [|reflexivity].
  assert (0 < 2 ^ 1023) by (apply pow2_pos; lia).
  rewrite truediv_ok by nia. reflexivity.
Qed.

Lemma ratio_of_same (n : Z) :
  0 < n -> ratio_of n n = Ok (MkFloat (2 ^ 52) (- 52)).
Proof.
  intros H. unfold ratio_of.
  destruct (Z.gtb_spec n 0) as [_|G]; [|lia].
  assert (0 < 2 ^ 1023) by (apply pow2_pos; lia).
  rewrite truediv_ok by nia. now rewrite round_float_same.
Qed.

Lemma pct_of_same (n : Z) :
  0 < n -> pct_of n n = Ok (MkFloat (100 * 2 ^ 46) (- 46)).
Proof.
  intros H. unfold pct_of.
  destruct (Z.gtb_spec n 0) as [_|G]; [|lia].
  assert (0 < 2 ^ 1023) by (apply pow2_pos; lia).
  rewrite truediv_ok by nia. rewrite round_float_same by exact H.
  vm_compute. reflexivity.
Qed.

Local Close Scope Z_scope.

Local Open Scope string_scope.

(** X10.  The end points are exact.  A design without flip-flops has a
    record, with the ratio and the percentage [0.0]; a design whose cells
    are all flip-flops has the ratio [1.0], printed [1.0000] and, as a
    percentage, [100.0], and no logic; and with no ABC area and a positive
    flip-flop area the percentage is [100.0], printed [100.00] in CSV and
    [100.0] in the other format. *)
Theorem metrics_end_points (tag : string) (c : Counts.t) (ff_size : Z) :
  (Counts.ff_count c = 0%Z ->
   exists r,
     metrics tag c ff_size = Ok r
     /\ ratio r = float_zero /\ ff_area_pct r = float_zero)
  /\ ((0 < Counts.ff_count c)%Z ->
      Counts.total_cells c = Counts.ff_count c ->
      (0 <= Counts.abc_area c)%Z -> (0 <= ff_size)%Z ->
      exists r,
        metrics tag c ff_size = Ok r
        /\ logic r = 0%Z
        /\ ratio r = MkFloat (2 ^ 52) (- 52)
        /\ format_f 4 (ratio r) = "1.0000"
        /\ percent_text (ratio r) = "100.0")
  /\ (Counts.abc_area c = 0%Z ->
      (0 < Counts.ff_count c * ff_size)%Z ->
      (0 <= Counts.ff_count c <= Counts.total_cells c)%Z ->
      exists r,
        metrics tag c ff_size = Ok r
        /\ ff_area_pct r = MkFloat (100 * 2 ^ 46) (- 46)
        /\ format_f 2 (ff_area_pct r) = "100.00"
        /\ format_f 1 (ff_area_pct r) = "100.0").
Proof.
  split; [|split].
  - intros E. eexists. split.
    + apply metrics_ok; rewrite E; [apply ratio_of_zero|].
      rewrite Z.mul_0_l. apply pct_of_zero.
    + split; reflexivity.
  - intros Hp Ht Ha Hw.
    destruct (@pct_of_unit (Counts.ff_count c * ff_size)
                (Counts.abc_area c + Counts.ff_count c * ff_size))
      as [p [Ep _]]; [nia|].
    eexists. split.
    + apply metrics_ok; [rewrite Ht; now apply ratio_of_same | exact Ep].
    + cbn [logic ratio]. split; [lia|]. split; [reflexivity|].
      split; vm_compute; reflexivity.
  - intros Ha Hp Hr.
    destruct (ratio_of_unit Hr) as [x [Ex _]].
    eexists. split.
    + apply metrics_ok; [exact Ex|]. rewrite Ha, Z.add_0_l.
      now apply pct_of_same.
    + cbn [ff_area_pct]. split; [reflexivity|].
      split; vm_compute; reflexivity.
Qed.

(** X11.  The ratio is not clamped.  If the report's first [objects] count
    is at least its positive total (the two come from different lines of
    the report) and their quotient is below [2 ^ 1023], within the floats,
    the record is produced with a ratio of at least 1 and a logic count
    that is zero or negative: nothing is raised and nothing is
    corrected. *)
Theorem ratio_is_not_clamped (tag : string) (c : Counts.t) (ff_size : Z) :
  (0 < Counts.total_cells c <= Counts.ff_count c)%Z ->
  (Counts.ff_count c < 2 ^ 1023 * Counts.total_cells c)%Z ->
  (0 <= Counts.abc_area c)%Z -> (0 <= ff_size)%Z ->
  exists r,
    metrics tag c ff_size = Ok r
    /\ (1 <= float_value (ratio r))%Q
    /\ (logic r <= 0)%Z.
Proof.
  intros H Hu Ha Hw.
  destruct (@pct_of_unit (Counts.ff_count c * ff_size)
              (Counts.abc_area c + Counts.ff_count c * ff_size))
    as [p [Ep _]]; [nia|].
  assert (Ex : ratio_of (Counts.ff_count c) (Counts.total_cells c)
               = Ok (round_float (Counts.ff_count c) (Counts.total_cells c))).
  { unfold ratio_of.
    destruct (Z.gtb_spec (Counts.total_cells c) 0) as [_|G]; [|lia].
    apply truediv_ok; lia. }
  eexists. split; [exact (metrics_ok tag c ff_size Ex Ep)|].
  cbn [ratio logic]. split; [|lia].
  destruct (@round_float_ge_one (Counts.ff_count c) (Counts.total_cells c) H).
  now apply float_value_ge_one.
Qed.

Lemma ratio_is_not_clamped_witness :
  (0 < Counts.total_cells (Counts.Mk 137 42 0)
   <= Counts.ff_count (Counts.Mk 137 42 0))%Z
  /\ (Counts.ff_count (Counts.Mk 137 42 0)
      < 2 ^ 1023 * Counts.total_cells (Counts.Mk 137 42 0))%Z
  /\ (0 <= Counts.abc_area (Counts.Mk 137 42 0))%Z /\ (0 <= 6)%Z
  /\ exists r,
       metrics "d" (Counts.Mk 137 42 0) 6 = Ok r
       /\ (1 <= float_value (ratio r))%Q
       /\ (logic r <= 0)%Z.
Proof.
  split; [cbn; lia|]. split; [reflexivity|]. split; [cbn; lia|].
  split; [lia|].
  apply (@ratio_is_not_clamped "d" (Counts.Mk 137 42 0) 6);
    [cbn; lia | reflexivity | cbn; lia | lia].
Defined.

(** X12.  In the human-readable format the first percentage is the ratio
    times 100, computed on floats.  For counts with [0 <= ff <= total], a
    non-negative area and a non-negative weight, the record is produced, the
    product is a float, it is what the row shows, and it lies between 0 and
    100. *)
Theorem human_percentage_bounds (tag : string) (c : Counts.t) (ff_size : Z) :
  (0 <= Counts.ff_count c <= Counts.total_cells c)%Z ->
  (0 <= Counts.abc_area c)%Z -> (0 <= ff_size)%Z ->
  exists r pct,
    metrics tag c ff_size = Ok r
    /\ fmul (ratio r) float_100 = Ok pct
    /\ human_row r
       = tag ++ ": " ++ str (Counts.ff_count c) ++ "/"
             ++ str (Counts.total_cells c) ++ " FF (" ++ format_f 1 pct
             ++ "%), area: " ++ str (Counts.abc_area c) ++ " logic + "
             ++ str (ff_area r) ++ " FF = " ++ str (total_area r) ++ " ("
             ++ format_f 1 (ff_area_pct r) ++ "% FF)"
    /\ (0 <= float_value pct <= 100)%Q.
Proof.
  intros H Ha Hw.
  destruct (ratio_of_unit H) as [x [Ex Rx]].
  destruct (@pct_of_unit (Counts.ff_count c * ff_size)
              (Counts.abc_area c + Counts.ff_count c * ff_size))
    as [p [Ep _]]; [nia|].
  destruct (percent_in_range Rx) as [Em Rm].
  eexists _, (fprod x float_100).
  split; [exact (metrics_ok tag c ff_size Ex Ep)|].
  cbn [ratio]. split; [exact Em|]. split.
  - unfold human_row, percent_text.
    cbn [design ff total ratio abc_area ff_area total_area ff_area_pct].
    rewrite (@in_range_no_overflow _ 100 Rm) by (split; reflexivity).
    reflexivity.
  - now apply (@in_range_value _ 100).
Qed.

Lemma human_percentage_bounds_witness :
  (0 <= Counts.ff_count (Counts.Mk 42 130 100)
   <= Counts.total_cells (Counts.Mk 42 130 100))%Z
  /\ (0 <= Counts.abc_area (Counts.Mk 42 130 100))%Z /\ (0 <= 6)%Z
  /\ exists r pct,
       metrics "d" (Counts.Mk 42 130 100) 6 = Ok r
       /\ fmul (ratio r) float_100 = Ok pct
       /\ human_row r
          = "d" ++ ": " ++ str 42 ++ "/" ++ str 130 ++ " FF ("
                ++ format_f 1 pct ++ "%), area: " ++ str 100 ++ " logic + "
                ++ str (ff_area r) ++ " FF = " ++ str (total_area r) ++ " ("
                ++ format_f 1 (ff_area_pct r) ++ "% FF)"
       /\ (0 <= float_value pct <= 100)%Q.
Proof.
  split; [cbn; lia|]. split; [cbn; lia|]. split; [lia|].
  apply (@human_percentage_bounds "d" (Counts.Mk 42 130 100) 6);
    [cbn; lia | cbn; lia | lia].
Defined.

Local Close Scope string_scope.

(** ** Printing an integer and reading it back *)

Lemma uint_all_digits (d : Decimal.uint) :
  forallb is_digit (chars (NilEmpty.string_of_uint d)) = true.
Proof. induction d; simpl; trivial. Qed.

Lemma decimal_uint_acc (d : Decimal.uint) :
  forall acc : positive,
    fold_left (fun acc c => acc * 10 + digit_value c)%Z
              (chars (NilEmpty.string_of_uint d)) (Z.pos acc)
    = Z.pos (Pos.of_uint_acc d acc).
Proof.
  induction d; intros acc; cbn [NilEmpty.string_of_uint chars
                                  list_ascii_of_string fold_left
                                  Pos.of_uint_acc]; trivial;
    rewrite <- IHd; f_equal;
    match goal with
    | |- context [digit_value ?c] =>
        let v := eval vm_compute in (digit_value c) in
        change (digit_value c) with v
    end; lia.
Qed.

Lemma decimal_uint (d : Decimal.uint) :
  decimal (chars (NilEmpty.string_of_uint d)) = Z.of_N (Pos.of_uint d).
Proof.
  unfold decimal. induction d; simpl; trivial;
    apply (decimal_uint_acc d).
Qed.

(** [int(str(n)) == n] for a natural number [n], which [str] prints with
    digits only. *)
Lemma str_digits (n : Z) :
  (0 <= n)%Z -> all_digits (chars (str n)) /\ decimal (chars (str n)) = n.
Proof.
  intros H. unfold str. destruct n as [|p|p]; [now repeat split| |lia].
  cbn [Z.to_int NilZero.string_of_int]. unfold NilZero.string_of_uint.
  pose proof (DecimalPos.Unsigned.to_uint_nonnil p) as N.
  pose proof (DecimalPos.Unsigned.of_to p) as E.
  pose proof (uint_all_digits (Pos.to_uint p)) as D.
  pose proof (decimal_uint (Pos.to_uint p)) as V. rewrite E in V.
  destruct (Pos.to_uint p); [contradiction| ..];
    (split; [split; [discriminate | exact D] | exact V]).
Qed.

Lemma chars_length (s : string) : length (chars s) = String.length s.
Proof. induction s as [|c s IH]; simpl; [reflexivity|]. now rewrite IH. Qed.

(** [int(str(n)) == n] for a natural number that can be printed. *)
Lemma int_str (n : Z) :
  (0 <= n)%Z -> printable n = true -> int (chars (str n)) = Ok n.
Proof.
  intros H P. destruct (str_digits H) as [D V].
  rewrite (int_digits D). unfold within_limit, printable in *.
  rewrite Z.abs_eq in P by exact H.
  now rewrite chars_length, P, V.
Qed.

Local Open Scope string_scope.

(** X13.  The integer columns of a CSV row can be read back.  For the
    counts returned for a report, a non-negative weight and a tag without a
    comma, a row that is printed splits at its commas into nine fields, of
    which the second, fourth, sixth, seventh and eighth are plain digit
    strings that [int] reads as the flip-flop count, the total, the ABC
    area, the flip-flop area and the total area. *)
Theorem csv_integers_read_back
        (run_yosys : string -> string -> text)
        (yosys_bin artifact_path flow tag : string) (ff_size : Z)
        (c : Counts.t) (output : text) (r : result) (row : string) :
  free_of "," tag = true -> (0 <= ff_size)%Z ->
  get_counts run_yosys yosys_bin artifact_path flow = Ok (c, output) ->
  metrics tag c ff_size = Ok r ->
  csv_line r = Ok row ->
  exists f_logic f_ratio f_pct f_ff f_total f_abc f_ffa f_area,
    split_on "," row
    = [tag; f_ff; f_logic; f_total; f_ratio; f_abc; f_ffa; f_area; f_pct]
    /\ int (chars f_ff) = Ok (Counts.ff_count c)
    /\ int (chars f_total) = Ok (Counts.total_cells c)
    /\ int (chars f_abc) = Ok (Counts.abc_area c)
    /\ int (chars f_ffa) = Ok (Counts.ff_count c * ff_size)%Z
    /\ int (chars f_area)
       = Ok (Counts.abc_area c + Counts.ff_count c * ff_size)%Z.
Proof.
  intros Ht Hw Hc Hm Hr.
  apply get_counts_inv in Hc. destruct Hc as [_ [Ec _]].
  set (out := run_yosys yosys_bin (script artifact_path flow)) in Ec.
  pose proof (@nth_value_nonneg _ 0 (@findall_objects_digits out)) as Hf.
  pose proof (total_of_nonneg out) as Hl.
  pose proof (@sum_values_nonneg _ (@findall_and_digits out)) as Ha.
  assert (N : (0 <= Counts.ff_count c)%Z /\ (0 <= Counts.total_cells c)%Z
              /\ (0 <= Counts.abc_area c)%Z) by (rewrite Ec; cbn; auto).
  clear Hf Hl Ha Ec. destruct N as [Hf [Hl Ha]].
  destruct (@metrics_inv tag c ff_size r Hm) as [_ [_ Er]].
  assert (E0 : design r = tag) by (rewrite Er; reflexivity).
  assert (E1 : ff r = Counts.ff_count c) by (rewrite Er; reflexivity).
  assert (E2 : total r = Counts.total_cells c) by (rewrite Er; reflexivity).
  assert (E3 : abc_area r = Counts.abc_area c) by (rewrite Er; reflexivity).
  assert (E4 : ff_area r = (Counts.ff_count c * ff_size)%Z)
    by (rewrite Er; reflexivity).
  assert (E5 : total_area r
               = (Counts.abc_area c + Counts.ff_count c * ff_size)%Z)
    by (rewrite Er; reflexivity).
  rewrite csv_line_spec in Hr.
  destruct (printable_record r) eqn:P; [|discriminate].
  injection Hr as <-.
  unfold printable_record in P.
  repeat (apply andb_prop in P as [P ?]).
  do 8 eexists. split.
  - rewrite <- E0. apply csv_row_fields. now rewrite E0.
  - rewrite <- E5, <- E4, <- E3, <- E2, <- E1.
    repeat split; apply int_str; try assumption; nia.
Qed.

Lemma csv_integers_read_back_witness :
  free_of "," "counter" = true /\ (0 <= 6)%Z
  /\ get_counts (fun _ _ => scenario) "yosys" "artifacts/counter.il" ""
     = Ok (Counts.Mk 42 130 100, scenario)
  /\ metrics "counter" (Counts.Mk 42 130 100) 6
     = Ok (MkResult "counter" 42 88 130 (round_float 42 130) 100 252 352
                    (fprod (round_float 252 352) float_100))
  /\ csv_line (MkResult "counter" 42 88 130 (round_float 42 130) 100 252 352
                        (fprod (round_float 252 352) float_100))
     = Ok "counter,42,88,130,0.3231,100,252,352,71.59"
  /\ exists f_logic f_ratio f_pct f_ff f_total f_abc f_ffa f_area,
       split_on "," "counter,42,88,130,0.3231,100,252,352,71.59"
       = ["counter"; f_ff; f_logic; f_total; f_ratio; f_abc; f_ffa;
          f_area; f_pct]
       /\ int (chars f_ff) = Ok (Counts.ff_count (Counts.Mk 42 130 100))
       /\ int (chars f_total) = Ok (Counts.total_cells (Counts.Mk 42 130 100))
       /\ int (chars f_abc) = Ok (Counts.abc_area (Counts.Mk 42 130 100))
       /\ int (chars f_ffa)
          = Ok (Counts.ff_count (Counts.Mk 42 130 100) * 6)%Z
       /\ int (chars f_area)
          = Ok (Counts.abc_area (Counts.Mk 42 130 100)
                + Counts.ff_count (Counts.Mk 42 130 100) * 6)%Z.
Proof.
  assert (Hc : get_counts (fun _ _ => scenario) "yosys"
                 "artifacts/counter.il" ""
               = Ok (Counts.Mk 42 130 100, scenario))
    by (vm_compute; reflexivity).
  assert (Hm : metrics "counter" (Counts.Mk 42 130 100) 6
               = Ok (MkResult "counter" 42 88 130 (round_float 42 130) 100
                              252 352
                              (fprod (round_float 252 352) float_100)))
    by (vm_compute; reflexivity).
  assert (Hr : csv_line (MkResult "counter" 42 88 130 (round_float 42 130)
                                  100 252 352
                                  (fprod (round_float 252 352) float_100))
               = Ok "counter,42,88,130,0.3231,100,252,352,71.59")
    by (vm_compute; reflexivity).
  split; [reflexivity|]. split; [lia|].
  split; [exact Hc|]. split; [exact Hm|]. split; [exact Hr|].
  apply (@csv_integers_read_back (fun _ _ => scenario) "yosys"
           "artifacts/counter.il" "" "counter" 6 _ _ _ _
           eq_refl ltac:(lia) Hc Hm Hr).
Defined.

Local Close Scope string_scope.

(** ** A count printed by the tool *)

Lemma ends_with_digit_app (a x : text) :
  x <> [] -> forallb is_digit x = true -> ends_with_digit (a ++ x) = true.
Proof.
  intros Hne Hd. destruct (exists_last Hne) as [x0 [c ->]].
  unfold ends_with_digit, last_before. rewrite app_assoc, fold_left_app.
  simpl. rewrite forallb_app in Hd. apply andb_prop in Hd as [_ Hd].
  simpl in Hd. now destruct (is_digit c).
Qed.

(** Two ways of cutting the same text: one of the first parts is a prefix
    of the other. *)
Lemma app_eq_split {A : Type} (x1 y1 x2 y2 : list A) :
  x1 ++ y1 = x2 ++ y2 ->
  (exists z, x2 = x1 ++ z /\ y1 = z ++ y2)
  \/ (exists z, z <> [] /\ x1 = x2 ++ z /\ y2 = z ++ y1).
Proof.
  revert x2. induction x1 as [|c x1 IH]; intros x2 H.
  - left. exists x2. now split.
  - destruct x2 as [|c' x2].
    + right. exists (c :: x1). repeat split; [discriminate | exact (eq_sym H)].
    + simpl in H. injection H as -> H.
      destruct (IH _ H) as [[z [-> ->]]|[z [Hz [-> ->]]]].
      * left. now exists z.
      * right. now exists z.
Qed.

(** X14.  A count that the tool prints is read back as printed: if the
    report has no [<integer> objects] before the first [<n> objects], with
    [n] printed in decimal and not directly after a digit, the flip-flop
    count that is returned is [n], whatever follows; and it is returned when
    none of the integers converted is beyond the limit of [int]. *)
Theorem printed_count_is_read_back
        (run_yosys : string -> string -> text)
        (yosys_bin artifact_path flow : string)
        (before after : text) (n : Z) :
  (0 <= n)%Z ->
  no_occ objects_occ None before ->
  ends_with_digit before = false ->
  run_yosys yosys_bin (script artifact_path flow)
  = before ++ chars (str n) ++ chars " objects" ++ after ->
  (readable (before ++ chars (str n) ++ chars " objects" ++ after) = true ->
   exists c output,
     get_counts run_yosys yosys_bin artifact_path flow = Ok (c, output)
     /\ Counts.ff_count c = n)
  /\ (forall c output,
        get_counts run_yosys yosys_bin artifact_path flow = Ok (c, output) ->
        Counts.ff_count c = n).
Proof.
  intros Hn Hb He Ho.
  assert (K : Counts.ff_count
                (counts_of (run_yosys yosys_bin (script artifact_path flow)))
              = n).
  { cbn [Counts.ff_count counts_of]. rewrite Ho.
    destruct (str_digits Hn) as [[Dne D] V]. rewrite <- V at 2.
    apply ff_count_of_first
      with before (chars (str n) ++ chars " objects") after.
    split.
    - split; [now rewrite <- app_assoc|]. now split.
    - intros a' m' ds' post' [Hs [Hm [Hne Hd]]].
      destruct (Nat.le_gt_cases (length before) (length a')) as [L|L];
        [exact L|].
      exfalso.
      destruct (app_prefix_split _ _ _ _ Hs) as [x [Ha Hx]]; [lia|].
      (* the occurrence starts inside [before] *)
      destruct (app_eq_split _ _ _ _ Hx) as [[z [Ez _]]|[y [Hy [Em Ey]]]].
      + (* and ends inside it *)
        apply (Hb a' m' ds' z). split; [|now split].
        rewrite Ha, Ez. reflexivity.
      + (* or runs into the digits of [n] *)
        assert (Hc : exists c y', y = c :: y' /\ is_digit c = true).
        { destruct y as [|c y']; [contradiction|]. exists c, y'.
          split; [reflexivity|].
          destruct (chars (str n)) as [|d ds]; [contradiction|].
          simpl in Ey, D. injection Ey as <- _.
          now apply andb_prop in D as [D _]. }
        destruct Hc as [c [y' [-> Hc]]].
        rewrite Hm in Em.
        destruct (app_eq_split _ _ _ _ Em) as [[z [Ez Eo]]|[z [Hz [Ez Eo]]]].
        * (* [x] reaches past the digits of the occurrence *)
          assert (In c (chars " objects")).
          { rewrite Ez, <- app_assoc in Em. apply app_inv_head in Em.
            rewrite Em. apply in_or_app. right. now left. }
          simpl in H.
          repeat (destruct H as [<-|H]; [discriminate Hc|]). contradiction.
        * (* [x] is a proper, non-empty part of the digits *)
          assert (Hx0 : x <> []).
          { intros ->. rewrite Ha, app_nil_r in L. lia. }
          assert (Dx : forallb is_digit x = true).
          { rewrite Ez, forallb_app in Hd.
            now apply andb_prop in Hd as [Hd _]. }
          rewrite Ha, (ends_with_digit_app a' Hx0 Dx) in He.
          discriminate. }
  split.
  - intros R. rewrite <- Ho in R. eexists _, _.
    split; [now apply get_counts_ok | exact K].
  - intros c output H. apply get_counts_inv in H.
    destruct H as [_ [-> _]]. exact K.
Qed.

Lemma printed_count_is_read_back_witness :
  (0 <= 42)%Z
  /\ no_occ objects_occ None (chars "Yosys ")
  /\ ends_with_digit (chars "Yosys ") = false
  /\ (readable (chars "Yosys " ++ chars (str 42) ++ chars " objects"
                  ++ chars ", 7 objects") = true ->
      exists c output,
        get_counts (fun _ _ => chars "Yosys 42 objects, 7 objects")
                   "yosys" "artifacts/d.il" "" = Ok (c, output)
        /\ Counts.ff_count c = 42%Z)
  /\ (forall c output,
        get_counts (fun _ _ => chars "Yosys 42 objects, 7 objects")
                   "yosys" "artifacts/d.il" "" = Ok (c, output) ->
        Counts.ff_count c = 42%Z).
Proof.
  assert (N : no_occ objects_occ None (chars "Yosys "))
    by (apply digit_free_no_objects; reflexivity).
  split; [lia|]. split; [exact N|]. split; [reflexivity|].
  apply (@printed_count_is_read_back
           (fun _ _ => chars "Yosys 42 objects, 7 objects")
           "yosys" "artifacts/d.il" "" (chars "Yosys ")
           (chars ", 7 objects") 42);
    [lia | exact N | reflexivity | reflexivity].
Defined.

(** ** Commas in a design name *)

Local Open Scope string_scope.

Lemma split_on_length (sep : ascii) (s : string) :
  length (split_on sep s) = S (count_char sep s).
Proof.
  induction s as [|c s IH]; simpl; [reflexivity|].
  destruct (Ascii.eqb c sep); simpl; [now rewrite IH|].
  destruct (split_on sep s); simpl in *; lia.
Qed.

Lemma count_char_app (sep : ascii) (x y : string) :
  count_char sep (x ++ y) = count_char sep x + count_char sep y.
Proof.
  induction x as [|c x IH]; simpl; [reflexivity|]. rewrite IH. lia.
Qed.

Lemma count_char_free (sep : ascii) (x : string) :
  free_of sep x = true -> count_char sep x = 0.
Proof.
  induction x as [|c x IH]; simpl; [reflexivity|].
  destruct (Ascii.eqb c sep); [discriminate|]. exact IH.
Qed.

(** X15.  CSV rows are not quoted: a row has nine fields plus one for every
    comma in the design's tag, so a tag with a comma (from the design name
    or from the formatted parameters) shifts the columns, while the numbers
    never add a field. *)
Theorem csv_rows_are_not_quoted (r : result) :
  length (split_on "," (csv_row r)) = 9 + count_char "," (design r).
Proof.
  rewrite split_on_length. unfold csv_row.
  rewrite !count_char_app.
  rewrite !(count_char_free _ _ (str_free_of_comma _)).
  rewrite !(count_char_free _ _ (format_f_free_of_comma _ _)).
  simpl. lia.
Qed.

Local Close Scope string_scope.
